(** * autokeras/keras_layers.py

    A shallow embedding of the pure parts of [autokeras/keras_layers.py]:
    the einsum equation builders, [MaskedSoftmax]'s additive masking,
    [OnDeviceEmbedding]'s two lookup strategies, [load_vocab], the WordPiece
    tokenizer and [BertTokenizer]'s encoding.

    Conventions.
    - A Python [str] is the list of its code points ([list N]); [ord] is the
      identity.  [py "abc"] writes a literal.
    - A Python [int] is a [Z]; lengths and loop counters that the code only
      ever reads from [len] or [range] are [nat].
    - A raised exception is [Raise e]; a normal return is [Ok v].
    - A [dict] is a [gmap]. *)

From Stdlib Require Import Ascii String SpecFloat.
From stdpp Require Import gmap list strings numbers sorting.

#[local] Open Scope Z_scope.

(** ** Python values *)

Definition py (s : string) : list N :=
  Ascii.N_of_ascii <$> String.list_ascii_of_string s.

(** The empty string literal. *)
Definition empty_str : list N := [].

(** The exception classes that the modelled code can raise. *)
Inductive exn : Set :=
  | IndexError            (* sequence index out of range *)
  | KeyError              (* missing dict key *)
  | InvalidArgumentError  (* tf.errors.InvalidArgumentError *)
  | AttributeError.       (* missing attribute *)

Definition exn_name (e : exn) : string :=
  match e with
  | IndexError => "IndexError"
  | KeyError => "KeyError"
  | InvalidArgumentError => "InvalidArgumentError"
  | AttributeError => "AttributeError"
  end.

Inductive result (A : Type) : Type :=
  | Ok (a : A)
  | Raise (e : exn).
Arguments Ok {A} a.
Arguments Raise {A} e.

#[global] Instance result_ret : MRet result := λ A a, Ok a.
#[global] Instance result_bind : MBind result := λ A B f m,
  match m with
  | Ok a => f a
  | Raise e => Raise e
  end.
#[global] Instance result_fmap : FMap result := λ A B f m,
  match m with
  | Ok a => Ok (f a)
  | Raise e => Raise e
  end.

Definition is_Ok {A} (r : result A) : Prop := ∃ a, r = Ok a.

(** [for x in l: s = body x s], stopping at the first exception. *)
Fixpoint for_ {A S : Type} (l : list A) (body : A → S → result S) (s : S)
    : result S :=
  match l with
  | [] => Ok s
  | x :: l' => s' ← body x s; for_ l' body s'
  end.

(** [range(n)]: empty when [n <= 0]. *)
Definition range (n : Z) : list Z :=
  Z.of_nat <$> seq 0 (Z.to_nat n).

(** [l[i]] for an [int] index: negative indices count from the end. *)
Definition getitem {A} (l : list A) (i : Z) : result A :=
  let n := Z.of_nat (length l) in
  let j := if bool_decide (i < 0) then i + n else i in
  if bool_decide (0 ≤ j < n) then
    match l !! Z.to_nat j with
    | Some x => Ok x
    | None => Raise IndexError
    end
  else Raise IndexError.

(** [s[i]] on a [str] is the one-character string. *)
Definition str_getitem (s : list N) (i : Z) : result (list N) :=
  c ← getitem s i; Ok [c].

(** ** Equation builders *)

Definition ascii_lowercase : list N := py "abcdefghijklmnopqrstuvwxyz".

(** ["%s,%s->%s" % (a, b, c)] *)
Definition format_equation (a b c : list N) : list N :=
  a ++ py "," ++ b ++ py "->" ++ c.

Module DenseEinsum.

Definition _CHR_IDX : list (list N) :=
  [py "a"; py "b"; py "c"; py "d"; py "e"; py "f"; py "g"; py "h"; py "i";
   py "j"; py "k"; py "l"; py "m"].

Definition _build_einsum_string (free_input_dims bound_dims output_dims : Z)
    : result (list N) :=
  let input_str := empty_str in
  let kernel_str := empty_str in
  let output_str := empty_str in
  let letter_offset := 0 in
  '(input_str, output_str) ←
    for_ (range free_input_dims) (λ i '(input_str, output_str),
      char ← getitem _CHR_IDX (i + letter_offset);
      Ok (input_str ++ char, output_str ++ char)) (input_str, output_str);
  let letter_offset := letter_offset + free_input_dims in
  '(input_str, kernel_str) ←
    for_ (range bound_dims) (λ i '(input_str, kernel_str),
      char ← getitem _CHR_IDX (i + letter_offset);
      Ok (input_str ++ char, kernel_str ++ char)) (input_str, kernel_str);
  let letter_offset := letter_offset + bound_dims in
  '(kernel_str, output_str) ←
    for_ (range output_dims) (λ i '(kernel_str, output_str),
      char ← getitem _CHR_IDX (i + letter_offset);
      Ok (kernel_str ++ char, output_str ++ char)) (kernel_str, output_str);
  Ok (input_str ++ py "," ++ kernel_str ++ py "->" ++ output_str).

End DenseEinsum.

Definition _build_proj_equation (free_dims bound_dims output_dims : Z)
    : result (list N * list N * Z) :=
  let _CHR_IDX := ascii_lowercase in
  let input_str := empty_str in
  let kernel_str := empty_str in
  let output_str := empty_str in
  let bias_axes := empty_str in
  let letter_offset := 0 in
  '(input_str, output_str) ←
    for_ (range free_dims) (λ i '(input_str, output_str),
      char ← str_getitem _CHR_IDX (i + letter_offset);
      Ok (input_str ++ char, output_str ++ char)) (input_str, output_str);
  let letter_offset := letter_offset + free_dims in
  '(input_str, kernel_str) ←
    for_ (range bound_dims) (λ i '(input_str, kernel_str),
      char ← str_getitem _CHR_IDX (i + letter_offset);
      Ok (input_str ++ char, kernel_str ++ char)) (input_str, kernel_str);
  let letter_offset := letter_offset + bound_dims in
  '(kernel_str, output_str, bias_axes) ←
    for_ (range output_dims) (λ i '(kernel_str, output_str, bias_axes),
      char ← str_getitem _CHR_IDX (i + letter_offset);
      Ok (kernel_str ++ char, output_str ++ char, bias_axes ++ char))
      (kernel_str, output_str, bias_axes);
  let equation := format_equation input_str kernel_str output_str in
  Ok (equation, bias_axes, Z.of_nat (length output_str)).

(** The alphabet of [DenseEinsum._CHR_IDX] as one string. *)
Definition alphabet_m : list N := py "abcdefghijklm".

(** The one-character strings of an alphabet. *)
Definition letters (alpha : list N) : list (list N) := (λ c, [c]) <$> alpha.

(** [alpha[start : start + len]] *)
Definition block (alpha : list N) (start len : Z) : list N :=
  take (Z.to_nat len) (drop (Z.to_nat start) alpha).

(** One loop step appends the symbol to two, or to three, strings. *)
Definition app2 : list N * list N → list N → list N * list N :=
  λ '(a, b) c, (a ++ c, b ++ c).
Definition app3
    : list N * list N * list N → list N → list N * list N * list N :=
  λ '(a, b, d) c, (a ++ c, b ++ c, d ++ c).

(** What the specification says of an equation built over [alpha] for
    [f] free, [b] bound and [o] output axes. *)
Definition equation_spec (alpha : list N) (f b o : Z) (equation : list N)
    : Prop :=
  ∃ Fs Bs Os : list N,
    let input := Fs ++ Bs in
    let kernel := Bs ++ Os in
    let output := Fs ++ Os in
    equation = format_equation input kernel output ∧
    Fs ++ Bs ++ Os = take (Z.to_nat (f + b + o)) alpha ∧
    StronglySorted N.lt (Fs ++ Bs ++ Os) ∧
    Z.of_nat (length Fs) = f ∧ Z.of_nat (length Bs) = b ∧
    Z.of_nat (length Os) = o ∧
    Z.of_nat (length output) = f + o ∧
    ∀ c, c ∈ kernel →
      (c ∈ input ∧ c ∉ output) ∨ ((c ∉ input) ∧ c ∈ output).

(** [r] is an exception whose class is named [cls]. *)
Definition raises_class {A} (r : result A) (cls : string) : Prop :=
  ∃ e, r = Raise e ∧ exn_name e = cls.

(** ** Tensors

    A dense tensor is its shape and its row-major buffer.  The element
    type of a float tensor is a parameter: [Scalar] gives the operations
    the code uses, in the arithmetic of the dtype, so that a sum or a
    product is the rounded one.  [FloatLaws] gives the identities that the
    proofs rely on; all of them hold in IEEE 754 arithmetic, where
    [0 * x] is NaN for an infinite or NaN [x] and zeros are signed.
    [float32] is the binary32 instance, [Z] the exact one. *)

Record tensor (A : Type) : Type := Tensor {
  shape : list nat;
  data : list A;
}.
Arguments Tensor {A} shape data.
Arguments shape {A} t.
Arguments data {A} t.

(** Number of elements of a shape. *)
Definition numel (s : list nat) : nat := foldr Nat.mul 1%nat s.

Definition wf_tensor {A} (t : tensor A) : Prop :=
  length (data t) = numel (shape t).

Class Scalar (R : Type) : Type := {
  of_Z : Z → R;
  add : R → R → R;
  sub : R → R → R;
  mul : R → R → R;
}.

(** [z] is a zero of the dtype: added to [0] it gives [0].  In IEEE 754
    arithmetic the zeros are [+0.0] and [-0.0]. *)
Definition is_zero {R} `{Scalar R} (z : R) : Prop :=
  add (of_Z 0) z = of_Z 0.

(** [x] is finite: [1 * x] is [x] and [0 * x] is a zero.  In IEEE 754
    arithmetic [0 * x] is NaN when [x] is infinite or NaN. *)
Definition is_finite {R} `{Scalar R} (x : R) : Prop :=
  mul (of_Z 1) x = x ∧ is_zero (mul (of_Z 0) x).

Class FloatLaws (R : Type) `{Scalar R} : Prop := {
  sub_1_0 : sub (of_Z 1) (of_Z 0) = of_Z 1;
  sub_1_1 : sub (of_Z 1) (of_Z 1) = of_Z 0;
  add_0_0 : add (of_Z 0) (of_Z 0) = of_Z 0;
  is_finite_0 : is_finite (of_Z 0);
  add_zero_r x z :
    is_finite x → is_zero z → add (add (of_Z 0) x) z = add (of_Z 0) x;
  mul_1_penalty : mul (of_Z 1) (of_Z (-10000)) = of_Z (-10000);
  add_neg_zero x : add x (mul (of_Z 0) (of_Z (-10000))) = x;
}.

#[global] Instance Z_scalar : Scalar Z :=
  {| of_Z z := z; add := Z.add; sub := Z.sub; mul := Z.mul |}.

(** IEEE 754 binary32, the dtype [tf.float32]: 24 bits of precision,
    results rounded to nearest even, one NaN.  [of_Z] is the conversion
    of an integer, rounded. *)
Definition float32 : Type := spec_float.

#[global] Instance float32_scalar : Scalar float32 :=
  {| of_Z z := binary_normalize 24 128 z 0 false;
     add := SFadd 24 128;
     sub := SFsub 24 128;
     mul := SFmul 24 128 |}.

(** The device that runs an op. *)
Inductive device : Set := CPU | GPU.

(** Row-major position of a multi-index, and back. *)
Fixpoint ravel (s idx : list nat) : nat :=
  match s, idx with
  | _ :: s', i :: idx' => (i * numel s' + ravel s' idx')%nat
  | _, _ => 0%nat
  end.

Fixpoint unravel (s : list nat) (p : nat) : list nat :=
  match s with
  | [] => []
  | _ :: s' => (p `div` numel s')%nat :: unravel s' (p `mod` numel s')%nat
  end.

Definition valid_index (s idx : list nat) : Prop :=
  Forall2 (λ i d, (i < d)%nat) idx s.

(** [t[idx]], with [d] where the buffer has no such position. *)
Definition get {A} (d : A) (t : tensor A) (idx : list nat) : A :=
  default d (data t !! ravel (shape t) idx).

Module tf.

(** Element-wise operation of a tensor with a Python scalar. *)
Definition map {A B} (f : A → B) (t : tensor A) : tensor B :=
  Tensor (shape t) (f <$> data t).

(** [tf.cast(t, float)] of an integer tensor. *)
Definition cast {R} `{Scalar R} (t : tensor Z) : tensor R := map of_Z t.

(** [tf.zeros_like(t)] *)
Definition zeros_like (t : tensor Z) : tensor Z := map (λ _, 0) t.

(** [tf.expand_dims(t, axis)]: [axis] may be negative. *)
Definition expand_dims {A} (t : tensor A) (axis : Z) : result (tensor A) :=
  let r := Z.of_nat (length (shape t)) in
  if bool_decide (- r - 1 ≤ axis ≤ r) then
    let k := Z.to_nat (if bool_decide (axis < 0) then axis + r + 1 else axis) in
    Ok (Tensor (take k (shape t) ++ [1%nat] ++ drop k (shape t)) (data t))
  else Raise InvalidArgumentError.

(** Broadcast of two dimensions. *)
Definition broadcast_dim (a b : nat) : option nat :=
  if bool_decide (a = b) then Some a
  else if bool_decide (a = 1%nat) then Some b
  else if bool_decide (b = 1%nat) then Some a
  else None.

(** Broadcast of two shapes given last axis first. *)
Fixpoint broadcast_shapes_rev (s1 s2 : list nat) : option (list nat) :=
  match s1, s2 with
  | [], s | s, [] => Some s
  | a :: s1', b :: s2' =>
      d ← broadcast_dim a b;
      s ← broadcast_shapes_rev s1' s2';
      Some (d :: s)
  end.

Definition broadcast_shapes (s1 s2 : list nat) : option (list nat) :=
  reverse <$> broadcast_shapes_rev (reverse s1) (reverse s2).

(** The index into an operand of shape [s] that a result index [idx]
    reads: the trailing [length s] components, with [0] on the axes of
    extent 1. *)
Definition broadcast_index (s idx : list nat) : list nat :=
  zip_with (λ d i, if bool_decide (d = 1%nat) then 0%nat else i)
    s (drop (length idx - length s) idx).

(** A binary element-wise operation with broadcasting. *)
Definition broadcast_op {A B C} (f : A → B → C) (dx : A) (dy : B)
    (x : tensor A) (y : tensor B) : result (tensor C) :=
  match broadcast_shapes (shape x) (shape y) with
  | None => Raise InvalidArgumentError
  | Some s =>
      Ok (Tensor s
            ((λ p, let idx := unravel s p in
                   f (get dx x (broadcast_index (shape x) idx))
                     (get dy y (broadcast_index (shape y) idx)))
               <$> seq 0 (numel s)))
  end.

(** [tf.reshape(t, new_shape)]: one entry of [new_shape] may be [-1]. *)
Definition reshape {A} (t : tensor A) (new_shape : list Z)
    : result (tensor A) :=
  let n := length (data t) in
  let known := filter (λ d, d ≠ -1) new_shape in
  let unknown := (length new_shape - length known)%nat in
  let k := Z.to_nat (foldr Z.mul 1 known) in
  if bool_decide (Forall (λ d, 0 ≤ d) known) then
    if bool_decide (unknown = 0%nat) then
      if bool_decide (k = n) then Ok (Tensor (Z.to_nat <$> new_shape) (data t))
      else Raise InvalidArgumentError
    else if bool_decide (unknown = 1%nat ∧ k ≠ 0%nat ∧ (n `mod` k = 0)%nat) then
      Ok (Tensor ((λ d, if bool_decide (d = -1) then (n `div` k)%nat
                        else Z.to_nat d) <$> new_shape) (data t))
    else Raise InvalidArgumentError
  else Raise InvalidArgumentError.

(** [tf.shape(t)] as a list of integers. *)
Definition shape_of {A} (t : tensor A) : list Z := Z.of_nat <$> shape t.

(** [tf.one_hot(indices, depth)] of a rank-1 tensor: rows of [depth]
    entries, all zero for an index outside [0, depth). *)
Definition one_hot {R} `{Scalar R} (indices : tensor Z) (depth : nat)
    : tensor R :=
  Tensor (shape indices ++ [depth])
    (i ← data indices;
     (λ j, if bool_decide (i = Z.of_nat j) then of_Z 1 else of_Z 0)
       <$> seq 0 depth).

(** [sum_{l < m} g l], accumulated from zero. *)
Definition sum_upto {R} `{Scalar R} (m : nat) (g : nat → R) : R :=
  foldl (λ acc l, add acc (g l)) (of_Z 0) (seq 0 m).

(** [tf.matmul(a, b)] of two matrices. *)
Definition matmul {R} `{Scalar R} (a b : tensor R) : result (tensor R) :=
  match shape a, shape b with
  | [n; m], [m'; k] =>
      if bool_decide (m = m') then
        Ok (Tensor [n; k]
              (i ← seq 0 n;
               (λ j, sum_upto m (λ l,
                       mul (default (of_Z 0) (data a !! (i * m + l)%nat))
                           (default (of_Z 0) (data b !! (l * k + j)%nat))))
                 <$> seq 0 k))
      else Raise InvalidArgumentError
  | _, _ => Raise InvalidArgumentError
  end.

(** [tf.gather(params, indices)] along axis 0 with rank-1 [indices].  For
    an index outside [0, params.shape[0]) the CPU kernel returns an error
    and the GPU kernel stores 0 in the corresponding output values. *)
Definition gather {R} `{Scalar R} (dev : device) (params : tensor R)
    (indices : tensor Z) : result (tensor R) :=
  match shape params with
  | v :: rest =>
      let w := numel rest in
      rows ← mapM (M := result) (λ i,
        if bool_decide (0 ≤ i < Z.of_nat v)
        then Ok (take w (drop (Z.to_nat i * w) (data params)))
        else match dev with
             | CPU => Raise InvalidArgumentError
             | GPU => Ok (replicate w (of_Z 0))
             end) (data indices);
      Ok (Tensor (shape indices ++ rest) (concat rows))
  | [] => Raise InvalidArgumentError
  end.

End tf.

(** ** MaskedSoftmax: the scores handed to the normalisation *)

Module MaskedSoftmax.

(** The loop of [call] that pads the mask with singleton axes:
    [for _ in range(len(scores.shape) - len(mask.shape)):
       mask = tf.expand_dims(mask, axis=self._mask_expansion_axes)]. *)
Definition expand_mask {A} (_mask_expansion_axes : Z)
    (scores_shape : list nat) (mask : tensor A) : result (tensor A) :=
  for_ (range (Z.of_nat (length scores_shape)
               - Z.of_nat (length (shape mask))))
    (λ _ mask, tf.expand_dims mask _mask_expansion_axes) mask.

(** [call] up to the value of [scores] that is normalised. *)
Definition masked_scores {R} `{Scalar R} (_mask_expansion_axes : Z)
    (scores : tensor R) (mask : option (tensor Z)) : result (tensor R) :=
  match mask with
  | Some mask =>
      mask ← expand_mask _mask_expansion_axes (shape scores) mask;
      let adder :=
        tf.map (λ x, mul x (of_Z (-10000)))
          (tf.map (λ m, sub (of_Z 1) m) (tf.cast mask)) in
      tf.broadcast_op add (of_Z 0) (of_Z 0) scores adder
  | None => Ok scores
  end.

End MaskedSoftmax.

(** The mask with [len(scores_shape) - len(mask.shape)] singleton axes
    inserted at the position that [axis] names in the shape of the mask. *)
Definition padded_mask {A} (axis : Z) (scores_shape : list nat)
    (mask : tensor A) : tensor A :=
  let p := Z.to_nat (if bool_decide (axis < 0)
                     then axis + Z.of_nat (length (shape mask)) + 1
                     else axis) in
  Tensor
    (take p (shape mask)
     ++ replicate (length scores_shape - length (shape mask)) 1%nat
     ++ drop p (shape mask))
    (data mask).

(** ** OnDeviceEmbedding *)

Module OnDeviceEmbedding.

Record layer (R : Type) : Type := Layer {
  _vocab_size : nat;
  _embedding_width : nat;
  _use_one_hot : bool;
  embeddings : tensor R;
}.
Arguments Layer {R}.
Arguments _vocab_size {R}.
Arguments _embedding_width {R}.
Arguments _use_one_hot {R}.
Arguments embeddings {R}.

(** [call]; [dev] is the device that runs the ops. *)
Definition call {R} `{Scalar R} (dev : device) (self : layer R)
    (inputs : tensor Z) : result (tensor R) :=
  flat_inputs ← tf.reshape inputs [-1];
  embeddings ←
    (if _use_one_hot self then
       let one_hot_data := tf.one_hot flat_inputs (_vocab_size self) in
       tf.matmul one_hot_data (embeddings self)
     else tf.gather dev (embeddings self) flat_inputs);
  tf.reshape embeddings
    (tf.shape_of inputs ++ [Z.of_nat (_embedding_width self)]).

End OnDeviceEmbedding.

(** ** Python strings *)

(** A value that is either a [str] or a [bytes] object. *)
Inductive pytext : Type :=
  | Str (s : list N)
  | Bytes (b : list N).

(** The functions of Python's Unicode database and codecs that the
    tokenizer calls. *)
Class unicodedata : Type := Unicodedata {
  category : N → list N;            (* unicodedata.category(char) *)
  normalize_NFD : list N → list N;  (* unicodedata.normalize("NFD", text) *)
  lower : list N → list N;          (* str.lower() *)
  decode_utf8 : list N → list N;    (* bytes.decode("utf-8", "ignore") *)
}.

(** The characters that [str.strip()] and [str.split()] treat as
    whitespace ([str.isspace]). *)
Definition isspace (c : N) : bool :=
  bool_decide
    (c ∈ [9; 10; 11; 12; 13; 28; 29; 30; 31; 32; 133; 160; 5760; 8232; 8233;
          8239; 8287; 12288]%N)
  || bool_decide (8192 ≤ c ≤ 8202)%N.

Fixpoint lstrip (s : list N) : list N :=
  match s with
  | c :: s' => if isspace c then lstrip s' else s
  | [] => []
  end.

Definition rstrip (s : list N) : list N := reverse (lstrip (reverse s)).

(** [s.strip()] *)
Definition strip (s : list N) : list N := rstrip (lstrip s).

(** [s.split()]: the maximal runs of non-whitespace; [cur] is the run
    being read. *)
Fixpoint split_from (cur s : list N) : list (list N) :=
  match s with
  | [] => if bool_decide (cur = []) then [] else [cur]
  | c :: s' =>
      if isspace c then
        if bool_decide (cur = []) then split_from [] s'
        else cur :: split_from [] s'
      else split_from (cur ++ [c]) s'
  end.

Definition split (s : list N) : list (list N) := split_from [] s.

(** [sep.join(l)] *)
Fixpoint join (sep : list N) (l : list (list N)) : list N :=
  match l with
  | [] => []
  | [x] => x
  | x :: l' => x ++ sep ++ join sep l'
  end.

(** [l[:n]] for an [int] bound. *)
Definition slice_to {A} (l : list A) (n : Z) : list A :=
  if bool_decide (n < 0) then take (Z.to_nat (Z.of_nat (length l) + n)) l
  else take (Z.to_nat n) l.

(** [l[start:end]] for indices within [0, len(l)]. *)
Definition slice {A} (l : list A) (start end_ : nat) : list A :=
  take (end_ - start) (drop start l).

(** ** Tokenization *)

Definition convert_by_vocab {K V} `{Countable K} (vocab : gmap K V)
    (items : list K) : result (list V) :=
  for_ items (λ item output,
    match vocab !! item with
    | Some v => Ok (output ++ [v])
    | None => Raise KeyError
    end) [].

Definition convert_to_unicode {U : unicodedata} (text : pytext) : list N :=
  match text with
  | Str s => s
  | Bytes b => decode_utf8 b
  end.

(** [load_vocab], reading from the strings that successive [readline()]
    calls return; at the end of the file [readline()] returns the empty
    string. *)
Fixpoint load_vocab_loop {U : unicodedata} (reader : list (list N))
    (vocab : gmap (list N) Z) (index : Z) : gmap (list N) Z :=
  match reader with
  | [] => vocab
  | line :: reader' =>
      let token := convert_to_unicode (Str line) in
      if bool_decide (token = []) then vocab
      else
        let token := strip token in
        load_vocab_loop reader' (<[token := index]> vocab) (index + 1)
  end.

Definition load_vocab {U : unicodedata} (vocab_file : list (list N))
    : gmap (list N) Z :=
  load_vocab_loop vocab_file ∅ 0.

Definition whitespace_tokenize (text : list N) : list (list N) :=
  let text := strip text in
  if bool_decide (text = []) then [] else split text.

Definition _is_control {U : unicodedata} (char : N) : bool :=
  if bool_decide (char = 9 ∨ char = 10 ∨ char = 13)%N then false
  else
    let cat := category char in
    if bool_decide (cat ∈ [py "Cc"; py "Cf"]) then true else false.

Definition _is_whitespace {U : unicodedata} (char : N) : bool :=
  if bool_decide (char = 32 ∨ char = 9 ∨ char = 10 ∨ char = 13)%N then true
  else
    let cat := category char in
    if bool_decide (cat = py "Zs") then true else false.

Definition _is_punctuation {U : unicodedata} (char : N) : bool :=
  let cp := char in
  if bool_decide ((33 ≤ cp ≤ 47) ∨ (58 ≤ cp ≤ 64) ∨ (91 ≤ cp ≤ 96)
                  ∨ (123 ≤ cp ≤ 126))%N then true
  else
    let cat := category char in
    if bool_decide (take 1 cat = py "P") then true else false.

Module BasicTokenizer.

Record t : Type := Build {
  do_lower_case : bool;
  split_on_punc : bool;
}.

Definition _is_chinese_char (cp : N) : bool :=
  bool_decide
    ((0x4E00 ≤ cp ≤ 0x9FFF) ∨ (0x3400 ≤ cp ≤ 0x4DBF)
     ∨ (0x20000 ≤ cp ≤ 0x2A6DF) ∨ (0x2A700 ≤ cp ≤ 0x2B73F)
     ∨ (0x2B740 ≤ cp ≤ 0x2B81F) ∨ (0x2B820 ≤ cp ≤ 0x2CEAF)
     ∨ (0xF900 ≤ cp ≤ 0xFAFF) ∨ (0x2F800 ≤ cp ≤ 0x2FA1F))%N.

Definition _clean_text {U : unicodedata} (text : list N) : list N :=
  char ← text;
  let cp := char in
  if bool_decide (cp = 0 ∨ cp = 0xFFFD)%N || _is_control char then []
  else if _is_whitespace char then py " "
  else [char].

Definition _tokenize_chinese_chars (text : list N) : list N :=
  char ← text;
  let cp := char in
  if _is_chinese_char cp then py " " ++ [char] ++ py " " else [char].

Definition _run_strip_accents {U : unicodedata} (text : list N) : list N :=
  let text := normalize_NFD text in
  char ← text;
  let cat := category char in
  if bool_decide (cat = py "Mn") then [] else [char].

(** [output[-1].append(char)]; [output] is not empty when this is reached
    (see [split_on_punc_step_nonempty]). *)
Definition append_to_last (output : list (list N)) (char : N)
    : list (list N) :=
  match reverse output with
  | last :: init => reverse init ++ [last ++ [char]]
  | [] => output
  end.

(** One iteration of the loop of [_run_split_on_punc] on the state
    [(start_new_word, output)]. *)
Definition split_on_punc_step {U : unicodedata}
    : bool * list (list N) → N → bool * list (list N) :=
  λ '(start_new_word, output) char,
    if _is_punctuation char then (true, output ++ [[char]])
    else
      let output := if start_new_word : bool then output ++ [[]]
                    else output in
      (false, append_to_last output char).

Definition _run_split_on_punc {U : unicodedata} (text : list N)
    : list (list N) :=
  let chars := text in
  let '(_, output) := foldl split_on_punc_step (true, []) chars in
  output.

Definition tokenize {U : unicodedata} (self : t) (text : pytext)
    : list (list N) :=
  let text := convert_to_unicode text in
  let text := _clean_text text in
  let text := _tokenize_chinese_chars text in
  let orig_tokens := whitespace_tokenize text in
  let split_tokens :=
    token ← orig_tokens;
    let token := if do_lower_case self
                 then _run_strip_accents (lower token) else token in
    if split_on_punc self then _run_split_on_punc token else [token] in
  whitespace_tokenize (join (py " ") split_tokens).

End BasicTokenizer.

Module WordpieceTokenizer.

Record t : Type := Build {
  vocab : gmap (list N) Z;
  unk_token : list N;
  max_input_chars_per_word : Z;
}.

(** [__init__(vocab, unk_token="[UNK]", max_input_chars_per_word=400)] *)
Definition init (vocab : gmap (list N) Z) : t :=
  Build vocab (py "[UNK]") 400.

(** The string looked up for [chars[start:end]]. *)
Definition candidate (chars : list N) (start end_ : nat) : list N :=
  let substr := slice chars start end_ in
  if bool_decide (0 < start)%nat then py "##" ++ substr else substr.

(** The inner [while start < end] loop, entered with [end = start + k]:
    the final [(end, cur_substr)], or [None] when [cur_substr] stays
    [None]. *)
Fixpoint longest_match (vocab : gmap (list N) Z) (chars : list N)
    (start k : nat) : option (nat * list N) :=
  match k with
  | O => None
  | S k' =>
      let end_ := (start + S k')%nat in
      let substr := candidate chars start end_ in
      if bool_decide (is_Some (vocab !! substr)) then Some (end_, substr)
      else longest_match vocab chars start k'
  end.

(** The outer [while start < len(chars)] loop: the final
    [(is_bad, sub_tokens)].  Every iteration advances [start], so
    [fuel = len(chars)] iterations are enough and [None] is not
    returned. *)
Fixpoint segment (vocab : gmap (list N) Z) (chars : list N) (fuel : nat)
    (start : nat) (sub_tokens : list (list N))
    : option (bool * list (list N)) :=
  if bool_decide (start < length chars)%nat then
    match fuel with
    | O => None
    | S fuel' =>
        match longest_match vocab chars start (length chars - start) with
        | None => Some (true, sub_tokens)
        | Some (end_, cur_substr) =>
            segment vocab chars fuel' end_ (sub_tokens ++ [cur_substr])
        end
    end
  else Some (false, sub_tokens).

(** The body of the [for token in whitespace_tokenize(text)] loop: what
    is added to [output_tokens] for one token. *)
Definition tokenize_token (self : t) (token : list N) : list (list N) :=
  let chars := token in
  if bool_decide (Z.of_nat (length chars) > max_input_chars_per_word self)
  then [unk_token self]
  else
    match segment (vocab self) chars (length chars) 0 [] with
    | Some (true, _) => [unk_token self]
    | Some (false, sub_tokens) => sub_tokens
    | None => [] (* not reached, see [segment_fuel] *)
    end.

Definition tokenize {U : unicodedata} (self : t) (text : pytext)
    : list (list N) :=
  let text := convert_to_unicode text in
  token ← whitespace_tokenize text;
  tokenize_token self token.

End WordpieceTokenizer.

Module FullTokenizer.

Record t : Type := Build {
  vocab : gmap (list N) Z;
  basic_tokenizer : BasicTokenizer.t;
  wordpiece_tokenizer : WordpieceTokenizer.t;
}.

(** [__init__(vocab_file, do_lower_case=True, split_on_punc=True)];
    [inv_vocab], which only [convert_ids_to_tokens] reads, is left out. *)
Definition init {U : unicodedata} (vocab_file : list (list N))
    (do_lower_case split_on_punc : bool) : t :=
  let vocab := load_vocab vocab_file in
  Build vocab (BasicTokenizer.Build do_lower_case split_on_punc)
    (WordpieceTokenizer.init vocab).

Definition tokenize {U : unicodedata} (self : t) (text : pytext)
    : list (list N) :=
  token ← BasicTokenizer.tokenize (basic_tokenizer self) text;
  WordpieceTokenizer.tokenize (wordpiece_tokenizer self) (Str token).

Definition convert_tokens_to_ids (self : t) (tokens : list (list N))
    : result (list Z) :=
  convert_by_vocab (vocab self) tokens.

End FullTokenizer.

Module BertTokenizer.

Record t : Type := Build {
  tokenizer : FullTokenizer.t;
  max_sequence_length : Z;
}.

(** [__init__]: the vocabulary file at [constants.BERT_VOCAB_PATH] is
    not part of the module and is a parameter here. *)
Definition init {U : unicodedata} (BERT_VOCAB : list (list N))
    (max_sequence_length : Z) : t :=
  Build (FullTokenizer.init BERT_VOCAB true true) max_sequence_length.

Definition encode_sentence {U : unicodedata} (self : t) (s : pytext)
    : result (list Z) :=
  let tokens := FullTokenizer.tokenize (tokenizer self) s in
  let tokens := tokens ++ [py "[SEP]"] in
  FullTokenizer.convert_tokens_to_ids (tokenizer self) tokens.

(** The rows of the ragged tensor. *)
Definition get_encoded_sentence {U : unicodedata} (self : t)
    (input_tensor : list (list pytext)) : result (list (list Z)) :=
  mapM (M := result) (λ s, s0 ← getitem s 0; encode_sentence self s0)
    input_tensor.

(** [ragged.to_tensor()]: rows padded with 0 to the longest row. *)
Definition to_tensor (rows : list (list Z)) : list (list Z) :=
  let width := max_list (length <$> rows) in
  (λ row, row ++ replicate (width - length row) 0) <$> rows.

(** The rows of the dense result.  [tf.ragged.constant] of an empty list
    is a dense tensor without [to_tensor]. *)
Definition bert_encode {U : unicodedata} (self : t)
    (input_tensor : list (list pytext)) : result (list (list Z)) :=
  sentence ← get_encoded_sentence self input_tensor;
  cls_ids ← FullTokenizer.convert_tokens_to_ids (tokenizer self)
              [py "[CLS]"];
  let cls := replicate (length sentence) cls_ids in
  if bool_decide (sentence = []) then Raise AttributeError
  else
    let input_word_ids := to_tensor (zip_with app cls sentence) in
    let width := max_list (length <$> input_word_ids) in
    if bool_decide (Z.of_nat width > max_sequence_length self) then
      Ok ((λ row, slice_to row (max_sequence_length self))
            <$> input_word_ids)
    else Ok input_word_ids.

(** [tf.zeros_like] on the rows of a dense tensor. *)
Definition zeros_like (rows : list (list Z)) : list (list Z) :=
  (λ row : list Z, (λ _ : Z, 0) <$> row) <$> rows.

Definition call {U : unicodedata} (self : t) (inputs : list (list pytext))
    : result (list (list Z) * list (list Z) * list (list Z)) :=
  input_word_ids ← bert_encode self inputs;
  let input_mask := zeros_like input_word_ids in
  let input_type_ids := zeros_like input_word_ids in
  Ok (input_word_ids, input_mask, input_type_ids).

End BertTokenizer.

(** A database for ASCII text: it agrees with Python on the code points
    below 128 and treats every other code point as unassigned. *)
Definition ascii_category (c : N) : list N :=
  if bool_decide (c < 32 ∨ c = 127)%N then py "Cc"
  else if bool_decide (c = 32)%N then py "Zs"
  else if bool_decide (48 ≤ c ≤ 57)%N then py "Nd"
  else if bool_decide (65 ≤ c ≤ 90)%N then py "Lu"
  else if bool_decide (97 ≤ c ≤ 122)%N then py "Ll"
  else if bool_decide (c = 36)%N then py "Sc"
  else if bool_decide (c ∈ [43; 60; 61; 62; 124; 126])%N then py "Sm"
  else if bool_decide (c ∈ [94; 96])%N then py "Sk"
  else if bool_decide (c ∈ [40; 91; 123])%N then py "Ps"
  else if bool_decide (c ∈ [41; 93; 125])%N then py "Pe"
  else if bool_decide (c = 45)%N then py "Pd"
  else if bool_decide (c = 95)%N then py "Pc"
  else if bool_decide (c < 128)%N then py "Po"
  else py "Cn".

Definition ascii_lower (s : list N) : list N :=
  (λ c, if bool_decide (65 ≤ c ≤ 90)%N then (c + 32)%N else c) <$> s.

Definition ascii_db : unicodedata :=
  Unicodedata ascii_category (λ s, s) ascii_lower
    (filter (λ b, (b < 128)%N)).

(** ** Notions used to state the tokenizer's properties *)

(** A token as the basic tokenizer hands it on: non-empty and without
    whitespace. *)
Definition stage_a_token (token : list N) : Prop :=
  token ≠ [] ∧ Forall (λ c, isspace c = false) token.

(** The cursor positions of greedy longest-match segmentation: position 0,
    and from a cursor the end of the longest candidate that is in the
    vocabulary. *)
Inductive cursor (vocab : gmap (list N) Z) (chars : list N) : nat → Prop :=
  | cursor_start : cursor vocab chars 0
  | cursor_next (start end_ : nat) :
      cursor vocab chars start →
      (start < end_ ≤ length chars)%nat →
      is_Some (vocab !! WordpieceTokenizer.candidate chars start end_) →
      (∀ e, (end_ < e ≤ length chars)%nat →
         vocab !! WordpieceTokenizer.candidate chars start e = None) →
      cursor vocab chars end_.

(** The sub-tokens written for the pieces of a token cut from position
    [start] on: a piece that starts at position 0 is written as it is, every
    other piece after the marker. *)
Definition mark_pieces (start : nat) (pieces : list (list N))
    : list (list N) :=
  match start, pieces with
  | O, first :: rest => first :: (app (py "##") <$> rest)
  | _, _ => app (py "##") <$> pieces
  end.

(** The vocabulary of WordPiece's documented example, with and without
    the longer entries ["una"], ["##ffa"], ["##ble"]. *)
Definition unaffable_vocab : gmap (list N) Z :=
  {[ py "un" := 0; py "##aff" := 1; py "##able" := 2 ]}.

Definition unaffable_vocab_longer : gmap (list N) Z :=
  {[ py "un" := 0; py "##aff" := 1; py "##able" := 2;
     py "una" := 3; py "##ffa" := 4; py "##ble" := 5 ]}.

(** The candidates that are longer than ["un"] at position 0 and longer
    than ["##aff"] at position 2 of ["unaffable"]. *)
Definition unaffable_longer_candidates : list (list N) :=
  py <$> ["unaffable"; "unaffabl"; "unaffab"; "unaffa"; "unaff"; "unaf";
          "una"; "##affable"; "##affabl"; "##affab"; "##affa"]%string.

(** [t] starts with the continuation marker. *)
Definition has_marker (t : list N) : Prop := take 2 t = py "##".

(** Only the sub-tokens after the first start with the marker. *)
Definition marker_only_on_continuations (sub_tokens : list (list N)) : Prop :=
  ∀ i t, sub_tokens !! i = Some t → (has_marker t ↔ (0 < i)%nat).

(** ** Notions used to state [load_vocab]'s properties *)

(** The end-of-line character. *)
Definition nl : list N := [10%N].

(** The strings [readline()] returns before the empty string that ends
    the loop. *)
Fixpoint lines_read (reader : list (list N)) : list (list N) :=
  match reader with
  | [] => []
  | line :: reader' =>
      if bool_decide (line = []) then [] else line :: lines_read reader'
  end.

(** The position of the last occurrence of [t]. *)
Fixpoint last_index (t : list N) (toks : list (list N)) : option nat :=
  match toks with
  | [] => None
  | x :: toks' =>
      match last_index t toks' with
      | Some j => Some (S j)
      | None => if bool_decide (x = t) then Some 0%nat else None
      end
  end.

(** The ids of a vocabulary are [0, 1, ..., size - 1]. *)
Definition contiguous_ids (vocab : gmap (list N) Z) : Prop :=
  ∀ i, (∃ t, vocab !! t = Some i) ↔ 0 ≤ i < Z.of_nat (size vocab).

(** Every token has the number of the first line that reads as it once
    trailing whitespace is removed. *)
Definition first_occurrence_ids (reader : list (list N))
    (vocab : gmap (list N) Z) : Prop :=
  ∀ t i, vocab !! t = Some i ↔
    ∃ j, i = Z.of_nat j ∧ (rstrip <$> reader) !! j = Some t ∧
         ∀ j', (j' < j)%nat → (rstrip <$> reader) !! j' ≠ Some t.

(** ** Notions used to state the encoder's properties *)

(** The ids of tokens that are in the vocabulary. *)
Definition ids_of (vocab : gmap (list N) Z) (tokens : list (list N))
    : list Z :=
  (λ t, default 0 (vocab !! t)) <$> tokens.

(** A row as the specification describes it: the sub-word ids between the
    class id and the separator id, cut to its first [n] ids. *)
Definition framed_row (cls sep : Z) (ids : list Z) (n : Z) : list Z :=
  take (Z.to_nat n) (cls :: ids ++ [sep]).

(** A small vocabulary file with the special tokens. *)
Definition small_vocab_file : list (list N) :=
  (λ s, py s ++ nl)
    <$> ["[UNK]"; "[CLS]"; "[SEP]"; "hello"; "world"; ","]%string.

(** The ids of the sub-word tokens of a sentence. *)
Definition sub_word_ids {U : unicodedata} (self : BertTokenizer.t)
    (s : pytext) : list Z :=
  ids_of (FullTokenizer.vocab (BertTokenizer.tokenizer self))
    (FullTokenizer.tokenize (BertTokenizer.tokenizer self) s).

(** A row as [bert_encode] returns it: the framed ids, padded with 0 to
    [width], cut to the first [n]. *)
Definition padded_row (cls sep : Z) (ids : list Z) (width : nat) (n : Z)
    : list Z :=
  take (Z.to_nat n)
    ((cls :: ids ++ [sep]) ++ replicate (width - (length ids + 2)) 0).

(** ** Notions used to state the basic tokenizer's properties *)

(** The two kinds of piece that [_run_split_on_punc] writes: a single
    punctuation character, and a non-empty run without punctuation. *)
Definition is_punc {U : unicodedata} (p : list N) : Prop :=
  ∃ c, p = [c] ∧ _is_punctuation c = true.

Definition is_word {U : unicodedata} (p : list N) : Prop :=
  p ≠ [] ∧ Forall (λ c, _is_punctuation c = false) p.

(** Of two neighbouring pieces, one is a punctuation character: the runs
    without punctuation are maximal. *)
Definition no_adjacent_words {U : unicodedata} (out : list (list N))
    : Prop :=
  ∀ i p q, out !! i = Some p → out !! S i = Some q → is_punc p ∨ is_punc q.

(** What the loop of [_run_split_on_punc] maintains, after the characters
    [seen], on its state [(start_new_word, output)]. *)
Definition split_on_punc_inv {U : unicodedata} (seen : list N)
    (st : bool * list (list N)) : Prop :=
  concat st.2 = seen ∧
  Forall (λ p, is_punc p ∨ is_word p) st.2 ∧
  no_adjacent_words st.2 ∧
  (if st.1 then ∀ p, last st.2 = Some p → is_punc p
   else ∃ init w, st.2 = init ++ [w] ∧ is_word w).

(** ** FullTokenizer: the inverse vocabulary *)

(** [self.inv_vocab = {v: k for k, v in self.vocab.items()}], which
    [__init__] computes from [vocab].  The comprehension visits the items
    in insertion order and [map_to_list] in another one; the result is the
    same because no two tokens of a vocabulary read by [load_vocab] share
    an id (see [load_vocab_inj]). *)
Definition inv_vocab (self : FullTokenizer.t) : gmap Z (list N) :=
  foldl (λ inv '(k, v), <[v := k]> inv) ∅
    (map_to_list (FullTokenizer.vocab self)).

Definition convert_ids_to_tokens (self : FullTokenizer.t) (ids : list Z)
    : result (list (list N)) :=
  convert_by_vocab (inv_vocab self) ids.

(** ** Notions used to state the embedding's properties *)



(** ** Rank checks *)

(** The rank checks raise [ValueError], which is not among the exceptions
    of [result]: a computation that passes them is [Done r], where [r] is
    what the rest of the call does. *)
Inductive checked (A : Type) : Type :=
  | Done (r : result A)
  | ValueError.
Arguments Done {A} r.
Arguments ValueError {A}.

#[global] Instance checked_ret : MRet checked := λ A a, Done (Ok a).
#[global] Instance checked_bind : MBind checked := λ A B f m,
  match m with
  | Done (Ok a) => f a
  | Done (Raise e) => Done (Raise e)
  | ValueError => ValueError
  end.

(** The [expected_rank] argument: an integer or a list of integers. *)
Inductive ranks : Type :=
  | Rank (r : Z)
  | Ranks (rs : list Z).

Definition assert_rank {A} (tensor : tensor A) (expected_rank : ranks)
    : checked unit :=
  let expected_rank_dict : gmap Z bool :=
    match expected_rank with
    | Rank r => <[r := true]> ∅
    | Ranks rs => foldl (λ d x, <[x := true]> d) ∅ rs
    end in
  let actual_rank := Z.of_nat (length (shape tensor)) in
  if bool_decide (expected_rank_dict !! actual_rank = None) then ValueError
  else mret ().

(** Every dimension of a [tensor] is static, so [non_static_indexes] is
    empty and the static shape is returned. *)
Definition get_shape_list {A} (tensor : tensor A)
    (expected_rank : option ranks) : checked (list Z) :=
  _ ← match expected_rank with
      | Some expected_rank => assert_rank tensor expected_rank
      | None => mret ()
      end;
  let shape := tf.shape_of tensor in
  mret shape.

(** [tf.ones(shape)] *)
Definition ones {R} `{Scalar R} (shape : list Z) : tensor R :=
  Tensor (Z.to_nat <$> shape)
    (replicate (numel (Z.to_nat <$> shape)) (of_Z 1)).

(** [tf.broadcast_to(t, shape)] *)
Definition broadcast_to {A} (d : A) (t : tensor A) (new_shape : list Z)
    : result (tensor A) :=
  let s := Z.to_nat <$> new_shape in
  if bool_decide (Forall (λ n, 0 ≤ n) new_shape
                  ∧ tf.broadcast_shapes (shape t) s = Some s) then
    Ok (Tensor s
          ((λ p, get d t (tf.broadcast_index (shape t) (unravel s p)))
             <$> seq 0 (numel s)))
  else Raise InvalidArgumentError.

(** [t[:n, :]] for a matrix [t] and [n >= 0]. *)
Definition slice_rows {A} (t : tensor A) (n : Z) : result (tensor A) :=
  match shape t with
  | [l; w] =>
      let k := (Z.to_nat n `min` l)%nat in
      Ok (Tensor [k; w] (take (k * w) (data t)))
  | _ => Raise IndexError
  end.

Module SelfAttentionMask.

Definition call {R} `{Scalar R} (from_tensor : tensor R) (to_mask : tensor Z)
    : checked (tensor R) :=
  from_shape ← get_shape_list from_tensor (Some (Ranks [2; 3]));
  batch_size ← Done (getitem from_shape 0);
  from_seq_length ← Done (getitem from_shape 1);
  to_shape ← get_shape_list to_mask (Some (Rank 2));
  to_seq_length ← Done (getitem to_shape 1);
  to_mask ← Done (tf.cast (R := R)
                    <$> tf.reshape to_mask [batch_size; 1; to_seq_length]);
  let broadcast_ones : tensor R := ones [batch_size; from_seq_length; 1] in
  let mask := tf.broadcast_op mul (of_Z 0) (of_Z 0) broadcast_ones to_mask in
  Done mask.

End SelfAttentionMask.

Module PositionEmbedding.

Record layer (R : Type) : Type := Layer {
  _use_dynamic_slicing : bool;
  _position_embeddings : tensor R;
}.
Arguments Layer {R}.
Arguments _use_dynamic_slicing {R}.
Arguments _position_embeddings {R}.

Definition call {R} `{Scalar R} (self : layer R) (inputs : tensor R)
    : checked (tensor R) :=
  input_shape ← get_shape_list inputs (Some (Rank 3));
  position_embeddings ←
    (if _use_dynamic_slicing self then
       n ← Done (getitem input_shape 1);
       Done (slice_rows (_position_embeddings self) n)
     else mret (_position_embeddings self));
  Done (broadcast_to (of_Z 0) position_embeddings input_shape).

End PositionEmbedding.

(** ** The attention equations *)

(** [arr[keep]] after [keep[obj] = False], position [k] being the position
    of the head of [arr]. *)
Fixpoint delete_from {A} (k : Z) (obj : list Z) (arr : list A) : list A :=
  match arr with
  | [] => []
  | x :: arr' =>
      (if bool_decide (k ∈ obj) then [] else [x])
      ++ delete_from (k + 1) obj arr'
  end.

(** [np.delete(arr, obj)] for a sequence [obj] of indices, as numpy 1.19
    and later do it: an index outside [[-len(arr), len(arr))] raises
    [IndexError], a negative index counts from the end, and the elements at
    the named positions are left out, each once. *)
Definition np_delete {A} (arr : list A) (obj : list Z) : result (list A) :=
  let n := Z.of_nat (length arr) in
  if bool_decide (Forall (λ i, - n ≤ i < n) obj) then
    Ok (delete_from 0
          ((λ i, if bool_decide (i < 0) then i + n else i) <$> obj) arr)
  else Raise IndexError.

(** [range(start, stop)] *)
Definition range_from (start stop : Z) : list Z :=
  (λ i, start + i) <$> range (stop - start).

(** One turn of the loop that builds [source_notation]. *)
Definition source_notation_step (qkv_rank : Z) (batch_dims : list Z)
    (_CHR_IDX target_notation : list N) (i : Z) (st : list N * Z)
    : result (list N * Z) :=
  let '(source_notation, letter_offset) := st in
  if bool_decide (i ∈ batch_dims ∨ i = qkv_rank - 1) then
    char ← str_getitem target_notation i;
    Ok (source_notation ++ char, letter_offset)
  else
    char ← str_getitem _CHR_IDX letter_offset;
    Ok (source_notation ++ char, letter_offset + 1).

Definition _build_attention_equation (qkv_rank : Z) (attn_axes : list Z)
    : result (list N * list N * Z) :=
  let _CHR_IDX := ascii_lowercase in
  let target_notation := slice_to _CHR_IDX qkv_rank in
  batch_dims ← np_delete (range qkv_rank) (attn_axes ++ [qkv_rank - 1]);
  let letter_offset := qkv_rank in
  let source_notation := empty_str in
  '(source_notation, letter_offset) ←
    for_ (range qkv_rank)
      (source_notation_step qkv_rank batch_dims _CHR_IDX target_notation)
      (source_notation, letter_offset);
  batch_letters ← mapM (M := result) (str_getitem target_notation) batch_dims;
  target_letters ← mapM (M := result) (str_getitem target_notation) attn_axes;
  source_letters ← mapM (M := result) (str_getitem source_notation) attn_axes;
  let product_notation :=
    join empty_str (batch_letters ++ target_letters ++ source_letters) in
  let dot_product_equation :=
    format_equation source_notation target_notation product_notation in
  let attn_scores_rank := Z.of_nat (length product_notation) in
  let combine_equation :=
    format_equation product_notation source_notation target_notation in
  Ok (dot_product_equation, combine_equation, attn_scores_rank).

(** The number of attention axes below axis [i]. *)
Definition axes_below (attn_axes : list Z) (i : Z) : Z :=
  Z.of_nat (length (filter (.∈ attn_axes) (range i))).

(** The index in the alphabet of the letter that [source_notation] has at
    axis [i]: [i] itself, and for an attention axis the next unused index
    from [qkv_rank] on. *)
Definition source_index (qkv_rank : Z) (attn_axes : list Z) (i : Z) : Z :=
  if bool_decide (i ∈ attn_axes) then qkv_rank + axes_below attn_axes i
  else i.

(** The letter of the alphabet at an index. *)
Definition letter (i : Z) : N := ascii_lowercase !!! Z.to_nat i.

(** The attributes that [MaskedSoftmax.__init__] stores. *)
Record masked_softmax : Type := MaskedSoftmax_init {
  _mask_expansion_axes : list Z;
  _normalization_axes : list Z;
}.

(** [_get_output_shape]: a dimension is an [int] or [None]. *)
Definition _get_output_shape (output_rank : Z)
    (known_last_dims : list (option Z)) : list (option Z) :=
  replicate (Z.to_nat (output_rank - Z.of_nat (length known_last_dims))) None
  ++ known_last_dims.

(** The arguments that [build] passes to an [EinsumDense]. *)
Record einsum_dense : Type := EinsumDense {
  equation : list N;
  output_shape : list (option Z);
  bias_axes : option (list N);
}.

Module MultiHeadAttention.

(** The attributes that [_build_attention] sets. *)
Record attention : Type := Attention {
  _attention_axes : list Z;
  _dot_product_equation : list N;
  _combine_equation : list N;
  _masked_softmax : masked_softmax;
}.

(** [_build_attention]: [attention_axes] is the attribute
    [self._attention_axes] before the call, [None] by default. *)
Definition _build_attention (attention_axes : option (list Z))
    (qkv_rank : Z) : result attention :=
  let _attention_axes :=
    match attention_axes with
    | None => range_from 1 (qkv_rank - 2)
    | Some axes => axes
    end in
  '(_dot_product_equation, _combine_equation, attn_scores_rank) ←
    _build_attention_equation qkv_rank _attention_axes;
  let norm_axes :=
    range_from (attn_scores_rank - Z.of_nat (length _attention_axes))
      attn_scores_rank in
  Ok (Attention _attention_axes _dot_product_equation _combine_equation
        (MaskedSoftmax_init [1] norm_axes)).

(** The argument [output_shape] of [__init__]: [None], an [int] or a
    sequence. *)
Inductive output_shape_arg : Type :=
  | NoShape
  | IntShape (n : Z)
  | SizedShape (dims : list Z).

(** The attributes that [build] reads. *)
Record t : Type := Build {
  _num_heads : Z;
  _key_size : Z;
  _value_size : Z;
  _use_bias : bool;
  _output_shape : output_shape_arg;
  attention_axes : option (list Z);
}.

(** The attributes that [build] sets. *)
Record built : Type := Built {
  _query_dense : einsum_dense;
  _key_dense : einsum_dense;
  _value_dense : einsum_dense;
  _attention : attention;
  _output_dense : einsum_dense;
}.

(** [build]: a shape of [input_shape] is the list of its dimensions. *)
Definition build (self : t) (input_shape : list (list (option Z)))
    : checked built :=
  let inputs_len := Z.of_nat (length input_shape) in
  if bool_decide (inputs_len > 3 ∨ inputs_len < 2) then ValueError
  else Done (
    let tensor_shapes := input_shape in
    query_shape ← getitem tensor_shapes 0;
    value_shape ← getitem tensor_shapes 1;
    key_shape ←
      (if bool_decide (inputs_len = 3) then getitem tensor_shapes 2
       else Ok value_shape);
    let rank (shape : list (option Z)) := Z.of_nat (length shape) in
    let free_dims := rank query_shape - 1 in
    '(einsum_equation, bias_axes, output_rank) ←
      _build_proj_equation free_dims 1 2;
    let _query_dense :=
      EinsumDense einsum_equation
        (_get_output_shape (output_rank - 1)
           [Some (_num_heads self); Some (_key_size self)])
        (if _use_bias self then Some bias_axes else None) in
    '(einsum_equation, bias_axes, output_rank) ←
      _build_proj_equation (rank key_shape - 1) 1 2;
    let _key_dense :=
      EinsumDense einsum_equation
        (_get_output_shape (output_rank - 1)
           [Some (_num_heads self); Some (_key_size self)])
        (if _use_bias self then Some bias_axes else None) in
    '(einsum_equation, bias_axes, output_rank) ←
      _build_proj_equation (rank value_shape - 1) 1 2;
    let _value_dense :=
      EinsumDense einsum_equation
        (_get_output_shape (output_rank - 1)
           [Some (_num_heads self); Some (_value_size self)])
        (if _use_bias self then Some bias_axes else None) in
    _attention ← _build_attention (attention_axes self) output_rank;
    output_shape ←
      match _output_shape self with
      | SizedShape (d :: dims) => Ok (Some <$> d :: dims)
      | IntShape n =>
          if bool_decide (n = 0) then
            d ← getitem query_shape (-1); Ok [d]
          else Ok [Some n]
      | _ => d ← getitem query_shape (-1); Ok [d]
      end;
    '(einsum_equation, bias_axes, output_rank) ←
      _build_proj_equation free_dims 2 (Z.of_nat (length output_shape));
    let _output_dense :=
      EinsumDense einsum_equation
        (_get_output_shape (output_rank - 1) output_shape)
        (if _use_bias self then Some bias_axes else None) in
    Ok (Built _query_dense _key_dense _value_dense _attention
          _output_dense)).

End MultiHeadAttention.

(** ** MultiCategoryEncoding *)

Definition INT : list N := py "int".
Definition NONE : list N := py "none".
Definition ONE_HOT : list N := py "one-hot".

Module MultiCategoryEncoding.

(** A [preprocessing.StringLookup()] layer. *)
Inductive StringLookup : Type := StringLookup_init.

Record t : Type := Build {
  encoding : list (list N);
  encoding_layers : list (option StringLookup);
}.

Definition init (encoding : list (list N)) : t :=
  let encoding_layers :=
    foldl (λ encoding_layers encoding,
      if bool_decide (encoding = NONE) then encoding_layers ++ [None]
      else if bool_decide (encoding = INT) then
        encoding_layers ++ [Some StringLookup_init]
      else if bool_decide (encoding = ONE_HOT) then encoding_layers ++ [None]
      else encoding_layers) [] encoding in
  Build encoding encoding_layers.

(** The loop of [call] over [zip(split_inputs, self.encoding_layers)]:
    [numeric] casts to float and replaces NaN with 0, [lookup] casts to
    string, applies the layer and casts to float. *)
Definition output_nodes {A B} (numeric : A → B)
    (lookup : StringLookup → A → B) (self : t) (split_inputs : list A)
    : list B :=
  foldl (λ output_nodes '(input_node, encoding_layer),
    match encoding_layer with
    | None => output_nodes ++ [numeric input_node]
    | Some encoding_layer =>
        output_nodes ++ [lookup encoding_layer input_node]
    end) [] (zip split_inputs (encoding_layers self)).

End MultiCategoryEncoding.

(** The encoding names that [MultiCategoryEncoding] knows. *)
Definition known_encoding (e : list N) : Prop :=
  e = NONE ∨ e = INT ∨ e = ONE_HOT.

#[global] Instance known_encoding_dec (e : list N) :
  Decision (known_encoding e).
Proof. unfold known_encoding. apply _. Defined.

(** ** DenseEinsum.build *)

(** [l[n:]] for an [int] bound. *)
Definition slice_from {A} (l : list A) (n : Z) : list A :=
  if bool_decide (n < 0) then drop (Z.to_nat (Z.of_nat (length l) + n)) l
  else drop (Z.to_nat n) l.

(** [DenseEinsum.build] up to the attributes [_einsum_string] and
    [_kernel_shape], which it returns here; a dimension is a [D]. *)
Definition DenseEinsum_build {D} (_output_shape : list D)
    (_num_summed_dimensions : Z) (input_shape : list D)
    : result (list N * list D) :=
  let input_rank := Z.of_nat (length input_shape) in
  let free_input_dims := input_rank - _num_summed_dimensions in
  let output_dims := Z.of_nat (length _output_shape) in
  _einsum_string ←
    DenseEinsum._build_einsum_string free_input_dims _num_summed_dimensions
      output_dims;
  let _kernel_shape :=
    slice_from input_shape free_input_dims ++ _output_shape in
  Ok (_einsum_string, _kernel_shape).

(** * Properties *)

(** ** Equation builders *)

Section loops.
Context {St : Type}.
Implicit Types (body : Z → St → result St) (upd : St → list N → St).

Lemma getitem_nonneg {A} (l : list A) (i : Z) x :
  0 ≤ i → l !! Z.to_nat i = Some x → getitem l i = Ok x.
Proof.
  intros Hi Hx. unfold getitem. cbv zeta.
  pose proof (lookup_lt_Some _ _ _ Hx) as Hlt.
  rewrite (bool_decide_eq_false_2 (i < 0)) by lia.
  rewrite bool_decide_eq_true_2 by lia. by rewrite Hx.
Qed.

Lemma getitem_out_of_range {A} (l : list A) (i : Z) :
  ¬ (- Z.of_nat (length l) ≤ i < Z.of_nat (length l)) →
  getitem l i = Raise IndexError.
Proof.
  intros Hi. unfold getitem. cbv zeta.
  case_bool_decide; case_bool_decide; try done; lia.
Qed.

Lemma getitem_cases {A} (l : list A) (i : Z) :
  getitem l i = Raise IndexError ∨ ∃ x, getitem l i = Ok x.
Proof.
  unfold getitem. cbv zeta. case_bool_decide; [|by left].
  destruct (l !! _); eauto.
Qed.

Lemma str_getitem_letters alpha i :
  str_getitem alpha i = getitem (letters alpha) i.
Proof.
  unfold str_getitem, getitem, letters. cbv zeta.
  rewrite length_fmap, list_lookup_fmap.
  case_bool_decide; [|done]. by destruct (alpha !! _).
Qed.

Lemma for_seq_ok (ls : list (list N)) upd body (o : Z) (k n : nat) s :
  (∀ i s, body i s = char ← getitem ls (i + o); Ok (upd s char)) →
  0 ≤ o → (Z.to_nat o + k + n ≤ length ls)%nat →
  for_ (Z.of_nat <$> seq k n) body s
  = Ok (foldl upd s (take n (drop (Z.to_nat o + k) ls))).
Proof.
  intros Hbody Ho. revert k s. induction n as [|n IH]; intros k s Hlen; [done|].
  cbn [seq fmap list_fmap for_]. rewrite Hbody.
  destruct (lookup_lt_is_Some_2 ls (Z.to_nat o + k)) as [x Hx]; [lia|].
  rewrite (getitem_nonneg _ _ x);
    [|lia|by replace (Z.to_nat (Z.of_nat k + o))
            with (Z.to_nat o + k)%nat by lia].
  cbn. rewrite IH by lia.
  rewrite (drop_S _ _ _ Hx). cbn.
  by replace (Z.to_nat o + Datatypes.S k)%nat
    with (Datatypes.S (Z.to_nat o + k)) by lia.
Qed.

Lemma for_range_ok ls upd body (o n : Z) s :
  (∀ i s, body i s = char ← getitem ls (i + o); Ok (upd s char)) →
  0 ≤ o → 0 ≤ n → o + n ≤ Z.of_nat (length ls) →
  for_ (range n) body s
  = Ok (foldl upd s (take (Z.to_nat n) (drop (Z.to_nat o) ls))).
Proof.
  intros Hbody Ho Hn Hlen. unfold range.
  rewrite (for_seq_ok ls upd body o) by (done || lia).
  by rewrite Nat.add_0_r.
Qed.

Lemma for_raise (l : list Z) body s :
  (∀ i s, body i s = Raise IndexError ∨ ∃ s', body i s = Ok s') →
  (∃ i, i ∈ l ∧ ∀ s, body i s = Raise IndexError) →
  for_ l body s = Raise IndexError.
Proof.
  intros Hcases [i [Hi Hraise]]. revert s.
  induction l as [|j l IH]; intros s; [by apply elem_of_nil in Hi|].
  cbn. destruct (Hcases j s) as [->|[s' Hs']]; [done|].
  apply elem_of_cons in Hi as [->|Hi]; [by rewrite Hraise in Hs'|].
  rewrite Hs'. cbn. by apply IH.
Qed.

Lemma elem_of_range (i n : Z) : i ∈ range n ↔ 0 ≤ i < n.
Proof.
  unfold range. rewrite list_elem_of_fmap. setoid_rewrite elem_of_seq.
  split; [intros (k & -> & Hk); lia|].
  intros Hi. exists (Z.to_nat i). lia.
Qed.

Lemma for_range_raise ls upd body (o n : Z) s :
  (∀ i s, body i s = char ← getitem ls (i + o); Ok (upd s char)) →
  (∃ i, 0 ≤ i < n ∧ ¬ (- Z.of_nat (length ls) ≤ i + o < Z.of_nat (length ls))) →
  for_ (range n) body s = Raise IndexError.
Proof.
  intros Hbody (i & Hi & Hout). apply for_raise.
  - intros j s'. rewrite Hbody.
    destruct (getitem_cases ls (j + o)) as [->|[x ->]]; cbn; eauto.
  - exists i. split; [by apply elem_of_range|].
    intros s'. by rewrite Hbody, getitem_out_of_range.
Qed.
End loops.

Lemma foldl_app2 (cs : list N) a b :
  foldl app2 (a, b) (letters cs) = (a ++ cs, b ++ cs).
Proof.
  revert a b. induction cs as [|c cs IH]; intros a b; cbn.
  - by rewrite !app_nil_r.
  - rewrite IH. by rewrite <-!app_assoc.
Qed.

Lemma foldl_app3 (cs : list N) a b d :
  foldl app3 (a, b, d) (letters cs) = (a ++ cs, b ++ cs, d ++ cs).
Proof.
  revert a b d. induction cs as [|c cs IH]; intros a b d; cbn.
  - by rewrite !app_nil_r.
  - rewrite IH. by rewrite <-!app_assoc.
Qed.

Lemma letters_take_drop n k alpha :
  take n (drop k (letters alpha)) = letters (take n (drop k alpha)).
Proof. unfold letters. by rewrite fmap_take, fmap_drop. Qed.

Lemma for_cases {St} (l : list Z) (body : Z → St → result St) s :
  (∀ i s, body i s = Raise IndexError ∨ ∃ s', body i s = Ok s') →
  for_ l body s = Raise IndexError ∨ ∃ s', for_ l body s = Ok s'.
Proof.
  intros Hcases. revert s. induction l as [|j l IH]; intros s; cbn; [eauto|].
  destruct (Hcases j s) as [->|[s' ->]]; cbn; eauto.
Qed.

Lemma for_range_cases {St} (ls : list (list N)) (upd : St → list N → St)
    (body : Z → St → result St) (o n : Z) s :
  (∀ i s, body i s = char ← getitem ls (i + o); Ok (upd s char)) →
  for_ (range n) body s = Raise IndexError
  ∨ ∃ s', for_ (range n) body s = Ok s'.
Proof.
  intros Hbody. apply for_cases. intros j s'. rewrite Hbody.
  destruct (getitem_cases ls (j + o)) as [->|[x ->]]; cbn; eauto.
Qed.

Lemma length_letters_lowercase :
  Z.of_nat (length (letters ascii_lowercase)) = 26.
Proof. reflexivity. Qed.

Lemma _build_proj_equation_ok (f b o : Z) :
  0 ≤ f → 0 ≤ b → 0 ≤ o → f + b + o ≤ 26 →
  _build_proj_equation f b o
  = Ok (format_equation
          (block ascii_lowercase 0 f ++ block ascii_lowercase f b)
          (block ascii_lowercase f b ++ block ascii_lowercase (f + b) o)
          (block ascii_lowercase 0 f ++ block ascii_lowercase (f + b) o),
        block ascii_lowercase (f + b) o, f + o).
Proof.
  intros Hf Hb Ho Hsum. unfold _build_proj_equation, empty_str.
  rewrite (for_range_ok (letters ascii_lowercase) app2 _ 0);
    [|by intros i [??]; rewrite str_getitem_letters|done|done|
      rewrite length_letters_lowercase; lia].
  rewrite letters_take_drop, foldl_app2. cbn [mbind result_bind].
  rewrite (for_range_ok (letters ascii_lowercase) app2 _ (0 + f));
    [|by intros i [??]; rewrite str_getitem_letters|lia|done|
      rewrite length_letters_lowercase; lia].
  rewrite letters_take_drop, foldl_app2. cbn [mbind result_bind].
  rewrite (for_range_ok (letters ascii_lowercase) app3 _ (0 + f + b));
    [|by intros i [[??]?]; rewrite str_getitem_letters|lia|done|
      rewrite length_letters_lowercase; lia].
  rewrite letters_take_drop, foldl_app3. cbn [mbind result_bind].
  rewrite !Z.add_0_l.
  fold (block ascii_lowercase 0 f) (block ascii_lowercase f b)
    (block ascii_lowercase (f + b) o). cbn [app].
  do 2 f_equal.
  rewrite length_app. unfold block.
  rewrite !length_take, !length_drop.
  change (length ascii_lowercase) with 26%nat. lia.
Qed.

Ltac loop_cases ls upd o Hb :=
  match goal with
  | |- context [for_ (range ?n) ?body ?s] =>
      let E := fresh "E" in
      destruct (for_range_cases ls upd body o n s Hb) as [E|[? E]];
      rewrite E; cbn [mbind result_bind]; [done|]
  end.
Ltac loop_raise ls upd o Hb :=
  match goal with
  | |- context [for_ (range ?n) ?body ?s] =>
      rewrite (for_range_raise ls upd body o n s Hb); [done|]
  end.

Lemma _build_proj_equation_raise (f b o : Z) :
  26 < f + b + o → _build_proj_equation f b o = Raise IndexError.
Proof.
  intros Hsum. unfold _build_proj_equation.
  assert (Hlen := length_letters_lowercase).
  assert (H2 : ∀ k (i : Z) (s : list N * list N),
    (let '(x, y) := s in
     char ← str_getitem ascii_lowercase (i + k); Ok (x ++ char, y ++ char))
    = char ← getitem (letters ascii_lowercase) (i + k); Ok (app2 s char)).
  { by intros k i [??]; rewrite str_getitem_letters. }
  assert (H3 : ∀ k (i : Z) (s : list N * list N * list N),
    (let '(x, y, z) := s in char ← str_getitem ascii_lowercase (i + k);
       Ok (x ++ char, y ++ char, z ++ char))
    = char ← getitem (letters ascii_lowercase) (i + k); Ok (app3 s char)).
  { by intros k i [[??]?]; rewrite str_getitem_letters. }
  destruct (decide (26 < f)) as [Hf|Hf].
  { loop_raise (letters ascii_lowercase) app2 0 (H2 0). exists 26. lia. }
  loop_cases (letters ascii_lowercase) app2 0 (H2 0).
  destruct x as [input_str output_str].
  destruct (decide (0 < b ∧ 26 < f + b)) as [Hb|Hb].
  { loop_raise (letters ascii_lowercase) app2 (0 + f) (H2 (0 + f)).
    exists (b - 1). lia. }
  loop_cases (letters ascii_lowercase) app2 (0 + f) (H2 (0 + f)).
  destruct x as [input_str' kernel_str].
  loop_raise (letters ascii_lowercase) app3 (0 + f + b) (H3 (0 + f + b)).
  exists (o - 1). lia.
Qed.

Lemma length_letters_m : Z.of_nat (length (letters alphabet_m)) = 13.
Proof. reflexivity. Qed.

Lemma _build_einsum_string_ok (f b o : Z) :
  0 ≤ f → 0 ≤ b → 0 ≤ o → f + b + o ≤ 13 →
  DenseEinsum._build_einsum_string f b o
  = Ok (format_equation
          (block alphabet_m 0 f ++ block alphabet_m f b)
          (block alphabet_m f b ++ block alphabet_m (f + b) o)
          (block alphabet_m 0 f ++ block alphabet_m (f + b) o)).
Proof.
  intros Hf Hb Ho Hsum. unfold DenseEinsum._build_einsum_string, empty_str.
  change DenseEinsum._CHR_IDX with (letters alphabet_m).
  rewrite (for_range_ok (letters alphabet_m) app2 _ 0);
    [|by intros i [??]|done|done|rewrite length_letters_m; lia].
  rewrite letters_take_drop, foldl_app2. cbn [mbind result_bind].
  rewrite (for_range_ok (letters alphabet_m) app2 _ (0 + f));
    [|by intros i [??]|lia|done|rewrite length_letters_m; lia].
  rewrite letters_take_drop, foldl_app2. cbn [mbind result_bind].
  rewrite (for_range_ok (letters alphabet_m) app2 _ (0 + f + b));
    [|by intros i [??]|lia|done|rewrite length_letters_m; lia].
  rewrite letters_take_drop, foldl_app2. cbn [mbind result_bind].
  by rewrite !Z.add_0_l.
Qed.

Lemma _build_einsum_string_raise (f b o : Z) :
  13 < f + b + o → DenseEinsum._build_einsum_string f b o = Raise IndexError.
Proof.
  intros Hsum. unfold DenseEinsum._build_einsum_string.
  change DenseEinsum._CHR_IDX with (letters alphabet_m).
  assert (Hlen := length_letters_m).
  assert (H2 : ∀ k (i : Z) (s : list N * list N),
    (let '(x, y) := s in
     char ← getitem (letters alphabet_m) (i + k); Ok (x ++ char, y ++ char))
    = char ← getitem (letters alphabet_m) (i + k); Ok (app2 s char)).
  { by intros k i [??]. }
  destruct (decide (13 < f)) as [Hf|Hf].
  { loop_raise (letters alphabet_m) app2 0 (H2 0). exists 13. lia. }
  loop_cases (letters alphabet_m) app2 0 (H2 0).
  destruct x as [input_str output_str].
  destruct (decide (0 < b ∧ 13 < f + b)) as [Hb|Hb].
  { loop_raise (letters alphabet_m) app2 (0 + f) (H2 (0 + f)).
    exists (b - 1). lia. }
  loop_cases (letters alphabet_m) app2 (0 + f) (H2 (0 + f)).
  destruct x as [input_str' kernel_str].
  loop_raise (letters alphabet_m) app2 (0 + f + b) (H2 (0 + f + b)).
  exists (o - 1). lia.
Qed.

Lemma StronglySorted_lt_NoDup (l : list N) : StronglySorted N.lt l → NoDup l.
Proof.
  induction 1 as [|x l Hl IH Hx]; constructor; [|done].
  intros Hin. rewrite Forall_forall in Hx. specialize (Hx _ Hin). lia.
Qed.

Lemma StronglySorted_take {A} (R : relation A) n (l : list A) :
  StronglySorted R l → StronglySorted R (take n l).
Proof.
  intros H. revert n.
  induction H as [|x l Hl IH Hx]; intros [|n]; cbn; try constructor.
  - apply IH.
  - by apply Forall_take.
Qed.

Lemma blocks_equation_spec (alpha : list N) (f b o : Z) :
  StronglySorted N.lt alpha →
  0 ≤ f → 0 ≤ b → 0 ≤ o → f + b + o ≤ Z.of_nat (length alpha) →
  equation_spec alpha f b o
    (format_equation (block alpha 0 f ++ block alpha f b)
                     (block alpha f b ++ block alpha (f + b) o)
                     (block alpha 0 f ++ block alpha (f + b) o)).
Proof.
  intros Hsorted Hf Hb Ho Hsum.
  exists (block alpha 0 f), (block alpha f b), (block alpha (f + b) o).
  assert (Hcat : block alpha 0 f ++ block alpha f b ++ block alpha (f + b) o
                 = take (Z.to_nat (f + b + o)) alpha).
  { unfold block. cbn [Z.to_nat drop].
    replace (Z.to_nat (f + b + o))
      with (Z.to_nat f + (Z.to_nat b + Z.to_nat o))%nat by lia.
    replace (Z.to_nat (f + b)) with (Z.to_nat f + Z.to_nat b)%nat by lia.
    rewrite <-(take_take_drop alpha (Z.to_nat f)). f_equal.
    rewrite <-(take_take_drop (drop (Z.to_nat f) alpha) (Z.to_nat b)).
    by rewrite drop_drop. }
  assert (Hs : StronglySorted N.lt
                 (block alpha 0 f ++ block alpha f b ++ block alpha (f + b) o)).
  { rewrite Hcat. by apply StronglySorted_take. }
  assert (Hlf : length (block alpha 0 f) = Z.to_nat f).
  { unfold block. rewrite length_take, length_drop. lia. }
  assert (Hlb : length (block alpha f b) = Z.to_nat b).
  { unfold block. rewrite length_take, length_drop. lia. }
  assert (Hlo : length (block alpha (f + b) o) = Z.to_nat o).
  { unfold block. rewrite length_take, length_drop. lia. }
  cbv zeta. split_and!; try done; try lia.
  - rewrite length_app. lia.
  - apply StronglySorted_lt_NoDup in Hs.
    apply NoDup_app in Hs as (_ & HFB & Hs).
    apply NoDup_app in Hs as (_ & HBO & _).
    intros c. rewrite !elem_of_app. intros [Hc|Hc].
    + left. split; [by right|]. intros [Hc'|Hc'].
      * apply (HFB c Hc'). rewrite elem_of_app. by left.
      * by apply (HBO c Hc).
    + right. split; [|by right]. intros [Hc'|Hc'].
      * apply (HFB c Hc'). rewrite elem_of_app. by right.
      * by apply (HBO c Hc').
Qed.

Lemma sorted_ascii_lowercase : StronglySorted N.lt ascii_lowercase.
Proof. repeat constructor. Qed.

Lemma sorted_alphabet_m : StronglySorted N.lt alphabet_m.
Proof. repeat constructor. Qed.

(** C3.  Whenever a builder returns for non-negative [f], [b], [o], the
    equation is [input,kernel->output] with [input = F ++ B],
    [kernel = B ++ O], [output = F ++ O], where [F], [B], [O] are the first
    [f], next [b] and next [o] symbols of the alphabet, in strictly
    increasing order; the output subscripts have length [f + o] (which is
    also the rank [_build_proj_equation] returns) and every kernel symbol
    is in exactly one of input and output.  A builder returns exactly when
    the alphabet has enough symbols. *)
Theorem build_equation_subscripts (f b o : Z) :
  0 ≤ f → 0 ≤ b → 0 ≤ o →
  (∀ equation bias_axes rank,
     _build_proj_equation f b o = Ok (equation, bias_axes, rank) →
     equation_spec ascii_lowercase f b o equation ∧ rank = f + o) ∧
  (∀ equation,
     DenseEinsum._build_einsum_string f b o = Ok equation →
     equation_spec alphabet_m f b o equation) ∧
  (f + b + o ≤ 26 → is_Ok (_build_proj_equation f b o)) ∧
  (f + b + o ≤ 13 → is_Ok (DenseEinsum._build_einsum_string f b o)).
Proof.
  intros Hf Hb Ho. split_and!.
  - intros equation bias_axes rank Hok.
    destruct (decide (f + b + o ≤ 26)) as [Hsum|Hsum].
    + rewrite _build_proj_equation_ok in Hok by done.
      injection Hok as <- <- <-. split; [|done].
      apply blocks_equation_spec; auto using sorted_ascii_lowercase.
    + rewrite _build_proj_equation_raise in Hok by lia. discriminate.
  - intros equation Hok.
    destruct (decide (f + b + o ≤ 13)) as [Hsum|Hsum].
    + rewrite _build_einsum_string_ok in Hok by done.
      injection Hok as <-.
      apply blocks_equation_spec; auto using sorted_alphabet_m.
    + rewrite _build_einsum_string_raise in Hok by lia. discriminate.
  - intros Hsum. eexists. by apply _build_proj_equation_ok.
  - intros Hsum. eexists. by apply _build_einsum_string_ok.
Qed.

Lemma build_equation_subscripts_witness :
  equation_spec ascii_lowercase 3 1 2 (py "abcd,def->abcef") ∧
  equation_spec alphabet_m 2 1 1 (py "abc,cd->abd").
Proof.
  destruct (build_equation_subscripts 3 1 2) as (Hproj & _); [lia..|].
  destruct (build_equation_subscripts 2 1 1) as (_ & Heinsum & _); [lia..|].
  split.
  - apply (Hproj _ (py "ef") 5). reflexivity.
  - apply Heinsum. reflexivity.
Defined.

(** C4 as stated fails: with 27 free axes the projection builder raises
    [IndexError], which is not an exception of class ConfigurationError. *)
Lemma build_equation_overflow_not_ConfigurationError :
  _build_proj_equation 27 0 0 = Raise IndexError ∧
  DenseEinsum._build_einsum_string 14 0 0 = Raise IndexError ∧
  ¬ raises_class (_build_proj_equation 27 0 0) "ConfigurationError" ∧
  ¬ raises_class (DenseEinsum._build_einsum_string 14 0 0) "ConfigurationError".
Proof.
  split_and!; try reflexivity.
  - intros (e & He & Hname). vm_compute in He. by injection He as <-.
  - intros (e & He & Hname). vm_compute in He. by injection He as <-.
Qed.

(** C4, amended.  Whenever [f + b + o] exceeds the alphabet (26 symbols
    for [_build_proj_equation], 13 for [DenseEinsum._build_einsum_string])
    the builder raises [IndexError] and returns no equation. *)
Theorem build_equation_overflow_IndexError (f b o : Z) :
  (26 < f + b + o → _build_proj_equation f b o = Raise IndexError) ∧
  (13 < f + b + o →
     DenseEinsum._build_einsum_string f b o = Raise IndexError).
Proof.
  split; [apply _build_proj_equation_raise|apply _build_einsum_string_raise].
Qed.

Lemma build_equation_overflow_IndexError_witness :
  _build_proj_equation 20 5 2 = Raise IndexError ∧
  DenseEinsum._build_einsum_string 10 2 2 = Raise IndexError.
Proof.
  split.
  - apply (build_equation_overflow_IndexError 20 5 2). lia.
  - apply (build_equation_overflow_IndexError 10 2 2). lia.
Defined.

(** ** Tensor operations *)

Lemma numel_app (s1 s2 : list nat) :
  numel (s1 ++ s2) = (numel s1 * numel s2)%nat.
Proof.
  induction s1 as [|d s1 IH]; [cbn [app]; unfold numel at 2; cbn [foldr]; lia|].
  change (numel ((d :: s1) ++ s2)) with (d * numel (s1 ++ s2))%nat.
  change (numel (d :: s1)) with (d * numel s1)%nat. rewrite IH. lia.
Qed.

Lemma filter_known_of_nat (s : list nat) :
  filter (λ d : Z, d ≠ -1) (Z.of_nat <$> s) = Z.of_nat <$> s.
Proof.
  induction s as [|d s IH]; [done|].
  rewrite fmap_cons, filter_cons_True by lia. by rewrite IH.
Qed.

Lemma prod_of_nat (s : list nat) :
  foldr Z.mul 1 (Z.of_nat <$> s) = Z.of_nat (numel s).
Proof.
  induction s as [|d s IH]; [done|].
  change (numel (d :: s)) with (d * numel s)%nat. cbn [fmap list_fmap foldr].
  change (foldr Z.mul 1 (list_fmap _ _ Z.of_nat s))
    with (foldr Z.mul 1 (Z.of_nat <$> s)).
  rewrite IH. lia.
Qed.

Lemma to_nat_of_nat (s : list nat) : Z.to_nat <$> (Z.of_nat <$> s) = s.
Proof.
  induction s as [|d s IH]; [done|]. cbn. by rewrite IH, Nat2Z.id.
Qed.


Lemma reshape_known {A} (t : tensor A) (s : list nat) :
  length (data t) = numel s →
  tf.reshape t (Z.of_nat <$> s) = Ok (Tensor s (data t)).
Proof.
  intros Hlen. unfold tf.reshape. cbv zeta.
  rewrite filter_known_of_nat, prod_of_nat, Nat2Z.id, Nat.sub_diag.
  rewrite bool_decide_eq_true_2.
  2: { apply Forall_fmap, Forall_forall. intros d _. cbn. lia. }
  rewrite (bool_decide_eq_true_2 (0 = 0)%nat) by done.
  rewrite bool_decide_eq_true_2 by done.
  by rewrite to_nat_of_nat.
Qed.



Section float_laws.
Context {R : Type} `{FloatLaws R}.












End float_laws.

#[global] Instance Z_float_laws : FloatLaws Z.
Proof.
  split; unfold is_finite, is_zero; cbn; intros; lia.
Qed.

#[global] Instance float32_laws : FloatLaws float32.
Proof.
  split; unfold is_finite, is_zero.
  - reflexivity.
  - reflexivity.
  - reflexivity.
  - split; reflexivity.
  - intros x z [_ Hx] Hz.
    destruct z as [sz| | |]; try discriminate Hz.
    destruct x as [sx|sx| |sx mx ex]; try discriminate Hx.
    + by destruct sx, sz.
    + reflexivity.
  - reflexivity.
  - intros x. by destruct x as [[]|[]| |].
Qed.









(** ** Broadcasting and the additive mask *)

Lemma valid_index_length (s idx : list nat) :
  valid_index s idx → length idx = length s.
Proof. apply Forall2_length. Qed.

Lemma ravel_lt (s idx : list nat) :
  valid_index s idx → (ravel s idx < numel s)%nat.
Proof.
  induction 1 as [|i d idx s Hi _ IH]; [cbn; lia|].
  change (ravel (d :: s) (i :: idx)) with (i * numel s + ravel s idx)%nat.
  change (numel (d :: s)) with (d * numel s)%nat. nia.
Qed.

Lemma unravel_ravel (s idx : list nat) :
  valid_index s idx → unravel s (ravel s idx) = idx.
Proof.
  induction 1 as [|i d idx s Hi Hv IH]; [done|].
  apply ravel_lt in Hv.
  change (ravel (d :: s) (i :: idx)) with (i * numel s + ravel s idx)%nat.
  cbn [unravel]. f_equal.
  - symmetry. apply (Nat.div_unique _ _ _ (ravel s idx)); lia.
  - rewrite <-IH at 2. f_equal.
    symmetry. apply (Nat.mod_unique _ _ i); lia.
Qed.

Lemma broadcast_dim_cases (a b d : nat) :
  tf.broadcast_dim a b = Some d → (a = d ∨ a = 1%nat) ∧ (b = d ∨ b = 1%nat).
Proof.
  unfold tf.broadcast_dim. repeat case_bool_decide; intros [= <-]; lia.
Qed.

Lemma broadcast_shapes_rev_lookup (s1 s2 rs : list nat) :
  tf.broadcast_shapes_rev s1 s2 = Some rs →
  length rs = (length s1 `max` length s2)%nat ∧
  (∀ k d, s1 !! k = Some d → ∃ e, rs !! k = Some e ∧ (d = e ∨ d = 1%nat)) ∧
  (∀ k d, s2 !! k = Some d → ∃ e, rs !! k = Some e ∧ (d = e ∨ d = 1%nat)).
Proof.
  revert s2 rs. induction s1 as [|a s1 IH]; intros s2 rs.
  - cbn. intros [= <-]. split_and!; [done|done|eauto].
  - destruct s2 as [|b s2]; cbn.
    + intros [= <-]. split_and!; [cbn; lia|eauto|done].
    + destruct (tf.broadcast_dim a b) as [d|] eqn:Hd; [|done]. cbn.
      destruct (tf.broadcast_shapes_rev s1 s2) as [rs'|] eqn:Hrs; [|done]. cbn.
      intros [= <-]. apply broadcast_dim_cases in Hd as [Ha Hb].
      destruct (IH _ _ Hrs) as (Hlen & H1 & H2). split_and!.
      * cbn. lia.
      * intros [|k] e; cbn; [intros [= <-]; eauto|apply H1].
      * intros [|k] e; cbn; [intros [= <-]; eauto|apply H2].
Qed.

Lemma broadcast_shapes_lookup (s1 s2 rs : list nat) :
  tf.broadcast_shapes s1 s2 = Some rs →
  length rs = (length s1 `max` length s2)%nat ∧
  (∀ j d, s1 !! j = Some d →
     ∃ e, rs !! (length rs - length s1 + j)%nat = Some e
          ∧ (d = e ∨ d = 1%nat)) ∧
  (∀ j d, s2 !! j = Some d →
     ∃ e, rs !! (length rs - length s2 + j)%nat = Some e
          ∧ (d = e ∨ d = 1%nat)).
Proof.
  unfold tf.broadcast_shapes.
  destruct (tf.broadcast_shapes_rev _ _) as [rr|] eqn:Hrr; [|done].
  cbn. intros [= <-].
  apply broadcast_shapes_rev_lookup in Hrr as (Hlen & H1 & H2).
  rewrite !length_reverse in Hlen. rewrite length_reverse.
  assert (Hgen : ∀ s : list nat, (length s ≤ length rr)%nat →
    (∀ k d, reverse s !! k = Some d →
       ∃ e, rr !! k = Some e ∧ (d = e ∨ d = 1%nat)) →
    ∀ j d, s !! j = Some d →
      ∃ e, reverse rr !! (length rr - length s + j)%nat = Some e
           ∧ (d = e ∨ d = 1%nat)).
  { intros s Hle Hs j d Hj. apply lookup_lt_Some in Hj as Hlt.
    destruct (Hs (length s - S j)%nat d) as (e & He & Hde).
    { rewrite reverse_lookup by lia. rewrite <-Hj. f_equal. lia. }
    exists e. split; [|done]. rewrite reverse_lookup by lia.
    rewrite <-He. f_equal. lia. }
  split_and!; [done|apply Hgen; [lia|done]..].
Qed.

Lemma broadcast_index_valid (s rs idx : list nat) :
  (length s ≤ length rs)%nat →
  (∀ j d, s !! j = Some d →
     ∃ e, rs !! (length rs - length s + j)%nat = Some e ∧ (d = e ∨ d = 1%nat)) →
  valid_index rs idx →
  valid_index s (tf.broadcast_index s idx).
Proof.
  intros Hle Hs Hv. pose proof (valid_index_length _ _ Hv) as Hlen.
  unfold valid_index, tf.broadcast_index.
  apply Forall2_same_length_lookup_2.
  { rewrite length_zip_with, length_drop. lia. }
  intros j i d Hi Hd.
  apply lookup_zip_with_Some in Hi as (d' & i' & -> & Hd' & Hi').
  rewrite Hd in Hd'. injection Hd' as <-.
  case_bool_decide; [lia|].
  rewrite lookup_drop, Hlen in Hi'.
  destruct (Hs j d Hd) as (e & He & [-> | ->]); [|done].
  unfold valid_index in Hv.
  by eapply (Forall2_lookup_lr _ _ _ _ _ _ Hv).
Qed.

Lemma get_fmap {A B} (f : A → B) (d : A) (d' : B) (t : tensor A)
    (idx : list nat) :
  wf_tensor t → valid_index (shape t) idx →
  get d' (tf.map f t) idx = f (get d t idx).
Proof.
  intros Hwf Hv. unfold get, tf.map. cbn [shape data].
  rewrite list_lookup_fmap.
  destruct (lookup_lt_is_Some_2 (data t) (ravel (shape t) idx)) as [x ->];
    [|done].
  rewrite Hwf. by apply ravel_lt.
Qed.

Lemma broadcast_op_get {A B C} (f : A → B → C) (dx : A) (dy : B) (d : C)
    (x : tensor A) (y : tensor B) (rs : list nat) :
  tf.broadcast_shapes (shape x) (shape y) = Some rs →
  ∃ out, tf.broadcast_op f dx dy x y = Ok out ∧ shape out = rs ∧
         wf_tensor out ∧
         ∀ idx, valid_index rs idx →
           get d out idx
           = f (get dx x (tf.broadcast_index (shape x) idx))
               (get dy y (tf.broadcast_index (shape y) idx)).
Proof.
  intros Hrs. unfold tf.broadcast_op. rewrite Hrs. eexists. split; [done|].
  split_and!; [done|unfold wf_tensor; cbn; by rewrite length_fmap, length_seq|].
  intros idx Hv. unfold get at 1. cbn [shape data].
  rewrite list_lookup_fmap, lookup_seq_lt by (by apply ravel_lt).
  cbn. by rewrite unravel_ravel.
Qed.
Lemma wf_map {A B} (f : A → B) (t : tensor A) :
  wf_tensor t → wf_tensor (tf.map f t).
Proof. unfold wf_tensor, tf.map. cbn. by rewrite length_fmap. Qed.

Lemma shape_map {A B} (f : A → B) (t : tensor A) :
  shape (tf.map f t) = shape t.
Proof. done. Qed.

Lemma expand_dims_in_ones {A} (axis : Z) (s : list nat) (d : list A)
    (j : nat) :
  - Z.of_nat (length s) - 1 ≤ axis ≤ Z.of_nat (length s) →
  let p := Z.to_nat (if bool_decide (axis < 0)
                     then axis + Z.of_nat (length s) + 1 else axis) in
  tf.expand_dims (Tensor (take p s ++ replicate j 1%nat ++ drop p s) d) axis
  = Ok (Tensor (take p s ++ replicate (S j) 1%nat ++ drop p s) d).
Proof.
  intros Haxis p. unfold tf.expand_dims. cbn [shape data].
  assert (Hp : (p ≤ length s)%nat) by (unfold p; case_bool_decide; lia).
  assert (Hlen : length (take p s ++ replicate j 1%nat ++ drop p s)
                 = (length s + j)%nat).
  { rewrite !length_app, length_take, length_replicate, length_drop. lia. }
  rewrite Hlen. rewrite bool_decide_eq_true_2 by lia. do 2 f_equal.
  assert (Htake : length (take p s) = p) by (rewrite length_take; lia).
  assert (Hpneg : axis < 0 → p = Z.to_nat (axis + Z.of_nat (length s) + 1)).
  { intros Hneg. unfold p. by rewrite bool_decide_eq_true_2. }
  assert (Hppos : ¬ axis < 0 → p = Z.to_nat axis).
  { intros Hneg. unfold p. by rewrite bool_decide_eq_false_2. }
  clearbody p. case_bool_decide as Hneg.
  - replace (Z.to_nat (axis + Z.of_nat (length s + j) + 1))
      with (p + j)%nat by (rewrite (Hpneg Hneg); lia).
    rewrite (app_assoc (take p s)).
    rewrite take_app_length', drop_app_length'
      by (rewrite length_app, length_replicate; lia).
    rewrite <-!app_assoc. f_equal. rewrite app_assoc. f_equal.
    change [1%nat] with (replicate 1 1%nat). rewrite <-replicate_add.
    f_equal. lia.
  - replace (Z.to_nat axis) with p by (by rewrite (Hppos Hneg)).
    rewrite take_app_length', drop_app_length' by done. done.
Qed.

Lemma expand_mask_shape {A} (axis : Z) (scores_shape : list nat)
    (mask : tensor A) :
  (length scores_shape ≤ length (shape mask))%nat ∨
  - Z.of_nat (length (shape mask)) - 1 ≤ axis
    ≤ Z.of_nat (length (shape mask)) →
  MaskedSoftmax.expand_mask axis scores_shape mask
  = Ok (padded_mask axis scores_shape mask).
Proof.
  unfold padded_mask.
  destruct mask as [s d]. cbn [shape data]. intros Haxis. cbv zeta.
  set (p := Z.to_nat (if bool_decide (axis < 0)
                      then axis + Z.of_nat (length s) + 1 else axis)).
  unfold MaskedSoftmax.expand_mask, range. cbn [shape].
  replace (Z.to_nat (Z.of_nat (length scores_shape) - Z.of_nat (length s)))
    with (length scores_shape - length s)%nat by lia.
  set (n := (length scores_shape - length s)%nat).
  assert (Hn : n = 0%nat
               ∨ - Z.of_nat (length s) - 1 ≤ axis ≤ Z.of_nat (length s)).
  { destruct Haxis; [left; unfold n; lia|by right]. }
  clearbody n. clear Haxis.
  assert (Hgen : ∀ (l : list Z) (j : nat),
    l = [] ∨ - Z.of_nat (length s) - 1 ≤ axis ≤ Z.of_nat (length s) →
    for_ l (λ _ mask0, tf.expand_dims mask0 axis)
      (Tensor (take p s ++ replicate j 1%nat ++ drop p s) d)
    = Ok (Tensor (take p s ++ replicate (j + length l) 1%nat ++ drop p s) d)).
  { induction l as [|i l IH]; intros j Hl.
    - cbn. by rewrite Nat.add_0_r.
    - destruct Hl as [|Hl]; [done|]. cbn [for_].
      pose proof (expand_dims_in_ones axis s d j Hl) as Hstep.
      cbv zeta in Hstep. fold p in Hstep. rewrite Hstep.
      cbn [mbind result_bind].
      rewrite IH by (by right). cbn [length].
      by replace (S j + length l)%nat with (j + S (length l))%nat by lia. }
  specialize (Hgen (Z.of_nat <$> seq 0 n) 0%nat).
  cbn [replicate app] in Hgen. rewrite take_drop in Hgen.
  rewrite Hgen; [by rewrite length_fmap, length_seq|].
  destruct Hn as [->|Hn]; [by left|by right].
Qed.

Lemma numel_replicate_1 (k : nat) : numel (replicate k 1%nat) = 1%nat.
Proof.
  induction k as [|k IH]; [done|].
  change (numel (replicate (S k) 1%nat))
    with (1 * numel (replicate k 1%nat))%nat.
  lia.
Qed.

Lemma wf_padded_mask {A} (axis : Z) (scores_shape : list nat)
    (mask : tensor A) :
  wf_tensor mask → wf_tensor (padded_mask axis scores_shape mask).
Proof.
  unfold wf_tensor, padded_mask. cbn [shape data]. intros ->.
  rewrite !numel_app, numel_replicate_1, Nat.mul_1_l, <-numel_app.
  by rewrite take_drop.
Qed.

(** C5.  The loop of [call] pads the mask with singleton axes at the
    configured position up to the rank of the scores; the scores handed to
    the normalisation are then, at every position, the score plus [-10000]
    where the entry of the padded mask broadcast to that position is 0, and
    the score itself where it is 1.  The sum is the addition of the dtype
    of the scores: in [float32] it is rounded, and a score of [2^29] under
    a mask entry 0 becomes [536860928]. *)
Theorem masked_scores_additive_penalty {R : Type} `{FloatLaws R}
    (axis : Z) (scores : tensor R) (mask : tensor Z) :
  wf_tensor mask →
  Forall (λ m, m = 0 ∨ m = 1) (data mask) →
  (length (shape scores) ≤ length (shape mask))%nat ∨
  - Z.of_nat (length (shape mask)) - 1 ≤ axis ≤ Z.of_nat (length (shape mask)) →
  MaskedSoftmax.expand_mask axis (shape scores) mask
  = Ok (padded_mask axis (shape scores) mask) ∧
  ∀ rs,
    tf.broadcast_shapes (shape scores)
      (shape (padded_mask axis (shape scores) mask)) = Some rs →
    ∃ out,
      MaskedSoftmax.masked_scores axis scores (Some mask) = Ok out ∧
      shape out = rs ∧
      ∀ idx, valid_index rs idx →
        let s := get (of_Z 0) scores
                   (tf.broadcast_index (shape scores) idx) in
        let m := get 0 (padded_mask axis (shape scores) mask)
                   (tf.broadcast_index
                      (shape (padded_mask axis (shape scores) mask)) idx) in
        (m = 0 ∨ m = 1) ∧
        (m = 0 → get (of_Z 0) out idx = add s (of_Z (-10000))) ∧
        (m = 1 → get (of_Z 0) out idx = s).
Proof.
  intros Hwf H01 Haxis.
  pose proof (expand_mask_shape axis (shape scores) mask Haxis) as Hexp.
  pose proof (wf_padded_mask axis (shape scores) mask Hwf) as Hwf'.
  assert (Hdata : data (padded_mask axis (shape scores) mask) = data mask)
    by done.
  set (mask' := padded_mask axis (shape scores) mask) in *. clearbody mask'.
  split; [done|].
  intros rs Hrs. unfold MaskedSoftmax.masked_scores. rewrite Hexp.
  cbn [mbind result_bind].
  destruct (broadcast_op_get add (of_Z 0) (of_Z 0) (of_Z 0) scores
              (tf.map (λ x, mul x (of_Z (-10000)))
                 (tf.map (λ m, sub (of_Z 1) m) (tf.cast mask'))) rs Hrs)
    as (out & Hout & Hshape & _ & Hget).
  exists out. split_and!; [done..|].
  intros idx Hv. cbv zeta. rewrite (Hget idx Hv). unfold tf.cast.
  rewrite !shape_map.
  assert (Hv' : valid_index (shape mask')
                  (tf.broadcast_index (shape mask') idx)).
  { apply broadcast_shapes_lookup in Hrs as (Hlen & _ & Hs2).
    apply (broadcast_index_valid _ rs); [lia|done..]. }
  rewrite (get_fmap _ (sub (of_Z 1) (of_Z 0)));
    [|by do 2 apply wf_map|exact Hv'].
  rewrite (get_fmap _ (of_Z 0)); [|by apply wf_map|exact Hv'].
  rewrite (get_fmap _ 0); [|done|exact Hv'].
  assert (Hm : get 0 mask' (tf.broadcast_index (shape mask') idx) = 0
             ∨ get 0 mask' (tf.broadcast_index (shape mask') idx) = 1).
  { unfold get.
    destruct (lookup_lt_is_Some_2 (data mask')
                (ravel (shape mask') (tf.broadcast_index (shape mask') idx)))
      as [m Hm].
    { rewrite Hwf'. by apply ravel_lt. }
    rewrite Hm. cbn. rewrite Forall_forall in H01. apply H01.
    rewrite <-Hdata. by eapply list_elem_of_lookup_2. }
  split_and!; [done| |].
  - intros ->. by rewrite sub_1_0, mul_1_penalty.
  - intros ->. by rewrite sub_1_1, add_neg_zero.
Qed.

Lemma masked_scores_additive_penalty_witness :
  ∃ out,
    MaskedSoftmax.masked_scores (R := float32) 1
      (Tensor [1; 2; 2; 3]%nat
         (of_Z <$> [1; 2; 3; 4; 5; 6; 7; 8; 9; 10; 11; 536870912]))
      (Some (Tensor [1; 2; 3]%nat [1; 1; 0; 1; 0; 0]))
    = Ok out ∧
    get (of_Z 0) out [0; 1; 1; 2]%nat = S754_finite false 16776904 5 ∧
    get (of_Z 0) out [0; 1; 0; 1]%nat = of_Z 8.
Proof.
  destruct (masked_scores_additive_penalty (R := float32) 1
              (Tensor [1; 2; 2; 3]%nat
                 (of_Z <$> [1; 2; 3; 4; 5; 6; 7; 8; 9; 10; 11; 536870912]))
              (Tensor [1; 2; 3]%nat [1; 1; 0; 1; 0; 0]))
    as (_ & Hall).
  - reflexivity.
  - repeat constructor; lia.
  - right. cbn. lia.
  - destruct (Hall [1; 2; 2; 3]%nat eq_refl) as (out & Hout & _ & Hidx).
    exists out. split; [exact Hout|]. split.
    + destruct (Hidx [0; 1; 1; 2]%nat) as (_ & H0 & _).
      { repeat constructor; lia. }
      etrans; [apply H0; reflexivity|]. vm_compute. reflexivity.
    + destruct (Hidx [0; 1; 0; 1]%nat) as (_ & _ & H1).
      { repeat constructor; lia. }
      etrans; [apply H1; reflexivity|]. vm_compute. reflexivity.
Defined.

(** ** Punctuation splitting *)

Lemma split_on_punc_step_nonempty {U : unicodedata}
    (start_new_word : bool) (output : list (list N)) (char : N) :
  (start_new_word = false → output ≠ []) →
  (if start_new_word then output ++ [[]] else output) ≠ [] ∧
  ((BasicTokenizer.split_on_punc_step (start_new_word, output) char).1
   = false →
   (BasicTokenizer.split_on_punc_step (start_new_word, output) char).2
   ≠ []).
Proof.
  intros Hinv.
  assert (Hout : (if start_new_word then output ++ [[]] else output) ≠ []).
  { destruct start_new_word; [by destruct output|by apply Hinv]. }
  split; [done|]. unfold BasicTokenizer.split_on_punc_step.
  destruct (_is_punctuation char); [done|]. cbn. intros _.
  unfold BasicTokenizer.append_to_last.
  destruct (reverse _) as [|last init] eqn:Hrev.
  - done.
  - by destruct (reverse init).
Qed.

(** ** Whitespace *)

Lemma lstrip_nospace (s : list N) :
  Forall (λ c, isspace c = false) s → lstrip s = s.
Proof. destruct 1 as [|c s Hc _]; [done|]. cbn. by rewrite Hc. Qed.

Lemma strip_nospace (s : list N) :
  Forall (λ c, isspace c = false) s → strip s = s.
Proof.
  intros Hs. unfold strip, rstrip. rewrite (lstrip_nospace s) by done.
  rewrite lstrip_nospace by (by apply Forall_reverse).
  apply reverse_involutive.
Qed.

Lemma split_from_nospace (cur s : list N) :
  Forall (λ c, isspace c = false) s → cur ++ s ≠ [] →
  split_from cur s = [cur ++ s].
Proof.
  intros Hs. revert cur. induction Hs as [|c s Hc _ IH]; intros cur Hne; cbn.
  - rewrite app_nil_r in *. by rewrite bool_decide_eq_false_2.
  - rewrite Hc. rewrite IH; rewrite <-app_assoc; [done|].
    cbn. by destruct cur.
Qed.

Lemma whitespace_tokenize_stage_a (token : list N) :
  stage_a_token token → whitespace_tokenize token = [token].
Proof.
  intros [Hne Hs]. unfold whitespace_tokenize. rewrite strip_nospace by done.
  rewrite bool_decide_eq_false_2 by done.
  unfold split. by rewrite split_from_nospace.
Qed.

Lemma split_from_stage_a (cur s : list N) :
  Forall (λ c, isspace c = false) cur →
  Forall stage_a_token (split_from cur s).
Proof.
  revert cur. induction s as [|c s IH]; intros cur Hcur; cbn.
  - case_bool_decide; [constructor|]. by repeat constructor.
  - destruct (isspace c) eqn:Hc.
    + case_bool_decide; [by apply IH|].
      constructor; [done|]. by apply IH.
    + apply IH, Forall_app. split; [done|]. by repeat constructor.
Qed.

Lemma whitespace_tokenize_tokens (text : list N) :
  Forall stage_a_token (whitespace_tokenize text).
Proof.
  unfold whitespace_tokenize. cbv zeta. case_bool_decide; [constructor|].
  by apply split_from_stage_a.
Qed.

Lemma basic_tokenize_stage_a {U : unicodedata} (self : BasicTokenizer.t)
    (text : pytext) :
  Forall stage_a_token (BasicTokenizer.tokenize self text).
Proof. apply whitespace_tokenize_tokens. Qed.

(** ** WordPiece segmentation *)

Section wordpiece.
Context (voc : gmap (list N) Z) (chars : list N).

Lemma longest_match_Some (start k e : nat) (c : list N) :
  WordpieceTokenizer.longest_match voc chars start k = Some (e, c) →
  (start < e ≤ start + k)%nat ∧ c = WordpieceTokenizer.candidate chars start e ∧
  is_Some (voc !! c) ∧
  ∀ e', (e < e' ≤ start + k)%nat →
    voc !! WordpieceTokenizer.candidate chars start e' = None.
Proof.
  induction k as [|k IH]; [done|].
  cbn [WordpieceTokenizer.longest_match]. cbv zeta.
  case_bool_decide as Hin.
  - intros [= <- <-]. split; [lia|]. split_and!; [done|done|intros; lia].
  - intros Hk. destruct (IH Hk) as (He & Hc & Hv & Hmax).
    split; [lia|]. split_and!; [done|done|].
    intros e' He'. destruct (decide (e' = start + S k)%nat) as [->|];
      [|apply Hmax; lia].
    by apply eq_None_not_Some.
Qed.

Lemma longest_match_None (start k : nat) :
  WordpieceTokenizer.longest_match voc chars start k = None ↔
  ∀ e, (start < e ≤ start + k)%nat →
    voc !! WordpieceTokenizer.candidate chars start e = None.
Proof.
  induction k as [|k IH]; cbn [WordpieceTokenizer.longest_match]; cbv zeta.
  - split; [intros _ e He; lia|done].
  - case_bool_decide as Hin.
    + split; [done|]. intros Hall.
      rewrite Hall in Hin by lia. by destruct Hin.
    + rewrite IH. apply eq_None_not_Some in Hin. split.
      * intros Hall e He. destruct (decide (e = start + S k)%nat) as [->|];
          [done|apply Hall; lia].
      * intros Hall e He. apply Hall. lia.
Qed.

Lemma longest_match_found (start k e : nat) :
  (start < e ≤ start + k)%nat →
  is_Some (voc !! WordpieceTokenizer.candidate chars start e) →
  (∀ e', (e < e' ≤ start + k)%nat →
     voc !! WordpieceTokenizer.candidate chars start e' = None) →
  WordpieceTokenizer.longest_match voc chars start k
  = Some (e, WordpieceTokenizer.candidate chars start e).
Proof.
  intros He Hin Hmax.
  destruct (WordpieceTokenizer.longest_match voc chars start k)
    as [[e0 c0]|] eqn:Hlm.
  - apply longest_match_Some in Hlm as (He0 & -> & Hin0 & Hmax0).
    destruct (decide (e0 = e)) as [->|Hne]; [done|].
    destruct (decide (e0 < e)%nat).
    + rewrite Hmax0 in Hin by lia. by destruct Hin.
    + rewrite Hmax in Hin0 by lia. by destruct Hin0.
  - rewrite longest_match_None in Hlm. rewrite Hlm in Hin by lia.
    by destruct Hin.
Qed.

Lemma segment_fuel (fuel start : nat) (sub_tokens : list (list N)) :
  (length chars - start ≤ fuel)%nat →
  is_Some (WordpieceTokenizer.segment voc chars fuel start sub_tokens).
Proof.
  revert start sub_tokens. induction fuel as [|fuel IH];
    intros start sub_tokens Hfuel.
  - cbn. rewrite bool_decide_eq_false_2 by lia. eauto.
  - cbn [WordpieceTokenizer.segment]. case_bool_decide; [|eauto].
    destruct (WordpieceTokenizer.longest_match _ _ _ _) as [[e c]|] eqn:Hlm;
      [|eauto].
    apply longest_match_Some in Hlm as (He & _). apply IH. lia.
Qed.

Lemma segment_fuel_mono (fuel fuel' start : nat) sub_tokens r :
  WordpieceTokenizer.segment voc chars fuel start sub_tokens = Some r →
  (fuel ≤ fuel')%nat →
  WordpieceTokenizer.segment voc chars fuel' start sub_tokens = Some r.
Proof.
  revert fuel' start sub_tokens. induction fuel as [|fuel IH];
    intros fuel' start sub_tokens.
  - cbn. case_bool_decide; [done|]. intros [= <-] _.
    destruct fuel'; cbn; by rewrite bool_decide_eq_false_2.
  - intros Hr Hle. destruct fuel' as [|fuel']; [lia|].
    cbn [WordpieceTokenizer.segment] in *. case_bool_decide; [|done].
    destruct (WordpieceTokenizer.longest_match _ _ _ _) as [[e c]|]; [|done].
    apply IH; [done|lia].
Qed.

End wordpiece.
Section wordpiece_runs.
Context {U : unicodedata} (self : WordpieceTokenizer.t).
#[local] Abbreviation voc := (WordpieceTokenizer.vocab self).

Lemma tokenize_stage_a (token : list N) :
  stage_a_token token →
  WordpieceTokenizer.tokenize self (Str token)
  = WordpieceTokenizer.tokenize_token self token.
Proof.
  intros Hst. unfold WordpieceTokenizer.tokenize. cbn [convert_to_unicode].
  rewrite whitespace_tokenize_stage_a by done. cbn. apply app_nil_r.
Qed.

Lemma segment_step (chars : list N) (fuel start e : nat) sub_tokens :
  (start < e ≤ length chars)%nat →
  is_Some (voc !! WordpieceTokenizer.candidate chars start e) →
  (∀ e', (e < e' ≤ length chars)%nat →
     voc !! WordpieceTokenizer.candidate chars start e' = None) →
  WordpieceTokenizer.segment voc chars (S fuel) start sub_tokens
  = WordpieceTokenizer.segment voc chars fuel e
      (sub_tokens ++ [WordpieceTokenizer.candidate chars start e]).
Proof.
  intros He Hin Hmax. cbn [WordpieceTokenizer.segment].
  rewrite bool_decide_eq_true_2 by lia.
  rewrite (longest_match_found voc chars start _ e); [done|lia|done|].
  intros e' He'. apply Hmax. lia.
Qed.

Lemma segment_stuck (chars : list N) (fuel start : nat) sub_tokens :
  (start < length chars)%nat →
  (∀ e, (start < e ≤ length chars)%nat →
     voc !! WordpieceTokenizer.candidate chars start e = None) →
  WordpieceTokenizer.segment voc chars (S fuel) start sub_tokens
  = Some (true, sub_tokens).
Proof.
  intros Hstart Hnone. cbn [WordpieceTokenizer.segment].
  rewrite bool_decide_eq_true_2 by lia.
  assert (WordpieceTokenizer.longest_match voc chars start
            (length chars - start) = None) as ->; [|done].
  apply longest_match_None. intros e He. apply Hnone. lia.
Qed.

Lemma segment_reaches_cursor (chars : list N) (c : nat) :
  cursor voc chars c →
  ∃ acc n, ∀ fuel,
    WordpieceTokenizer.segment voc chars (n + fuel) 0 []
    = WordpieceTokenizer.segment voc chars fuel c acc.
Proof.
  induction 1 as [|start e _ (acc & n & IH) He Hin Hmax].
  - by exists [], 0%nat.
  - exists (acc ++ [WordpieceTokenizer.candidate chars start e]), (S n).
    intros fuel. replace (S n + fuel)%nat with (n + S fuel)%nat by lia.
    rewrite IH. by apply segment_step.
Qed.

Lemma segment_bad_at_cursor (chars : list N) (start : nat) :
  cursor voc chars start →
  (start < length chars)%nat →
  (∀ e, (start < e ≤ length chars)%nat →
     voc !! WordpieceTokenizer.candidate chars start e = None) →
  ∃ partial,
    WordpieceTokenizer.segment voc chars (length chars) 0 []
    = Some (true, partial).
Proof.
  intros Hc Hstart Hnone.
  destruct (segment_reaches_cursor chars start Hc) as (acc & n & Hrun).
  exists acc. specialize (Hrun 1%nat).
  rewrite segment_stuck in Hrun by done.
  destruct (segment_fuel voc chars (length chars) 0 []) as [r Hr]; [lia|].
  rewrite Hr. f_equal.
  apply (segment_fuel_mono _ _ _ (n + 1 + length chars)) in Hr; [|lia].
  apply (segment_fuel_mono _ _ _ (n + 1 + length chars)) in Hrun; [|lia].
  congruence.
Qed.

Lemma slice_drop (chars : list N) (start e : nat) :
  (start ≤ e)%nat → slice chars start e ++ drop e chars = drop start chars.
Proof.
  intros He. unfold slice.
  replace (drop e chars) with (drop (e - start) (drop start chars)).
  - apply take_drop.
  - rewrite drop_drop. f_equal. lia.
Qed.

Lemma segment_pieces (chars : list N) (fuel start : nat) acc sub_tokens :
  (start ≤ length chars)%nat →
  WordpieceTokenizer.segment voc chars fuel start acc
  = Some (false, sub_tokens) →
  ∃ pieces,
    sub_tokens = acc ++ mark_pieces start pieces ∧
    concat pieces = drop start chars ∧
    Forall (λ p, p ≠ []) pieces ∧
    Forall (λ t, is_Some (voc !! t)) (mark_pieces start pieces).
Proof.
  revert start acc. induction fuel as [|fuel IH]; intros start acc Hstart.
  - cbn. case_bool_decide; [done|]. intros [= <-]. exists [].
    rewrite drop_ge by lia. destruct start; cbn; by rewrite app_nil_r.
  - cbn [WordpieceTokenizer.segment]. case_bool_decide as Hlt.
    2: { intros [= <-]. exists []. rewrite drop_ge by lia.
         destruct start; cbn; by rewrite app_nil_r. }
    destruct (WordpieceTokenizer.longest_match _ _ _ _) as [[e c]|] eqn:Hlm;
      [|done].
    apply longest_match_Some in Hlm as (He & -> & Hin & _).
    intros Hrec. apply IH in Hrec as (pieces & -> & Hcat & Hne & Hvoc); [|lia].
    exists (slice chars start e :: pieces).
    assert (Hmark : mark_pieces e pieces = app (py "##") <$> pieces).
    { destruct e; [lia|done]. }
    rewrite Hmark in *. split_and!.
    + rewrite <-app_assoc. f_equal. unfold WordpieceTokenizer.candidate in *.
      destruct start; [done|]. by rewrite bool_decide_eq_true_2 by lia.
    + cbn. rewrite Hcat. apply slice_drop. lia.
    + constructor; [|done]. intros Hnil.
      apply (f_equal length) in Hnil. unfold slice in Hnil.
      rewrite length_take, length_drop in Hnil. cbn in Hnil. lia.
    + unfold WordpieceTokenizer.candidate in Hin.
      destruct start; cbn [mark_pieces].
      * rewrite bool_decide_eq_false_2 in Hin by lia. by constructor.
      * rewrite bool_decide_eq_true_2 in Hin by lia. by constructor.
Qed.

End wordpiece_runs.
(** C6 as stated fails: a vocabulary that contains ["un"], ["##aff"] and
    ["##able"] and also the longer ["una"] segments ["unaffable"] as
    ["una"; "##ffa"; "##ble"]. *)
Lemma tokenize_unaffable_longer_vocab :
  is_Some (unaffable_vocab_longer !! py "un") ∧
  is_Some (unaffable_vocab_longer !! py "##aff") ∧
  is_Some (unaffable_vocab_longer !! py "##able") ∧
  WordpieceTokenizer.tokenize (U := ascii_db)
    (WordpieceTokenizer.init unaffable_vocab_longer) (Str (py "unaffable"))
  = [py "una"; py "##ffa"; py "##ble"] ∧
  WordpieceTokenizer.tokenize (U := ascii_db)
    (WordpieceTokenizer.init unaffable_vocab_longer) (Str (py "unaffable"))
  ≠ [py "un"; py "##aff"; py "##able"].
Proof.
  assert (Hrun : WordpieceTokenizer.tokenize (U := ascii_db)
            (WordpieceTokenizer.init unaffable_vocab_longer)
            (Str (py "unaffable"))
          = [py "una"; py "##ffa"; py "##ble"]) by (vm_compute; reflexivity).
  split_and!; [vm_compute; eauto..|exact Hrun|].
  rewrite Hrun. vm_compute. discriminate.
Qed.

(** C6, amended.  When the vocabulary contains ["un"], ["##aff"] and
    ["##able"] and none of the longer candidates at the cursors 0 and 2,
    tokenizing ["unaffable"] gives exactly ["un"; "##aff"; "##able"]. *)
Theorem tokenize_unaffable {U : unicodedata} (self : WordpieceTokenizer.t) :
  9 ≤ WordpieceTokenizer.max_input_chars_per_word self →
  is_Some (WordpieceTokenizer.vocab self !! py "un") →
  is_Some (WordpieceTokenizer.vocab self !! py "##aff") →
  is_Some (WordpieceTokenizer.vocab self !! py "##able") →
  Forall (λ w, WordpieceTokenizer.vocab self !! w = None)
    unaffable_longer_candidates →
  WordpieceTokenizer.tokenize self (Str (py "unaffable"))
  = [py "un"; py "##aff"; py "##able"].
Proof.
  intros Hmax Hun Haff Hable Hlonger.
  unfold unaffable_longer_candidates in Hlonger.
  cbn [fmap list_fmap] in Hlonger. rewrite !Forall_cons in Hlonger.
  destruct Hlonger as (H9 & H8 & H7 & H6 & H5 & H4 & H3
                       & A9 & A8 & A7 & A6 & _).
  rewrite tokenize_stage_a.
  2: { split; [done|]. by repeat constructor. }
  unfold WordpieceTokenizer.tokenize_token.
  change (length (py "unaffable")) with 9%nat.
  rewrite bool_decide_eq_false_2 by lia.
  rewrite (segment_step self (py "unaffable") 8 0 2);
    [|change (length (py "unaffable")) with 9%nat; lia|exact Hun|].
  2: { intros e He. change (length (py "unaffable")) with 9%nat in He.
       assert (e = 3 ∨ e = 4 ∨ e = 5 ∨ e = 6 ∨ e = 7 ∨ e = 8 ∨ e = 9)%nat
         as Hcases by lia.
       destruct Hcases as [->|[->|[->|[->|[->|[->| ->]]]]]]; assumption. }
  rewrite (segment_step self (py "unaffable") 7 2 5);
    [|change (length (py "unaffable")) with 9%nat; lia|exact Haff|].
  2: { intros e He. change (length (py "unaffable")) with 9%nat in He.
       assert (e = 6 ∨ e = 7 ∨ e = 8 ∨ e = 9)%nat as Hcases by lia.
       destruct Hcases as [->|[->|[->| ->]]]; assumption. }
  rewrite (segment_step self (py "unaffable") 6 5 9);
    [|change (length (py "unaffable")) with 9%nat; lia|exact Hable|].
  2: { intros e He. change (length (py "unaffable")) with 9%nat in He. lia. }
  reflexivity.
Qed.

Lemma tokenize_unaffable_witness :
  WordpieceTokenizer.tokenize (U := ascii_db)
    (WordpieceTokenizer.init unaffable_vocab) (Str (py "unaffable"))
  = [py "un"; py "##aff"; py "##able"].
Proof.
  apply (tokenize_unaffable (U := ascii_db)
           (WordpieceTokenizer.init unaffable_vocab)).
  - cbn. lia.
  - vm_compute. eauto.
  - vm_compute. eauto.
  - vm_compute. eauto.
  - repeat constructor.
Defined.
(** C7.  For a token without whitespace, [tokenize] returns the list that
    holds only the unknown token when the token is longer than
    [max_input_chars_per_word] (400 by default), and also when at some
    cursor of the greedy segmentation no candidate is in the vocabulary,
    whatever sub-tokens were found before; [tokenize] is a total function,
    so the call returns in both cases. *)
Theorem wordpiece_unknown_fallback {U : unicodedata}
    (self : WordpieceTokenizer.t) (token : list N) :
  stage_a_token token →
  (Z.of_nat (length token) > WordpieceTokenizer.max_input_chars_per_word self →
   WordpieceTokenizer.tokenize self (Str token)
   = [WordpieceTokenizer.unk_token self]) ∧
  (∀ start,
     cursor (WordpieceTokenizer.vocab self) token start →
     (start < length token)%nat →
     (∀ e, (start < e ≤ length token)%nat →
        WordpieceTokenizer.vocab self
          !! WordpieceTokenizer.candidate token start e = None) →
     WordpieceTokenizer.tokenize self (Str token)
     = [WordpieceTokenizer.unk_token self]) ∧
  (∀ vocab,
     WordpieceTokenizer.max_input_chars_per_word (WordpieceTokenizer.init vocab)
     = 400 ∧
     WordpieceTokenizer.unk_token (WordpieceTokenizer.init vocab)
     = py "[UNK]").
Proof.
  intros Hst. rewrite tokenize_stage_a by done.
  unfold WordpieceTokenizer.tokenize_token. split_and!.
  - intros Hlong. by rewrite bool_decide_eq_true_2.
  - intros start Hc Hstart Hnone. case_bool_decide; [done|].
    destruct (segment_bad_at_cursor self token start Hc Hstart Hnone)
      as [partial ->]. done.
  - done.
Qed.

Lemma wordpiece_unknown_fallback_witness :
  WordpieceTokenizer.tokenize (U := ascii_db)
    (WordpieceTokenizer.Build unaffable_vocab (py "[UNK]") 3)
    (Str (py "unaffable")) = [py "[UNK]"] ∧
  WordpieceTokenizer.tokenize (U := ascii_db)
    (WordpieceTokenizer.init unaffable_vocab)
    (Str (py "unaffix")) = [py "[UNK]"].
Proof.
  split.
  - apply (wordpiece_unknown_fallback (U := ascii_db)
             (WordpieceTokenizer.Build unaffable_vocab (py "[UNK]") 3)
             (py "unaffable")).
    + split; [done|]. by repeat constructor.
    + cbn. lia.
  - destruct (wordpiece_unknown_fallback (U := ascii_db)
                (WordpieceTokenizer.init unaffable_vocab) (py "unaffix"))
      as (_ & Hcursor & _).
    { split; [done|]. by repeat constructor. }
    apply (Hcursor 5%nat); [|cbn; lia|].
    + apply (cursor_next _ _ 2 5); [|cbn; lia|vm_compute; eauto|].
      * apply (cursor_next _ _ 0 2);
          [apply cursor_start|cbn; lia|vm_compute; eauto|].
        intros e He. cbn in He.
        assert (e = 3 ∨ e = 4 ∨ e = 5 ∨ e = 6 ∨ e = 7)%nat as Hcases by lia.
        destruct Hcases as [->|[->|[->|[->| ->]]]]; vm_compute; reflexivity.
      * intros e He. cbn in He.
        assert (e = 6 ∨ e = 7)%nat as Hcases by lia.
        destruct Hcases as [->| ->]; vm_compute; reflexivity.
    + intros e He. cbn in He.
      assert (e = 6 ∨ e = 7)%nat as Hcases by lia.
      destruct Hcases as [->| ->]; vm_compute; reflexivity.
Defined.

(** C10 as stated fails: with ["##a"] in the vocabulary the token ["##a"]
    is segmented without fallback into the single sub-token ["##a"], which
    starts with the marker at the initial position. *)
Lemma wordpiece_initial_piece_with_marker :
  WordpieceTokenizer.segment {[ py "##a" := 0 ]} (py "##a") 3 0 []
  = Some (false, [py "##a"]) ∧
  WordpieceTokenizer.tokenize (U := ascii_db)
    (WordpieceTokenizer.init {[ py "##a" := 0 ]}) (Str (py "##a"))
  = [py "##a"] ∧
  ¬ marker_only_on_continuations [py "##a"].
Proof.
  split_and!; [vm_compute; reflexivity..|].
  intros Hmark. destruct (Hmark 0%nat (py "##a") eq_refl) as [Hlt _].
  specialize (Hlt eq_refl). lia.
Qed.

(** C10, amended.  When the segmentation of a token without whitespace
    ends with [is_bad] false, the sub-tokens are a non-empty list
    [first :: "##" ++ p1 :: ... :: "##" ++ pn] with [first], [p1], ...,
    [pn] non-empty and [first ++ p1 ++ ... ++ pn] the token: every
    sub-token after the first starts with the marker, the first is a prefix
    of the token as it stands (so it starts with the marker only when the
    token does), and dropping the two marker characters from every
    sub-token but the first and concatenating gives the token back. *)
Theorem wordpiece_pieces_reconstruct {U : unicodedata}
    (self : WordpieceTokenizer.t) (token : list N)
    (sub_tokens : list (list N)) :
  stage_a_token token →
  Z.of_nat (length token) ≤ WordpieceTokenizer.max_input_chars_per_word self →
  WordpieceTokenizer.segment (WordpieceTokenizer.vocab self) token
    (length token) 0 [] = Some (false, sub_tokens) →
  WordpieceTokenizer.tokenize self (Str token) = sub_tokens ∧
  ∃ first rest,
    sub_tokens = first :: (app (py "##") <$> rest) ∧
    first ≠ [] ∧ Forall (λ p, p ≠ []) rest ∧
    first ++ concat rest = token ∧
    Forall has_marker (tail sub_tokens) ∧
    (has_marker first → has_marker token) ∧
    first ++ concat (drop 2 <$> tail sub_tokens) = token.
Proof.
  intros [Hne Hsp] Hmax Hseg. split.
  { rewrite tokenize_stage_a by done.
    unfold WordpieceTokenizer.tokenize_token.
    rewrite bool_decide_eq_false_2 by lia. by rewrite Hseg. }
  apply segment_pieces in Hseg as (pieces & -> & Hcat & Hpieces & _); [|lia].
  rewrite drop_0 in Hcat. destruct pieces as [|first rest]; [done|].
  exists first, rest. cbn [mark_pieces app tail].
  apply Forall_cons in Hpieces as [Hfirst Hrest]. cbn in Hcat.
  assert (Hdrop : drop 2 <$> (app (py "##") <$> rest) = rest).
  { clear. induction rest as [|p rest IH]; [done|].
    rewrite !fmap_cons, IH. reflexivity. }
  split_and!; [done..| | |by rewrite Hdrop].
  - apply Forall_fmap, Forall_forall. by intros p _.
  - unfold has_marker. intros Hm. rewrite <-Hcat.
    rewrite take_app_le; [done|].
    apply (f_equal length) in Hm. rewrite length_take in Hm.
    change (length (py "##")) with 2%nat in Hm. lia.
Qed.

Lemma wordpiece_pieces_reconstruct_witness :
  WordpieceTokenizer.tokenize (U := ascii_db)
    (WordpieceTokenizer.init unaffable_vocab) (Str (py "unaffable"))
  = [py "un"; py "##aff"; py "##able"] ∧
  ∃ first rest,
    [py "un"; py "##aff"; py "##able"] = first :: (app (py "##") <$> rest) ∧
    first ++ concat rest = py "unaffable".
Proof.
  destruct (wordpiece_pieces_reconstruct (U := ascii_db)
              (WordpieceTokenizer.init unaffable_vocab) (py "unaffable")
              [py "un"; py "##aff"; py "##able"])
    as (Htok & first & rest & Hsub & _ & _ & Hcat & _).
  - split; [done|]. by repeat constructor.
  - cbn. lia.
  - vm_compute. reflexivity.
  - split; [exact Htok|]. by exists first, rest.
Defined.

(** ** load_vocab *)

Lemma last_index_Some (t : list N) (toks : list (list N)) (j : nat) :
  last_index t toks = Some j ↔
  toks !! j = Some t ∧ ∀ j', (j < j')%nat → toks !! j' ≠ Some t.
Proof.
  revert j. induction toks as [|x toks IH]; intros j; cbn [last_index].
  - split; [done|]. by intros [? _].
  - destruct (last_index t toks) as [j0|] eqn:Hlast.
    + destruct (IH j0) as [[Hj0 Hafter] _]; [done|]. split.
      * intros [= <-]. split; [done|].
        intros [|j'] Hj'; [lia|]. cbn. apply Hafter. lia.
      * intros [Hj Hafter']. destruct j as [|j].
        { exfalso. by apply (Hafter' (S j0)); [lia|]. }
        f_equal. cbn in Hj.
        destruct (decide (j0 = j)) as [|Hne]; [congruence|]. exfalso.
        destruct (decide (j0 < j)%nat).
        -- by apply (Hafter j); [lia|].
        -- by apply (Hafter' (S j0)); [lia|].
    + assert (Hnone : ∀ j', toks !! j' ≠ Some t).
      { intros j' Hj'. clear IH. revert j' Hj'.
        induction toks as [|y toks IHt]; intros j' Hj'; [done|].
        cbn [last_index] in Hlast.
        destruct (last_index t toks) eqn:?; [done|].
        case_bool_decide; [done|]. destruct j' as [|j']; cbn in Hj'.
        - by injection Hj'.
        - by eapply IHt. }
      case_bool_decide as Hx; split.
      * intros [= <-]. split; [by subst|].
        intros [|j'] Hj'; [lia|]. apply Hnone.
      * intros [Hj _]. destruct j as [|j]; [done|]. by apply Hnone in Hj.
      * done.
      * intros [Hj _]. destruct j as [|j]; cbn in Hj; [congruence|].
        by apply Hnone in Hj.
Qed.

Lemma last_index_None (t : list N) (toks : list (list N)) :
  last_index t toks = None ↔ t ∉ toks.
Proof.
  induction toks as [|x toks IH]; cbn [last_index].
  - split; [intros _; apply not_elem_of_nil|done].
  - rewrite not_elem_of_cons. destruct (last_index t toks).
    + split; [done|]. intros [_ Hn]. by apply IH in Hn.
    + case_bool_decide; split; try done.
      * intros [Hne _]. by subst.
      * intros _. split; [done|]. by apply IH.
Qed.

Section load_vocab.
Context {U : unicodedata}.

Lemma load_vocab_loop_lookup (reader : list (list N))
    (vocab : gmap (list N) Z) (index : Z) (t : list N) :
  load_vocab_loop reader vocab index !! t
  = match last_index t (strip <$> lines_read reader) with
    | Some j => Some (index + Z.of_nat j)
    | None => vocab !! t
    end.
Proof.
  revert vocab index. induction reader as [|line reader IH];
    intros vocab index; [done|].
  cbn [load_vocab_loop lines_read convert_to_unicode]. cbv zeta.
  case_bool_decide as Hline; [done|].
  rewrite IH. cbn [fmap list_fmap last_index].
  change (list_fmap _ _ strip (lines_read reader))
    with (strip <$> lines_read reader).
  destruct (last_index t (strip <$> lines_read reader)) as [j|].
  - f_equal. lia.
  - case_bool_decide as Ht.
    + subst t. rewrite lookup_insert_eq. f_equal. lia.
    + by rewrite lookup_insert_ne.
Qed.

Lemma load_vocab_lookup (reader : list (list N)) (t : list N) (i : Z) :
  load_vocab reader !! t = Some i ↔
  ∃ j, i = Z.of_nat j ∧ (strip <$> lines_read reader) !! j = Some t ∧
       ∀ j', (j < j')%nat → (strip <$> lines_read reader) !! j' ≠ Some t.
Proof.
  unfold load_vocab. rewrite load_vocab_loop_lookup.
  destruct (last_index t _) as [j|] eqn:Hlast.
  - apply last_index_Some in Hlast as Hj. split.
    + intros [= <-]. exists j. split; [lia|done].
    + intros (j' & -> & Hj'). apply last_index_Some in Hj'.
      rewrite Hlast in Hj'. by injection Hj' as ->.
  - rewrite lookup_empty. split; [done|].
    intros (j & _ & Hj). apply last_index_Some in Hj. congruence.
Qed.

End load_vocab.
Lemma load_vocab_dom {U : unicodedata} (reader : list (list N)) (t : list N) :
  is_Some (load_vocab reader !! t) ↔ t ∈ strip <$> lines_read reader.
Proof.
  unfold load_vocab. rewrite load_vocab_loop_lookup, lookup_empty.
  destruct (last_index t _) as [j|] eqn:Hlast.
  - apply last_index_Some in Hlast as [Hj _].
    split; [intros _; by eapply list_elem_of_lookup_2|eauto].
  - apply last_index_None in Hlast. split; [by intros [? ?]|done].
Qed.

(** C2 as stated fails: when a token is read twice its id is the number of
    the later line, the ids then skip a number, and whitespace in front of
    a token is removed too. *)
Lemma load_vocab_not_first_occurrence :
  load_vocab (U := ascii_db) [py "a" ++ nl; py "b" ++ nl; py "a" ++ nl]
    !! py "a" = Some 2 ∧
  ¬ first_occurrence_ids [py "a" ++ nl; py "b" ++ nl; py "a" ++ nl]
      (load_vocab (U := ascii_db)
         [py "a" ++ nl; py "b" ++ nl; py "a" ++ nl]) ∧
  ¬ contiguous_ids
      (load_vocab (U := ascii_db)
         [py "a" ++ nl; py "b" ++ nl; py "a" ++ nl]) ∧
  load_vocab (U := ascii_db) [py " a" ++ nl] !! rstrip (py " a" ++ nl) = None ∧
  load_vocab (U := ascii_db) [py " a" ++ nl] !! py "a" = Some 0.
Proof.
  split_and!; [vm_compute; reflexivity| | |vm_compute; reflexivity..].
  - intros Hfirst.
    destruct (Hfirst (py "a") 2) as [(j & Hj & _ & Hbefore) _];
      [vm_compute; reflexivity|].
    apply (Hbefore 0%nat); [lia|]. vm_compute. reflexivity.
  - intros Hcontig.
    destruct (Hcontig 0) as [_ [t Ht]];
      [vm_compute; split; [discriminate|reflexivity]|].
    apply load_vocab_lookup in Ht as (j & Hj & Htok & Hafter).
    assert (j = 0%nat) as -> by lia.
    apply (Hafter 2%nat); [lia|].
    vm_compute in Htok. injection Htok as <-. vm_compute. reflexivity.
Qed.

(** C2, amended.  [load_vocab] maps every token, the text of a line
    without its leading and trailing whitespace, to the 0-based number of
    the last line that reads as this token; the keys are exactly the
    tokens read; and when no token is read twice every token has the number
    of its own line and the ids are exactly [0, ..., n - 1]. *)
Theorem load_vocab_last_occurrence {U : unicodedata}
    (reader : list (list N)) :
  (∀ t i, load_vocab reader !! t = Some i ↔
     ∃ j, i = Z.of_nat j ∧ (strip <$> lines_read reader) !! j = Some t ∧
          ∀ j', (j < j')%nat → (strip <$> lines_read reader) !! j' ≠ Some t) ∧
  (∀ t, is_Some (load_vocab reader !! t) ↔ t ∈ strip <$> lines_read reader) ∧
  (NoDup (strip <$> lines_read reader) →
     (∀ j t, (strip <$> lines_read reader) !! j = Some t →
        load_vocab reader !! t = Some (Z.of_nat j)) ∧
     size (load_vocab reader) = length (strip <$> lines_read reader) ∧
     contiguous_ids (load_vocab reader)).
Proof.
  split_and!; [apply load_vocab_lookup|apply load_vocab_dom|].
  intros Hnodup.
  assert (Hline : ∀ j t, (strip <$> lines_read reader) !! j = Some t →
            load_vocab reader !! t = Some (Z.of_nat j)).
  { intros j t Hj. apply load_vocab_lookup. exists j. split_and!; [done..|].
    intros j' Hlt Hj'. pose proof (NoDup_lookup _ _ _ _ Hnodup Hj Hj'). lia. }
  assert (Hsize : size (load_vocab reader)
                  = length (strip <$> lines_read reader)).
  { rewrite <-size_dom, <-(size_list_to_set (C := gset (list N))) by done.
    f_equal. apply set_eq. intros t.
    by rewrite elem_of_dom, elem_of_list_to_set, load_vocab_dom. }
  split_and!; [done..|].
  intros i. rewrite Hsize. split.
  - intros [t Ht]. apply load_vocab_lookup in Ht as (j & -> & Hj & _).
    apply lookup_lt_Some in Hj. lia.
  - intros Hi.
    destruct (lookup_lt_is_Some_2 (strip <$> lines_read reader) (Z.to_nat i))
      as [t Ht]; [lia|].
    exists t. rewrite (Hline _ _ Ht). f_equal. lia.
Qed.

Lemma load_vocab_last_occurrence_witness :
  load_vocab (U := ascii_db)
    [py "[UNK]" ++ nl; py "  un " ++ nl; py "##aff" ++ nl]
    !! py "un" = Some 1 ∧
  contiguous_ids
    (load_vocab (U := ascii_db)
       [py "[UNK]" ++ nl; py "  un " ++ nl; py "##aff" ++ nl]).
Proof.
  destruct (load_vocab_last_occurrence (U := ascii_db)
              [py "[UNK]" ++ nl; py "  un " ++ nl; py "##aff" ++ nl])
    as (_ & _ & Hnodup).
  destruct Hnodup as (Hline & _ & Hcontig).
  - apply (bool_decide_unpack _). vm_compute. exact I.
  - split; [|exact Hcontig]. apply (Hline 1%nat). vm_compute. reflexivity.
Defined.

(** ** Encoding *)

Lemma convert_by_vocab_ok (vocab : gmap (list N) Z) (items : list (list N)) :
  Forall (λ t, is_Some (vocab !! t)) items →
  convert_by_vocab vocab items = Ok (ids_of vocab items).
Proof.
  intros Hitems. unfold convert_by_vocab.
  assert (Hgen : ∀ acc,
    for_ items (λ item output,
      match vocab !! item with
      | Some v => Ok (output ++ [v])
      | None => Raise KeyError
      end) acc = Ok (acc ++ ids_of vocab items)); [|apply Hgen].
  induction Hitems as [|t items [v Hv] _ IH]; intros acc.
  - cbn. by rewrite app_nil_r.
  - cbn [for_]. rewrite Hv. cbn [mbind result_bind]. rewrite IH.
    unfold ids_of. rewrite fmap_cons, Hv. cbn. by rewrite <-app_assoc.
Qed.

Lemma tokenize_token_in_vocab (self : WordpieceTokenizer.t) (token : list N) :
  Forall (λ t, t = WordpieceTokenizer.unk_token self
               ∨ is_Some (WordpieceTokenizer.vocab self !! t))
    (WordpieceTokenizer.tokenize_token self token).
Proof.
  unfold WordpieceTokenizer.tokenize_token.
  case_bool_decide; [repeat constructor|].
  destruct (WordpieceTokenizer.segment _ _ _ _ _) as [[[|] subs]|] eqn:Hseg;
    [repeat constructor| |constructor].
  apply segment_pieces in Hseg as (pieces & -> & _ & _ & Hvoc); [|lia].
  cbn [app]. eapply Forall_impl; [exact Hvoc|]. cbn. eauto.
Qed.

Lemma wordpiece_tokenize_in_vocab {U : unicodedata}
    (self : WordpieceTokenizer.t) (text : pytext) :
  Forall (λ t, t = WordpieceTokenizer.unk_token self
               ∨ is_Some (WordpieceTokenizer.vocab self !! t))
    (WordpieceTokenizer.tokenize self text).
Proof.
  unfold WordpieceTokenizer.tokenize. cbv zeta.
  apply Forall_bind, Forall_forall. intros token _.
  apply tokenize_token_in_vocab.
Qed.

Lemma full_tokenize_in_vocab {U : unicodedata} (vocab_file : list (list N))
    (lc sp : bool) (text : pytext) :
  is_Some (load_vocab vocab_file !! py "[UNK]") →
  Forall (λ t, is_Some (load_vocab vocab_file !! t))
    (FullTokenizer.tokenize (FullTokenizer.init vocab_file lc sp) text).
Proof.
  intros Hunk. unfold FullTokenizer.tokenize.
  apply Forall_bind, Forall_forall. intros token _.
  eapply Forall_impl; [apply wordpiece_tokenize_in_vocab|].
  cbn. by intros t [->|Ht].
Qed.

Lemma max_list_replicate (n w : nat) :
  (0 < n)%nat → max_list (replicate n w) = w.
Proof.
  induction n as [|[|n] IH]; intros Hn; [lia|cbn; lia|].
  change (max_list (replicate (S (S n)) w))
    with (w `max` max_list (replicate (S n) w))%nat.
  rewrite IH by lia. lia.
Qed.

Lemma to_tensor_lengths (rows : list (list Z)) :
  length <$> BertTokenizer.to_tensor rows
  = replicate (length rows) (max_list (length <$> rows)).
Proof.
  unfold BertTokenizer.to_tensor. cbv zeta.
  set (width := max_list (length <$> rows)).
  assert (Hle : Forall (λ row : list Z, (length row ≤ width)%nat) rows).
  { apply Forall_forall. intros row Hrow. apply max_list_elem_of_le.
    apply list_elem_of_fmap. eauto. }
  clearbody width. induction Hle as [|row rows Hrow _ IH]; [done|].
  cbn. rewrite length_app, length_replicate. f_equal; [lia|exact IH].
Qed.
Section bert_encode.
Context {U : unicodedata} (vocab_file : list (list N)) (n : Z) (cls sep : Z).
#[local] Abbreviation self := (BertTokenizer.init vocab_file n).
#[local] Abbreviation sub_word_ids s :=
  (ids_of (load_vocab vocab_file)
     (FullTokenizer.tokenize (BertTokenizer.tokenizer self) s)).
Hypothesis Hunk : is_Some (load_vocab vocab_file !! py "[UNK]").
Hypothesis Hcls : load_vocab vocab_file !! py "[CLS]" = Some cls.
Hypothesis Hsep : load_vocab vocab_file !! py "[SEP]" = Some sep.

Lemma encode_sentence_ok (s : pytext) :
  FullTokenizer.convert_tokens_to_ids (BertTokenizer.tokenizer self)
    (FullTokenizer.tokenize (BertTokenizer.tokenizer self) s)
  = Ok (sub_word_ids s) ∧
  BertTokenizer.encode_sentence self s = Ok (sub_word_ids s ++ [sep]).
Proof.
  unfold BertTokenizer.encode_sentence, FullTokenizer.convert_tokens_to_ids.
  cbv zeta. cbn [BertTokenizer.tokenizer BertTokenizer.init
                 FullTokenizer.vocab FullTokenizer.init].
  pose proof (full_tokenize_in_vocab vocab_file true true s Hunk) as Htok.
  split; [by apply convert_by_vocab_ok|].
  rewrite convert_by_vocab_ok.
  - unfold ids_of. rewrite fmap_app. do 2 f_equal.
    cbn [fmap list_fmap]. by rewrite Hsep.
  - apply Forall_app. split; [done|]. repeat constructor. by rewrite Hsep.
Qed.

Lemma get_encoded_sentence_ok (input_tensor : list (list pytext))
    (sentences : list pytext) :
  Forall2 (λ row s, head row = Some s) input_tensor sentences →
  BertTokenizer.get_encoded_sentence self input_tensor
  = Ok ((λ s, sub_word_ids s ++ [sep]) <$> sentences).
Proof.
  unfold BertTokenizer.get_encoded_sentence.
  induction 1 as [|row s input_tensor sentences Hrow _ IH]; [done|].
  cbn [mapM]. destruct row as [|s0 row]; [done|]. injection Hrow as ->.
  assert (getitem (s :: row) 0 = Ok s) as -> by done.
  cbn [mbind result_bind].
  destruct (encode_sentence_ok s) as [_ ->]. cbn [mbind result_bind].
  rewrite IH. done.
Qed.

Lemma bert_encode_ok (input_tensor : list (list pytext))
    (sentences : list pytext) :
  0 ≤ n → input_tensor ≠ [] →
  Forall2 (λ row s, head row = Some s) input_tensor sentences →
  BertTokenizer.bert_encode self input_tensor
  = Ok ((λ row,
           take (Z.to_nat n)
             (row ++ replicate
                (max_list (length <$>
                   ((λ s, cls :: sub_word_ids s ++ [sep]) <$> sentences))
                 - length row) 0))
          <$> ((λ s, cls :: sub_word_ids s ++ [sep]) <$> sentences)).
Proof.
  intros Hn Hne Hrows. unfold BertTokenizer.bert_encode.
  rewrite (get_encoded_sentence_ok _ _ Hrows). cbn [mbind result_bind].
  assert (FullTokenizer.convert_tokens_to_ids (BertTokenizer.tokenizer self)
            [py "[CLS]"] = Ok [cls]) as ->.
  { unfold FullTokenizer.convert_tokens_to_ids, convert_by_vocab.
    cbn [for_ BertTokenizer.tokenizer BertTokenizer.init FullTokenizer.vocab
         FullTokenizer.init]. by rewrite Hcls. }
  cbn [mbind result_bind].
  assert (Hlen : sentences ≠ []).
  { intros ->. apply Forall2_nil_inv_r in Hrows. done. }
  rewrite bool_decide_eq_false_2 by (by destruct sentences).
  rewrite zip_with_replicate_l by (by rewrite length_fmap).
  rewrite <-list_fmap_compose.
  change (app [cls] ∘ (λ s, sub_word_ids s ++ [sep]))
    with (λ s, cls :: sub_word_ids s ++ [sep]).
  set (rows := (λ s, cls :: sub_word_ids s ++ [sep]) <$> sentences).
  rewrite to_tensor_lengths.
  rewrite max_list_replicate.
  2: { unfold rows. rewrite length_fmap. destruct sentences; [done|cbn; lia]. }
  set (width := max_list (length <$> rows)).
  unfold BertTokenizer.to_tensor. fold width.
  cbn [BertTokenizer.max_sequence_length BertTokenizer.init].
  case_bool_decide as Hwidth.
  - f_equal. rewrite <-list_fmap_compose. apply list_fmap_ext.
    intros _ row _. cbn. unfold slice_to.
    by rewrite bool_decide_eq_false_2 by lia.
  - f_equal. apply list_fmap_ext. intros i row Hrow. cbn.
    rewrite take_ge; [done|].
    rewrite length_app, length_replicate.
    assert (length row ≤ width)%nat; [|lia].
    apply max_list_elem_of_le, list_elem_of_fmap. exists row.
    split; [done|]. by eapply list_elem_of_lookup_2.
Qed.

End bert_encode.
(** C8 as stated fails: in a batch the shorter sentence is padded with 0
    up to the longest one, so its row is not its framed ids cut to the
    maximum length. *)
Lemma bert_encode_pads_short_rows :
  BertTokenizer.bert_encode (U := ascii_db)
    (BertTokenizer.init (U := ascii_db) small_vocab_file 8)
    [[Str (py "hello")]; [Str (py "hello world")]]
  = Ok [[1; 3; 2; 0]; [1; 3; 4; 2]] ∧
  sub_word_ids (U := ascii_db)
    (BertTokenizer.init (U := ascii_db) small_vocab_file 8)
    (Str (py "hello")) = [3] ∧
  [1; 3; 2; 0] ≠ framed_row 1 2 [3] 8.
Proof. split_and!; [vm_compute; reflexivity..|vm_compute; discriminate]. Qed.

(** C8, amended.  With the special tokens in the vocabulary, a
    non-negative maximum length [n] and a non-empty batch, the row of each
    sentence is the class id, the sub-word ids and the separator id, padded
    with 0 to the longest such sequence of the batch, and cut to its first
    [n] entries.  A row whose sub-word count plus 2 exceeds [n] is the
    first [n] of its framed ids and has length exactly [n]; so is the row
    of a sentence encoded alone. *)
Theorem bert_encode_rows {U : unicodedata} (vocab_file : list (list N))
    (n cls sep : Z) (input_tensor : list (list pytext))
    (sentences : list pytext) :
  is_Some (load_vocab vocab_file !! py "[UNK]") →
  load_vocab vocab_file !! py "[CLS]" = Some cls →
  load_vocab vocab_file !! py "[SEP]" = Some sep →
  0 ≤ n →
  input_tensor ≠ [] →
  Forall2 (λ row s, head row = Some s) input_tensor sentences →
  (∀ s,
     FullTokenizer.convert_tokens_to_ids
       (BertTokenizer.tokenizer (BertTokenizer.init vocab_file n))
       (FullTokenizer.tokenize
          (BertTokenizer.tokenizer (BertTokenizer.init vocab_file n)) s)
     = Ok (sub_word_ids (BertTokenizer.init vocab_file n) s)) ∧
  ∃ width,
    width
    = max_list
        ((λ s,
            (length (sub_word_ids (BertTokenizer.init vocab_file n) s) + 2)%nat)
           <$> sentences) ∧
    BertTokenizer.bert_encode (BertTokenizer.init vocab_file n) input_tensor
    = Ok ((λ s, padded_row cls sep
                  (sub_word_ids (BertTokenizer.init vocab_file n) s) width n)
            <$> sentences) ∧
    (∀ s, s ∈ sentences →
       n < Z.of_nat (length (sub_word_ids (BertTokenizer.init vocab_file n) s))
           + 2 →
       padded_row cls sep
         (sub_word_ids (BertTokenizer.init vocab_file n) s) width n
       = framed_row cls sep
           (sub_word_ids (BertTokenizer.init vocab_file n) s) n ∧
       Z.of_nat (length (framed_row cls sep
                   (sub_word_ids (BertTokenizer.init vocab_file n) s) n))
       = n) ∧
    (∀ s, sentences = [s] →
       padded_row cls sep
         (sub_word_ids (BertTokenizer.init vocab_file n) s) width n
       = framed_row cls sep
           (sub_word_ids (BertTokenizer.init vocab_file n) s) n).
Proof.
  intros Hunk Hcls Hsep Hn Hne Hrows. split.
  { intros s. by destruct (encode_sentence_ok vocab_file n sep Hunk Hsep s). }
  pose (self := BertTokenizer.init vocab_file n).
  exists (max_list (length <$>
            ((λ s, cls :: sub_word_ids self s ++ [sep]) <$> sentences))).
  assert (Hframed : ∀ ids : list Z,
            length (cls :: ids ++ [sep]) = (length ids + 2)%nat).
  { intros ids. cbn. rewrite length_app. cbn. lia. }
  split_and!.
  - f_equal. rewrite <-list_fmap_compose. apply list_fmap_ext.
    intros _ s _. cbn [compose]. apply Hframed.
  - rewrite (bert_encode_ok vocab_file n cls sep Hunk Hcls Hsep
               input_tensor sentences) by done.
    f_equal. rewrite <-list_fmap_compose. apply list_fmap_ext.
    intros _ s _. cbn [compose]. unfold padded_row. by rewrite Hframed.
  - intros s _ Hlong. unfold padded_row, framed_row. split.
    + apply take_app_le. rewrite Hframed. lia.
    + rewrite length_take, Hframed. lia.
  - intros s ->. unfold padded_row, framed_row.
    cbn [fmap list_fmap max_list]. rewrite Hframed, Nat.max_0_r, Nat.sub_diag.
    cbn [replicate]. by rewrite app_nil_r.
Qed.

Lemma bert_encode_rows_witness :
  BertTokenizer.bert_encode (U := ascii_db)
    (BertTokenizer.init (U := ascii_db) small_vocab_file 3)
    [[Str (py "Hello, world")]; [Bytes (py "hello")]]
  = Ok [[1; 3; 5]; [1; 3; 2]] ∧
  BertTokenizer.bert_encode (U := ascii_db)
    (BertTokenizer.init (U := ascii_db) small_vocab_file 3)
    [[Str (py "Hello, world")]]
  = Ok [framed_row 1 2 [3; 5; 4] 3].
Proof.
  split.
  - destruct (bert_encode_rows (U := ascii_db) small_vocab_file 3 1 2
                [[Str (py "Hello, world")]; [Bytes (py "hello")]]
                [Str (py "Hello, world"); Bytes (py "hello")])
      as (_ & width & _ & Hrows & Hlong & _).
    + vm_compute. eauto.
    + vm_compute. reflexivity.
    + vm_compute. reflexivity.
    + lia.
    + discriminate.
    + repeat constructor.
    + rewrite Hrows. cbn [fmap list_fmap].
      destruct (Hlong (Str (py "Hello, world"))) as [-> _];
        [repeat constructor|vm_compute; reflexivity|].
      reflexivity.
  - destruct (bert_encode_rows (U := ascii_db) small_vocab_file 3 1 2
                [[Str (py "Hello, world")]] [Str (py "Hello, world")])
      as (_ & width & _ & Hrows & _ & Hone);
      [vm_compute; eauto|vm_compute; reflexivity..|lia|discriminate
      |repeat constructor|].
    rewrite Hrows. cbn [fmap list_fmap]. by rewrite (Hone _ eq_refl).
Defined.
(** C1.  The mask that [call] returns is [tf.zeros_like(input_word_ids)]:
    it has the shape of the ids and every entry is 0, at the positions of
    real tokens as well as at the padding. *)
Theorem bert_tokenizer_mask_all_zero {U : unicodedata}
    (self : BertTokenizer.t) (inputs : list (list pytext))
    (input_word_ids input_mask input_type_ids : list (list Z)) :
  BertTokenizer.call self inputs
  = Ok (input_word_ids, input_mask, input_type_ids) →
  BertTokenizer.bert_encode self inputs = Ok input_word_ids ∧
  length <$> input_mask = length <$> input_word_ids ∧
  Forall (Forall (λ m, m = 0)) input_mask.
Proof.
  unfold BertTokenizer.call.
  destruct (BertTokenizer.bert_encode self inputs) as [ids|e]; [|done].
  cbn [mbind result_bind]. intros [= <- <- <-]. split_and!; [done| |].
  - unfold BertTokenizer.zeros_like. rewrite <-list_fmap_compose.
    apply list_fmap_ext. intros _ row _. cbn. apply length_fmap.
  - unfold BertTokenizer.zeros_like. apply Forall_fmap, Forall_forall.
    intros row _. cbn. apply Forall_fmap, Forall_forall. by intros m _.
Qed.

Lemma bert_tokenizer_mask_all_zero_witness :
  BertTokenizer.call (U := ascii_db)
    (BertTokenizer.init (U := ascii_db) small_vocab_file 8)
    [[Str (py "hello")]; [Str (py "hello world")]]
  = Ok ([[1; 3; 2; 0]; [1; 3; 4; 2]],
        [[0; 0; 0; 0]; [0; 0; 0; 0]],
        [[0; 0; 0; 0]; [0; 0; 0; 0]]) ∧
  Forall (Forall (λ m, m = 0)) [[0; 0; 0; 0]; [0; 0; 0; 0]].
Proof.
  split; [vm_compute; reflexivity|].
  apply (bert_tokenizer_mask_all_zero (U := ascii_db)
           (BertTokenizer.init (U := ascii_db) small_vocab_file 8)
           [[Str (py "hello")]; [Str (py "hello world")]]
           [[1; 3; 2; 0]; [1; 3; 4; 2]]
           [[0; 0; 0; 0]; [0; 0; 0; 0]]
           [[0; 0; 0; 0]; [0; 0; 0; 0]]).
  vm_compute. reflexivity.
Defined.

(** ** Splitting and joining on whitespace *)

Lemma lstrip_spec (s : list N) :
  ∃ ws, s = ws ++ lstrip s ∧ Forall (λ c, isspace c = true) ws.
Proof.
  induction s as [|c s (ws & Hs & Hws)]; [by exists []|].
  cbn [lstrip]. destruct (isspace c) eqn:Hc.
  - exists (c :: ws). split; [by rewrite Hs at 1|by constructor].
  - by exists [].
Qed.

Lemma rstrip_spec (s : list N) :
  ∃ ws, s = rstrip s ++ ws ∧ Forall (λ c, isspace c = true) ws.
Proof.
  unfold rstrip. destruct (lstrip_spec (reverse s)) as (ws & Hs & Hws).
  exists (reverse ws). split; [|by apply Forall_reverse].
  rewrite <-reverse_app, <-Hs. by rewrite reverse_involutive.
Qed.

Lemma split_from_ws_prefix (ws s : list N) :
  Forall (λ c, isspace c = true) ws →
  split_from [] (ws ++ s) = split_from [] s.
Proof.
  induction 1 as [|c ws Hc _ IH]; [done|].
  cbn [app split_from]. rewrite Hc. by rewrite bool_decide_eq_true_2.
Qed.

Lemma split_from_ws_suffix (cur s ws : list N) :
  Forall (λ c, isspace c = true) ws →
  split_from cur (s ++ ws) = split_from cur s.
Proof.
  intros Hws. revert cur. induction s as [|c s IH]; intros cur.
  - cbn [app]. revert cur. induction Hws as [|c ws Hc _ IH]; intros cur;
      [done|].
    cbn [split_from]. rewrite Hc. rewrite (IH []).
    cbn [split_from]. by case_bool_decide.
  - cbn [app split_from]. destruct (isspace c); [|apply IH].
    by rewrite (IH []).
Qed.

Lemma split_strip (s : list N) : split (strip s) = split s.
Proof.
  unfold split, strip.
  destruct (lstrip_spec s) as (ws1 & Hs1 & Hws1).
  destruct (rstrip_spec (lstrip s)) as (ws2 & Hs2 & Hws2).
  rewrite Hs1 at 2. rewrite split_from_ws_prefix by done.
  rewrite Hs2 at 2. by rewrite split_from_ws_suffix.
Qed.

Lemma whitespace_tokenize_split (text : list N) :
  whitespace_tokenize text = split text.
Proof.
  unfold whitespace_tokenize. rewrite <-(split_strip text).
  case_bool_decide as He; [by rewrite He|done].
Qed.

Lemma split_from_sep (cur s1 s2 : list N) (c : N) :
  isspace c = true →
  split_from cur (s1 ++ c :: s2) = split_from cur s1 ++ split_from [] s2.
Proof.
  intros Hc. revert cur. induction s1 as [|d s1 IH]; intros cur.
  - cbn [app split_from]. rewrite Hc. by case_bool_decide.
  - cbn [app split_from]. destruct (isspace d); [|apply IH].
    rewrite (IH []). by case_bool_decide.
Qed.

Lemma split_join (l : list (list N)) :
  split (join (py " ") l) = l ≫= split.
Proof.
  induction l as [|x l IH]; [done|].
  destruct l as [|y l].
  - cbn [join]. rewrite bind_cons. cbn [mbind list_bind].
    by rewrite app_nil_r.
  - change (join (py " ") (x :: y :: l))
      with (x ++ 32%N :: join (py " ") (y :: l)).
    unfold split at 1. rewrite split_from_sep by done.
    fold (split x). fold (split (join (py " ") (y :: l))).
    by rewrite IH.
Qed.

Lemma whitespace_tokenize_join (l : list (list N)) :
  whitespace_tokenize (join (py " ") l) = l ≫= whitespace_tokenize.
Proof.
  rewrite whitespace_tokenize_split, split_join.
  apply list_bind_ext; [|done]. intros t.
  by rewrite whitespace_tokenize_split.
Qed.

Lemma bind_stage_a (toks : list (list N)) :
  Forall stage_a_token toks → toks ≫= whitespace_tokenize = toks.
Proof.
  induction 1 as [|t toks Ht _ IH]; [done|].
  rewrite bind_cons, IH. by rewrite whitespace_tokenize_stage_a.
Qed.

(** X1.  [whitespace_tokenize] undoes [" ".join]: joining tokens that are
    non-empty and free of whitespace with single spaces and tokenizing the
    result gives the tokens back; so tokenizing the joined output of
    [whitespace_tokenize] changes nothing.  For arbitrary strings, the
    tokens of the joined text are the tokens of the strings, in order. *)
Theorem whitespace_tokenize_join_roundtrip (toks : list (list N)) :
  Forall stage_a_token toks →
  whitespace_tokenize (join (py " ") toks) = toks ∧
  (∀ text,
     whitespace_tokenize (join (py " ") (whitespace_tokenize text))
     = whitespace_tokenize text) ∧
  (∀ l, whitespace_tokenize (join (py " ") l) = l ≫= whitespace_tokenize).
Proof.
  intros Htoks. split_and!.
  - by rewrite whitespace_tokenize_join, bind_stage_a.
  - intros text. rewrite whitespace_tokenize_join.
    apply bind_stage_a, whitespace_tokenize_tokens.
  - apply whitespace_tokenize_join.
Qed.

Lemma whitespace_tokenize_join_roundtrip_witness :
  whitespace_tokenize (join (py " ") [py "hello"; py ","; py "world"])
  = [py "hello"; py ","; py "world"].
Proof.
  apply (whitespace_tokenize_join_roundtrip [py "hello"; py ","; py "world"]).
  repeat constructor; try discriminate.
Defined.

(** ** BasicTokenizer: splitting on punctuation *)

Lemma append_to_last_snoc (init : list (list N)) (last : list N) (char : N) :
  BasicTokenizer.append_to_last (init ++ [last]) char
  = init ++ [last ++ [char]].
Proof.
  unfold BasicTokenizer.append_to_last.
  by rewrite reverse_snoc, reverse_involutive.
Qed.

Section split_on_punc.
Context {U : unicodedata}.

Lemma is_word_not_punc (w : list N) : is_word w → ¬ is_punc w.
Proof.
  intros [_ Hw] (c & -> & Hc). apply Forall_inv in Hw. congruence.
Qed.

Lemma no_adjacent_words_snoc (out : list (list N)) (q : list N) :
  no_adjacent_words out →
  (∀ p, last out = Some p → is_punc p ∨ is_punc q) →
  no_adjacent_words (out ++ [q]).
Proof.
  intros Hout Hlast i p q' Hp Hq.
  apply lookup_lt_Some in Hq as Hlt. rewrite length_app in Hlt. cbn in Hlt.
  destruct (decide (S i < length out)%nat) as [Hi|Hi].
  - rewrite lookup_app_l in Hp by lia. rewrite lookup_app_l in Hq by lia.
    by apply (Hout i).
  - rewrite lookup_app_l in Hp by lia. rewrite lookup_app_r in Hq by lia.
    replace (S i - length out)%nat with 0%nat in Hq by lia.
    injection Hq as <-. apply Hlast. rewrite last_lookup, <-Hp.
    f_equal. lia.
Qed.

Lemma no_adjacent_words_grow (init : list (list N)) (w w' : list N) :
  no_adjacent_words (init ++ [w]) → is_word w →
  no_adjacent_words (init ++ [w']).
Proof.
  intros Hout Hw. apply no_adjacent_words_snoc.
  - intros i p q Hp Hq. apply lookup_lt_Some in Hq as Hlt.
    apply (Hout i); by rewrite lookup_app_l by lia.
  - intros p Hp. left. rewrite last_lookup in Hp.
    apply lookup_lt_Some in Hp as Hlt.
    destruct (Hout (pred (length init)) p w) as [?|Hpw]; [| |done|].
    + by rewrite lookup_app_l by lia.
    + rewrite lookup_app_r by lia.
      by replace (S (pred (length init)) - length init)%nat
        with 0%nat by lia.
    + by apply is_word_not_punc in Hpw.
Qed.

Lemma split_on_punc_step_inv (seen : list N) (st : bool * list (list N))
    (char : N) :
  split_on_punc_inv seen st →
  split_on_punc_inv (seen ++ [char])
    (BasicTokenizer.split_on_punc_step st char).
Proof.
  destruct st as [snw out]. intros (Hcat & Hall & Hadj & Hlast).
  cbn [fst snd] in *. unfold BasicTokenizer.split_on_punc_step.
  destruct (_is_punctuation char) eqn:Hc.
  - assert (is_punc [char]) by by exists char.
    split_and!; cbn [fst snd].
    + rewrite concat_app, Hcat. cbn. by rewrite ?app_nil_r.
    + apply Forall_app. split; [done|]. constructor; [by left|done].
    + apply no_adjacent_words_snoc; [done|]. by right.
    + intros p. rewrite last_snoc. by intros [= <-].
  - assert (Hw : ∀ w, Forall (λ c, _is_punctuation c = false) w →
                      is_word (w ++ [char])).
    { intros w Hw. split; [by destruct w|].
      apply Forall_app. split; [done|]. by constructor. }
    destruct snw.
    + rewrite (append_to_last_snoc out [] char). cbn [app].
      split_and!; cbn [fst snd].
      * rewrite concat_app, Hcat. cbn. by rewrite ?app_nil_r.
      * apply Forall_app. split; [done|].
        constructor; [right; by apply (Hw [])|done].
      * apply no_adjacent_words_snoc; [done|]. intros p Hp. left. eauto.
      * exists out, [char]. split; [done|]. by apply (Hw []).
    + destruct Hlast as (init & w & -> & Hword).
      rewrite append_to_last_snoc.
      apply Forall_app in Hall as [Hinit _].
      split_and!; cbn [fst snd].
      * rewrite concat_app in Hcat. rewrite concat_app, <-Hcat. cbn.
        by rewrite ?app_nil_r, ?app_assoc.
      * apply Forall_app. split; [done|].
        constructor; [right; apply Hw, Hword|done].
      * by apply (no_adjacent_words_grow init w).
      * exists init, (w ++ [char]). split; [done|]. apply Hw, Hword.
Qed.

Lemma split_on_punc_foldl_inv (seen rest : list N)
    (st : bool * list (list N)) :
  split_on_punc_inv seen st →
  split_on_punc_inv (seen ++ rest)
    (foldl BasicTokenizer.split_on_punc_step st rest).
Proof.
  revert seen st. induction rest as [|c rest IH]; intros seen st Hst.
  - by rewrite app_nil_r.
  - cbn [foldl]. rewrite (app_assoc seen [c] rest : seen ++ c :: rest = _).
    by apply IH, split_on_punc_step_inv.
Qed.

Lemma _run_split_on_punc_inv (text : list N) :
  ∃ snw, split_on_punc_inv text
           (snw, BasicTokenizer._run_split_on_punc text).
Proof.
  unfold BasicTokenizer._run_split_on_punc.
  pose proof (split_on_punc_foldl_inv [] text (true, [])) as H.
  destruct (foldl _ _ _) as [snw out]. exists snw. apply H.
  split_and!; cbn; [done|done| |done].
  intros i p q Hp. by rewrite lookup_nil in Hp.
Qed.

End split_on_punc.

Lemma _run_split_on_punc_pieces {U : unicodedata} (text : list N) :
  Forall (λ p, is_punc p ∨ is_word p)
    (BasicTokenizer._run_split_on_punc text).
Proof. by destruct (_run_split_on_punc_inv text) as (snw & _ & H2 & _). Qed.

(** X2.  [_run_split_on_punc] cuts the text without losing or reordering a
    character: the pieces concatenate to the text; each piece is either a
    single punctuation character or a non-empty run without punctuation;
    and two runs are never neighbours, so the runs are maximal. *)
Theorem run_split_on_punc_pieces {U : unicodedata} (text : list N) :
  concat (BasicTokenizer._run_split_on_punc text) = text ∧
  Forall (λ p, is_punc p ∨ is_word p)
    (BasicTokenizer._run_split_on_punc text) ∧
  no_adjacent_words (BasicTokenizer._run_split_on_punc text).
Proof.
  destruct (_run_split_on_punc_inv text) as (snw & H1 & H2 & H3 & _).
  done.
Qed.

Lemma split_from_Forall (P : N → Prop) (cur s : list N) :
  Forall P cur → Forall P s → Forall (Forall P) (split_from cur s).
Proof.
  intros Hcur Hs. revert cur Hcur.
  induction Hs as [|c s Hc Hs IH]; intros cur Hcur; cbn [split_from].
  - case_bool_decide; [done|by constructor].
  - destruct (isspace c).
    + case_bool_decide; [by apply IH|].
      constructor; [done|by apply IH].
    + apply IH, Forall_app. split; [done|by constructor].
Qed.

Lemma whitespace_tokenize_punc_piece {U : unicodedata} (p : list N) :
  is_punc p ∨ is_word p →
  Forall (λ t, is_punc t ∨ is_word t) (whitespace_tokenize p).
Proof.
  rewrite whitespace_tokenize_split. intros [(c & -> & Hc)|[Hne Hw]].
  - unfold split. cbn [split_from].
    destruct (isspace c); cbn; [done|].
    constructor; [|done]. left. by exists c.
  - pose proof (whitespace_tokenize_tokens p) as Hst.
    rewrite whitespace_tokenize_split in Hst.
    pose proof (split_from_Forall _ [] p ltac:(done) Hw) as Hall.
    fold (split p) in Hall. revert Hst Hall.
    generalize (split p). intros l Hst Hall.
    induction Hst as [|t l [Ht _] _ IH]; [done|].
    apply Forall_cons in Hall as [Htw Hall].
    constructor; [by right|by apply IH].
Qed.

(** X3.  With [split_on_punc], every token that [BasicTokenizer.tokenize]
    returns is either a single punctuation character or a non-empty string
    without any punctuation character, and no token contains whitespace. *)
Theorem basic_tokenize_isolates_punctuation {U : unicodedata}
    (self : BasicTokenizer.t) (text : pytext) :
  BasicTokenizer.split_on_punc self = true →
  Forall (λ t, (is_punc t ∨ is_word t) ∧ stage_a_token t)
    (BasicTokenizer.tokenize self text).
Proof.
  intros Hsp.
  apply Forall_and. split; [|apply basic_tokenize_stage_a].
  unfold BasicTokenizer.tokenize. rewrite Hsp.
  rewrite whitespace_tokenize_join.
  apply Forall_bind, Forall_bind, Forall_forall. intros token _.
  eapply Forall_impl; [apply _run_split_on_punc_pieces|].
  intros p Hp. by apply whitespace_tokenize_punc_piece.
Qed.

Lemma basic_tokenize_isolates_punctuation_witness :
  Forall (λ t, (is_punc (U := ascii_db) t ∨ is_word (U := ascii_db) t)
               ∧ stage_a_token t)
    (BasicTokenizer.tokenize (U := ascii_db) (BasicTokenizer.Build true true)
       (Str (py "Hello, world!"))).
Proof.
  apply (basic_tokenize_isolates_punctuation (U := ascii_db)
           (BasicTokenizer.Build true true) (Str (py "Hello, world!"))).
  reflexivity.
Defined.

(** ** WordpieceTokenizer: further properties *)

Lemma split_all_space (s : list N) :
  Forall (λ c, isspace c = true) s → split s = [].
Proof.
  intros Hs. unfold split.
  by rewrite <-(app_nil_r s), split_from_ws_prefix.
Qed.

(** X4.  WordPiece tokenization works word by word: the tokens of two texts
    separated by a whitespace character are the tokens of the first followed
    by the tokens of the second, and a text of whitespace only (the empty
    text included) has no tokens. *)
Theorem wordpiece_tokenize_app {U : unicodedata}
    (self : WordpieceTokenizer.t) (a b : list N) (c : N) :
  isspace c = true →
  WordpieceTokenizer.tokenize self (Str (a ++ c :: b))
  = WordpieceTokenizer.tokenize self (Str a)
    ++ WordpieceTokenizer.tokenize self (Str b) ∧
  (∀ ws, Forall (λ c, isspace c = true) ws →
     WordpieceTokenizer.tokenize self (Str ws) = []).
Proof.
  intros Hc. unfold WordpieceTokenizer.tokenize. cbn [convert_to_unicode].
  split.
  - rewrite !whitespace_tokenize_split. unfold split.
    rewrite split_from_sep by done. by rewrite bind_app.
  - intros ws Hws. by rewrite whitespace_tokenize_split, split_all_space.
Qed.

Lemma wordpiece_tokenize_app_witness :
  WordpieceTokenizer.tokenize (U := ascii_db)
    (WordpieceTokenizer.init unaffable_vocab)
    (Str (py "un" ++ 32%N :: py "unaffable"))
  = WordpieceTokenizer.tokenize (U := ascii_db)
      (WordpieceTokenizer.init unaffable_vocab) (Str (py "un"))
    ++ WordpieceTokenizer.tokenize (U := ascii_db)
         (WordpieceTokenizer.init unaffable_vocab) (Str (py "unaffable")).
Proof.
  apply (wordpiece_tokenize_app (U := ascii_db)
           (WordpieceTokenizer.init unaffable_vocab)
           (py "un") (py "unaffable") 32%N).
  reflexivity.
Defined.

Lemma candidate_whole (chars : list N) :
  WordpieceTokenizer.candidate chars 0 (length chars) = chars.
Proof.
  unfold WordpieceTokenizer.candidate, slice. cbn [drop].
  rewrite bool_decide_eq_false_2 by lia.
  by rewrite Nat.sub_0_r, firstn_all.
Qed.

(** X5.  A word that is itself in the vocabulary is its own single
    sub-token: greedy longest match tries the whole word first. *)
Theorem wordpiece_whole_word {U : unicodedata}
    (self : WordpieceTokenizer.t) (token : list N) :
  stage_a_token token →
  Z.of_nat (length token) ≤ WordpieceTokenizer.max_input_chars_per_word self →
  is_Some (WordpieceTokenizer.vocab self !! token) →
  WordpieceTokenizer.tokenize self (Str token) = [token].
Proof.
  intros Hst Hlen Hin. rewrite tokenize_stage_a by done.
  unfold WordpieceTokenizer.tokenize_token.
  rewrite bool_decide_eq_false_2 by lia.
  destruct Hst as [Hne _].
  assert (0 < length token)%nat by (destruct token; [done|cbn; lia]).
  destruct (length token) as [|n] eqn:Hn; [lia|].
  rewrite <-Hn.
  rewrite Hn at 1.
  rewrite (segment_step self token n 0 (length token)); [| lia | |].
  - rewrite candidate_whole. cbn [app].
    destruct n; cbn [WordpieceTokenizer.segment];
      by rewrite bool_decide_eq_false_2 by lia.
  - by rewrite candidate_whole.
  - intros e' ?. lia.
Qed.

Lemma wordpiece_whole_word_witness :
  WordpieceTokenizer.tokenize (U := ascii_db)
    (WordpieceTokenizer.init unaffable_vocab) (Str (py "##able"))
  = [py "##able"].
Proof.
  apply (wordpiece_whole_word (U := ascii_db)
           (WordpieceTokenizer.init unaffable_vocab) (py "##able")).
  - split; [discriminate|]. repeat constructor.
  - vm_compute. discriminate.
  - vm_compute. eauto.
Defined.

Lemma length_mark_pieces (start : nat) (pieces : list (list N)) :
  length (mark_pieces start pieces) = length pieces.
Proof.
  destruct start, pieces; cbn; by rewrite ?length_fmap.
Qed.

Lemma length_concat_nonempty {A} (pieces : list (list A)) :
  Forall (λ p, p ≠ []) pieces → (length pieces ≤ length (concat pieces))%nat.
Proof.
  induction 1 as [|p pieces Hp _ IH]; [done|].
  cbn. rewrite length_app. destruct p; [done|]. cbn. lia.
Qed.

(** X6.  A word gives at least one sub-token and at most as many sub-tokens
    as it has characters, whether it is segmented or replaced by the
    unknown token; and every token that [tokenize] returns is the unknown
    token or an entry of the vocabulary. *)
Theorem wordpiece_token_count {U : unicodedata}
    (self : WordpieceTokenizer.t) (token : list N) :
  stage_a_token token →
  (1 ≤ length (WordpieceTokenizer.tokenize self (Str token))
     ≤ length token)%nat ∧
  (∀ text,
     Forall (λ t, t = WordpieceTokenizer.unk_token self
                  ∨ is_Some (WordpieceTokenizer.vocab self !! t))
       (WordpieceTokenizer.tokenize self text)).
Proof.
  intros Hst. split; [|apply wordpiece_tokenize_in_vocab].
  rewrite tokenize_stage_a by done. destruct Hst as [Hne _].
  assert (0 < length token)%nat by (destruct token; [done|cbn; lia]).
  unfold WordpieceTokenizer.tokenize_token.
  case_bool_decide; [cbn; lia|].
  destruct (WordpieceTokenizer.segment _ _ _ _ _) as [[[] sub]|] eqn:Hseg;
    [cbn; lia| |].
  - destruct (segment_pieces self token _ 0 [] sub ltac:(lia) Hseg)
      as (pieces & -> & Hcat & Hnon & _).
    cbn [app]. rewrite length_mark_pieces.
    apply length_concat_nonempty in Hnon as Hle.
    rewrite Hcat in Hle. cbn [drop] in Hle. split; [|done].
    destruct pieces; [|cbn; lia]. cbn in Hcat. by subst.
  - pose proof (segment_fuel (WordpieceTokenizer.vocab self) token
                  (length token) 0 [] ltac:(lia)) as [? Hs].
    congruence.
Qed.

Lemma wordpiece_token_count_witness :
  (1 ≤ length (WordpieceTokenizer.tokenize (U := ascii_db)
                 (WordpieceTokenizer.init unaffable_vocab)
                 (Str (py "unaffable"))) ≤ 9)%nat.
Proof.
  apply (wordpiece_token_count (U := ascii_db)
           (WordpieceTokenizer.init unaffable_vocab) (py "unaffable")).
  split; [discriminate|]. repeat constructor.
Defined.

(** ** convert_by_vocab and the inverse vocabulary *)

Section convert_by_vocab.
Context {K V : Type} `{Countable K} (vocab : gmap K V).

Lemma convert_by_vocab_loop (items : list K) (output : list V) :
  (∀ vs, Forall2 (λ t v, vocab !! t = Some v) items vs →
     for_ items (λ item output,
       match vocab !! item with
       | Some v => Ok (output ++ [v])
       | None => Raise KeyError
       end) output = Ok (output ++ vs)) ∧
  ((∃ t, t ∈ items ∧ vocab !! t = None) →
     for_ items (λ item output,
       match vocab !! item with
       | Some v => Ok (output ++ [v])
       | None => Raise KeyError
       end) output = Raise KeyError).
Proof.
  revert output. induction items as [|t items IH]; intros output.
  - split.
    + intros vs Hvs. apply Forall2_nil_inv_l in Hvs as ->.
      by rewrite app_nil_r.
    + intros (t & Ht & _). by apply elem_of_nil in Ht.
  - cbn [for_]. split.
    + intros vs Hvs. apply Forall2_cons_inv_l in Hvs
        as (v & vs' & Hv & Hvs' & ->).
      rewrite Hv. cbn [mbind result_bind].
      rewrite (proj1 (IH _) vs' Hvs'). by rewrite <-app_assoc.
    + intros (t' & Ht' & Hnone).
      destruct (vocab !! t) as [v|] eqn:Hv; [|done].
      cbn [mbind result_bind]. apply IH.
      apply elem_of_cons in Ht' as [->|Ht']; [congruence|eauto].
Qed.

Lemma convert_by_vocab_cases (items : list K) :
  (∃ vs, Forall2 (λ t v, vocab !! t = Some v) items vs) ∨
  (∃ t, t ∈ items ∧ vocab !! t = None).
Proof.
  induction items as [|t items [(vs & Hvs)|(t' & Ht' & Hnone)]].
  - left. by exists [].
  - destruct (vocab !! t) as [v|] eqn:Hv.
    + left. exists (v :: vs). by constructor.
    + right. exists t. split; [left|done].
  - right. exists t'. split; [by right|done].
Qed.

Lemma convert_by_vocab_returns (items : list K) (vs : list V) :
  convert_by_vocab vocab items = Ok vs ↔
  Forall2 (λ t v, vocab !! t = Some v) items vs.
Proof.
  unfold convert_by_vocab. split.
  - intros Hok.
    destruct (convert_by_vocab_cases items) as [(vs' & Hvs')|Hnone].
    + rewrite (proj1 (convert_by_vocab_loop items []) vs' Hvs') in Hok.
      by injection Hok as <-.
    + by rewrite (proj2 (convert_by_vocab_loop items []) Hnone) in Hok.
  - intros Hvs. by rewrite (proj1 (convert_by_vocab_loop items []) vs Hvs).
Qed.

Lemma convert_by_vocab_raises (items : list K) (e : exn) :
  convert_by_vocab vocab items = Raise e ↔
  e = KeyError ∧ ∃ t, t ∈ items ∧ vocab !! t = None.
Proof.
  unfold convert_by_vocab. split.
  - intros Hr.
    destruct (convert_by_vocab_cases items) as [(vs' & Hvs')|Hnone].
    + by rewrite (proj1 (convert_by_vocab_loop items []) vs' Hvs') in Hr.
    + rewrite (proj2 (convert_by_vocab_loop items []) Hnone) in Hr.
      by injection Hr as <-.
  - intros [-> Hnone].
    by rewrite (proj2 (convert_by_vocab_loop items []) Hnone).
Qed.

End convert_by_vocab.

(** X7.  [convert_by_vocab] looks every item up in order: it returns
    exactly when every item is a key, with one value per item, and it
    raises exactly when some item is not a key, and then the exception is
    [KeyError]; no item is skipped or replaced by a default. *)
Theorem convert_by_vocab_total {K V : Type} `{Countable K}
    (vocab : gmap K V) (items : list K) :
  (∀ vs, convert_by_vocab vocab items = Ok vs ↔
     length vs = length items ∧
     ∀ i t, items !! i = Some t → vocab !! t = vs !! i) ∧
  (∀ e, convert_by_vocab vocab items = Raise e ↔
     e = KeyError ∧ ∃ t, t ∈ items ∧ vocab !! t = None).
Proof.
  split; [|apply convert_by_vocab_raises].
  intros vs. rewrite convert_by_vocab_returns. split.
  - intros Hvs. split; [by apply Forall2_length in Hvs|].
    intros i t Ht.
    destruct (Forall2_lookup_l _ _ _ _ _ Hvs Ht) as (v & -> & Hv). done.
  - intros [Hlen Hvs]. apply Forall2_same_length_lookup.
    split; [done|]. intros i t v Ht Hv. by rewrite (Hvs i t Ht).
Qed.

(** ** The inverse vocabulary *)

Lemma load_vocab_inj {U : unicodedata} (reader : list (list N))
    (t1 t2 : list N) (i : Z) :
  load_vocab reader !! t1 = Some i → load_vocab reader !! t2 = Some i →
  t1 = t2.
Proof.
  rewrite !load_vocab_lookup.
  intros (j1 & -> & H1 & _) (j2 & Hj & H2 & _).
  apply Nat2Z.inj in Hj as <-. congruence.
Qed.

Lemma inv_vocab_loop (l : list (list N * Z)) (i : Z) (t : list N) :
  NoDup l.*2 →
  foldl (λ (inv : gmap Z (list N)) '(k, v), <[v := k]> inv) ∅ l !! i
  = Some t ↔ (t, i) ∈ l.
Proof.
  induction l as [|[k v] l IH] using rev_ind.
  - cbn. rewrite lookup_empty. split; [done|]. by intros ?%elem_of_nil.
  - rewrite fmap_app, foldl_app. cbn [foldl fmap list_fmap snd].
    intros (Hl & Hv & _)%NoDup_app.
    rewrite elem_of_app, list_elem_of_singleton.
    destruct (decide (i = v)) as [->|Hne].
    + rewrite lookup_insert_eq. split.
      * intros [= ->]. by right.
      * intros [Hin|Heq]; [|by injection Heq as ->].
        exfalso. apply (Hv v); [|left].
        apply list_elem_of_fmap. by exists (t, v).
    + rewrite lookup_insert_ne by done. rewrite IH by done.
      split; [by left|]. intros [?|Heq]; [done|]. by injection Heq.
Qed.

Lemma inv_vocab_lookup {U : unicodedata} (vocab_file : list (list N))
    (lc sp : bool) (i : Z) (t : list N) :
  inv_vocab (FullTokenizer.init vocab_file lc sp) !! i = Some t ↔
  load_vocab vocab_file !! t = Some i.
Proof.
  unfold inv_vocab. cbn [FullTokenizer.init FullTokenizer.vocab].
  rewrite inv_vocab_loop.
  - apply elem_of_map_to_list.
  - apply NoDup_fmap_2_strong; [|apply NoDup_map_to_list].
    intros [t1 i1] [t2 i2] H1%elem_of_map_to_list H2%elem_of_map_to_list.
    cbn. intros <-. f_equal. by apply (load_vocab_inj vocab_file _ _ i1).
Qed.

(** X8.  [convert_ids_to_tokens] inverts [convert_tokens_to_ids]: in a
    vocabulary read from a file no two tokens have the same id (a repeated
    line only moves the token to its last line number), so the inverse
    vocabulary maps each id back to its token, and converting tokens to
    ids and back returns the tokens, and ids to tokens and back the ids. *)
Theorem convert_ids_to_tokens_roundtrip {U : unicodedata}
    (vocab_file : list (list N)) (lc sp : bool) :
  (∀ t1 t2 i,
     load_vocab vocab_file !! t1 = Some i →
     load_vocab vocab_file !! t2 = Some i → t1 = t2) ∧
  (∀ tokens ids,
     FullTokenizer.convert_tokens_to_ids
       (FullTokenizer.init vocab_file lc sp) tokens = Ok ids ↔
     convert_ids_to_tokens (FullTokenizer.init vocab_file lc sp) ids
     = Ok tokens).
Proof.
  split; [apply load_vocab_inj|]. intros tokens ids.
  unfold FullTokenizer.convert_tokens_to_ids, convert_ids_to_tokens.
  rewrite !convert_by_vocab_returns.
  cbn [FullTokenizer.init FullTokenizer.vocab].
  split; intros Hall; apply Forall2_flip;
    (eapply Forall2_impl; [exact Hall|]); intros x y Hl; cbn in *.
  - by apply inv_vocab_lookup.
  - by apply inv_vocab_lookup in Hl.
Qed.

(** ** BertTokenizer: further properties *)

Lemma load_vocab_id_range {U : unicodedata} (vocab_file : list (list N))
    (t : list N) (i : Z) :
  load_vocab vocab_file !! t = Some i →
  0 ≤ i < Z.of_nat (length (lines_read vocab_file)).
Proof.
  rewrite load_vocab_lookup. intros (j & -> & Hj & _).
  apply lookup_lt_Some in Hj. rewrite length_fmap in Hj. lia.
Qed.

(** X9.  When the vocabulary file has the line [[UNK]], converting the
    tokens of any text to ids never raises: [FullTokenizer.tokenize] only
    returns vocabulary entries.  There is one id per token, and every id
    is the number of a line of the file. *)
Theorem full_tokenizer_ids_in_range {U : unicodedata}
    (vocab_file : list (list N)) (lc sp : bool) (text : pytext) :
  is_Some (load_vocab vocab_file !! py "[UNK]") →
  ∃ ids,
    FullTokenizer.convert_tokens_to_ids (FullTokenizer.init vocab_file lc sp)
      (FullTokenizer.tokenize (FullTokenizer.init vocab_file lc sp) text)
    = Ok ids ∧
    length ids
    = length (FullTokenizer.tokenize
                (FullTokenizer.init vocab_file lc sp) text) ∧
    Forall (λ i, 0 ≤ i < Z.of_nat (length (lines_read vocab_file))) ids.
Proof.
  intros Hunk.
  pose proof (full_tokenize_in_vocab vocab_file lc sp text Hunk) as Htok.
  exists (ids_of (load_vocab vocab_file)
            (FullTokenizer.tokenize
               (FullTokenizer.init vocab_file lc sp) text)).
  split_and!.
  - by apply convert_by_vocab_ok.
  - unfold ids_of. by rewrite length_fmap.
  - unfold ids_of. apply Forall_fmap. eapply Forall_impl; [exact Htok|].
    intros t [i Hi]. cbn. rewrite Hi. cbn.
    by apply (load_vocab_id_range vocab_file t).
Qed.

Lemma full_tokenizer_ids_in_range_witness :
  ∃ ids,
    FullTokenizer.convert_tokens_to_ids
      (FullTokenizer.init (U := ascii_db) small_vocab_file true true)
      (FullTokenizer.tokenize (U := ascii_db)
         (FullTokenizer.init (U := ascii_db) small_vocab_file true true)
         (Str (py "Hello, wide world")))
    = Ok ids ∧
    length ids = 4%nat ∧
    Forall (λ i, 0 ≤ i < 6) ids.
Proof.
  apply (full_tokenizer_ids_in_range (U := ascii_db) small_vocab_file
           true true (Str (py "Hello, wide world"))).
  vm_compute. eauto.
Defined.

Lemma mapM_result_length {A B} (f : A → result B) (l : list A)
    (out : list B) :
  mapM (M := result) f l = Ok out → length out = length l.
Proof.
  revert out. induction l as [|x l IH]; intros out; cbn [mapM].
  - by intros [= <-].
  - destruct (f x) as [y|]; [|done]. cbn [mbind result_bind].
    destruct (mapM f l) as [k|]; [|done]. cbn.
    intros [= <-]. cbn. by rewrite (IH k).
Qed.

Lemma Forall_length_replicate {A} (rows : list (list A)) (w : nat) :
  length <$> rows = replicate (length rows) w →
  Forall (λ r, length r = w) rows.
Proof.
  induction rows as [|r rows IH]; [done|]. cbn.
  intros [= Hr Hrows]. constructor; [done|by apply IH].
Qed.

(** X10.  Whatever [bert_encode] returns is rectangular: it has one row
    per input row, all rows have the same length, and when the maximum
    sequence length is not negative no row is longer than it. *)
Theorem bert_encode_rectangular {U : unicodedata} (self : BertTokenizer.t)
    (input_tensor : list (list pytext)) (out : list (list Z)) :
  BertTokenizer.bert_encode self input_tensor = Ok out →
  length out = length input_tensor ∧
  ∃ width : nat,
    Forall (λ row, length row = width) out ∧
    (0 ≤ BertTokenizer.max_sequence_length self →
     Z.of_nat width ≤ BertTokenizer.max_sequence_length self).
Proof.
  unfold BertTokenizer.bert_encode, BertTokenizer.get_encoded_sentence.
  destruct (mapM _ input_tensor) as [sentence|] eqn:Hs; [|done].
  apply mapM_result_length in Hs. cbn [mbind result_bind].
  destruct (FullTokenizer.convert_tokens_to_ids _ _) as [cls_ids|]; [|done].
  cbn [mbind result_bind]. case_bool_decide; [done|].
  set (rows := zip_with app (replicate (length sentence) cls_ids) sentence).
  assert (Hrows : length (BertTokenizer.to_tensor rows)
                  = length input_tensor).
  { unfold BertTokenizer.to_tensor, rows.
    rewrite length_fmap, length_zip_with, length_replicate. lia. }
  pose proof (to_tensor_lengths rows) as Hlen.
  rewrite Hlen, max_list_replicate.
  2: { unfold rows. rewrite length_zip_with, length_replicate.
       destruct sentence; [done|cbn; lia]. }
  set (width := max_list (length <$> rows)) in *.
  assert (Hall : Forall (λ r, length r = width) (BertTokenizer.to_tensor rows)).
  { apply Forall_length_replicate. rewrite Hlen. f_equal.
    unfold BertTokenizer.to_tensor. by rewrite length_fmap. }
  clearbody width. revert Hrows Hall.
  generalize (BertTokenizer.to_tensor rows). clear. intros dense Hrows Hall.
  case_bool_decide as Hw; intros [= <-].
  - rewrite length_fmap. split; [done|].
    exists (length (slice_to (replicate width 0)
                      (BertTokenizer.max_sequence_length self))).
    split.
    + apply Forall_fmap. eapply Forall_impl; [exact Hall|].
      intros row Hrow. cbn. unfold slice_to.
      rewrite !length_replicate, Hrow.
      case_bool_decide; by rewrite !length_take, length_replicate, Hrow.
    + intros Hn. unfold slice_to.
      rewrite bool_decide_eq_false_2 by lia.
      rewrite length_take, length_replicate. lia.
  - split; [done|]. exists width. split; [done|]. lia.
Qed.

Lemma bert_encode_rectangular_witness :
  length [[1; 3; 2; 0]; [1; 3; 4; 2]]
  = length [[Str (py "hello")]; [Str (py "hello world")]] ∧
  ∃ width : nat,
    Forall (λ row : list Z, length row = width) [[1; 3; 2; 0]; [1; 3; 4; 2]] ∧
    (0 ≤ 8 → Z.of_nat width ≤ 8).
Proof.
  apply (bert_encode_rectangular (U := ascii_db)
           (BertTokenizer.init (U := ascii_db) small_vocab_file 8)
           [[Str (py "hello")]; [Str (py "hello world")]]
           [[1; 3; 2; 0]; [1; 3; 4; 2]]).
  vm_compute. reflexivity.
Defined.

Section bert_errors.
Context {U : unicodedata} (self : BertTokenizer.t).
#[local] Abbreviation bvocab :=
  (FullTokenizer.vocab (BertTokenizer.tokenizer self)).

Lemma encode_sentence_raises (s : pytext) (e : exn) :
  BertTokenizer.encode_sentence self s = Raise e → e = KeyError.
Proof.
  unfold BertTokenizer.encode_sentence, FullTokenizer.convert_tokens_to_ids.
  cbv zeta. by intros [-> _]%convert_by_vocab_raises.
Qed.

Lemma encode_sentence_no_sep (s : pytext) :
  bvocab !! py "[SEP]" = None →
  BertTokenizer.encode_sentence self s = Raise KeyError.
Proof.
  intros Hsep.
  unfold BertTokenizer.encode_sentence, FullTokenizer.convert_tokens_to_ids.
  cbv zeta. apply convert_by_vocab_raises. split; [done|].
  exists (py "[SEP]"). split; [|done]. apply elem_of_app. right. left.
Qed.

Lemma get_encoded_sentence_raises (input_tensor : list (list pytext))
    (e : exn) :
  Forall (λ row, row ≠ []) input_tensor →
  BertTokenizer.get_encoded_sentence self input_tensor = Raise e →
  e = KeyError.
Proof.
  unfold BertTokenizer.get_encoded_sentence.
  induction 1 as [|row rows Hrow _ IH]; [done|]. cbn [mapM].
  destruct row as [|s row]; [done|].
  assert (getitem (s :: row) 0 = Ok s) as -> by done.
  cbn [mbind result_bind].
  destruct (BertTokenizer.encode_sentence self s) as [ids|e'] eqn:He.
  - cbn [mbind result_bind]. destruct (mapM _ rows) as [k|e'']; [done|].
    cbn. intros [= <-]. by apply IH.
  - cbn. intros [= <-]. by apply (encode_sentence_raises s).
Qed.

End bert_errors.

(** X11.  [bert_encode] needs the special tokens in the vocabulary: on a
    batch whose rows are not empty it raises [KeyError] when [[CLS]] is
    missing, and also when [[SEP]] is missing and the batch has a row. *)
Theorem bert_encode_missing_special_token {U : unicodedata}
    (self : BertTokenizer.t) (input_tensor : list (list pytext)) :
  Forall (λ row, row ≠ []) input_tensor →
  (FullTokenizer.vocab (BertTokenizer.tokenizer self) !! py "[CLS]" = None →
   BertTokenizer.bert_encode self input_tensor = Raise KeyError) ∧
  (FullTokenizer.vocab (BertTokenizer.tokenizer self) !! py "[SEP]" = None →
   input_tensor ≠ [] →
   BertTokenizer.bert_encode self input_tensor = Raise KeyError).
Proof.
  intros Hrows. unfold BertTokenizer.bert_encode. split.
  - intros Hcls.
    destruct (BertTokenizer.get_encoded_sentence self input_tensor)
      as [sentence|e] eqn:Hs.
    + cbn [mbind result_bind].
      assert (FullTokenizer.convert_tokens_to_ids
                (BertTokenizer.tokenizer self) [py "[CLS]"]
              = Raise KeyError) as ->; [|done].
      apply convert_by_vocab_raises. split; [done|].
      exists (py "[CLS]"). split; [left|done].
    + by apply get_encoded_sentence_raises in Hs as ->.
  - intros Hsep Hne. destruct Hrows as [|row rows Hrow _]; [done|].
    unfold BertTokenizer.get_encoded_sentence. cbn [mapM].
    destruct row as [|s row]; [done|].
    assert (getitem (s :: row) 0 = Ok s) as -> by done.
    cbn [mbind result_bind]. by rewrite encode_sentence_no_sep.
Qed.

Lemma bert_encode_missing_special_token_witness :
  BertTokenizer.bert_encode (U := ascii_db)
    (BertTokenizer.init (U := ascii_db) [py "[UNK]" ++ nl; py "[SEP]" ++ nl] 8)
    [[Str (py "hello")]]
  = Raise KeyError.
Proof.
  destruct (bert_encode_missing_special_token (U := ascii_db)
              (BertTokenizer.init (U := ascii_db)
                 [py "[UNK]" ++ nl; py "[SEP]" ++ nl] 8)
              [[Str (py "hello")]]) as [Hcls _].
  - repeat constructor. discriminate.
  - apply Hcls. vm_compute. reflexivity.
Defined.

Lemma getitem_take_1 {A} (l : list A) : getitem (take 1 l) 0 = getitem l 0.
Proof. by destruct l as [|x [|y l]]. Qed.

(** X12.  [bert_encode] reads only the first element of each input row:
    the other elements do not change the result.  A batch whose first row
    is empty raises [IndexError]. *)
Theorem bert_encode_reads_first_element {U : unicodedata}
    (self : BertTokenizer.t) (input_tensor : list (list pytext)) :
  BertTokenizer.bert_encode self input_tensor
  = BertTokenizer.bert_encode self (take 1 <$> input_tensor) ∧
  (head input_tensor = Some [] →
   BertTokenizer.bert_encode self input_tensor = Raise IndexError).
Proof.
  unfold BertTokenizer.bert_encode, BertTokenizer.get_encoded_sentence.
  split.
  - assert (mapM (M := result)
              (λ s, s0 ← getitem s 0; BertTokenizer.encode_sentence self s0)
              (take 1 <$> input_tensor)
            = mapM (M := result)
                (λ s, s0 ← getitem s 0; BertTokenizer.encode_sentence self s0)
                input_tensor) as ->; [|done].
    induction input_tensor as [|row rows IH]; [done|].
    cbn [fmap list_fmap mapM]. by rewrite getitem_take_1, IH.
  - destruct input_tensor as [|[|] rows]; by intros [=].
Qed.

(** ** OnDeviceEmbedding: ids outside the vocabulary *)



(** ** MaskedSoftmax: when the call returns *)

Lemma expand_mask_raises {A} (axis : Z) (scores_shape : list nat)
    (mask : tensor A) :
  (length (shape mask) < length scores_shape)%nat →
  ¬ (- Z.of_nat (length (shape mask)) - 1 ≤ axis
     ≤ Z.of_nat (length (shape mask))) →
  MaskedSoftmax.expand_mask axis scores_shape mask
  = Raise InvalidArgumentError.
Proof.
  intros Hlt Haxis. unfold MaskedSoftmax.expand_mask, range.
  destruct (Z.to_nat _) as [|n] eqn:Hn; [lia|].
  cbn [seq fmap list_fmap for_].
  assert (tf.expand_dims mask axis = Raise InvalidArgumentError) as ->;
    [|done].
  unfold tf.expand_dims. cbv zeta. by rewrite bool_decide_eq_false_2.
Qed.

(** X14.  [MaskedSoftmax.call] with a mask returns exactly when the mask
    can be padded to the rank of the scores (it already has that rank or
    more, or the expansion axis is valid for the mask) and the padded mask
    broadcasts against the scores; in every other case it raises
    [InvalidArgumentError]. *)
Theorem masked_scores_returns_iff {R : Type} `{Scalar R}
    (axis : Z) (scores : tensor R) (mask : tensor Z) :
  let padded_ok :=
    (length (shape scores) ≤ length (shape mask))%nat ∨
    - Z.of_nat (length (shape mask)) - 1 ≤ axis
      ≤ Z.of_nat (length (shape mask)) in
  let broadcasts :=
    is_Some (tf.broadcast_shapes (shape scores)
               (shape (padded_mask axis (shape scores) mask))) in
  (is_Ok (MaskedSoftmax.masked_scores axis scores (Some mask))
   ↔ padded_ok ∧ broadcasts) ∧
  (¬ (padded_ok ∧ broadcasts) →
   MaskedSoftmax.masked_scores axis scores (Some mask)
   = Raise InvalidArgumentError).
Proof.
  cbv zeta. unfold MaskedSoftmax.masked_scores.
  destruct (decide ((length (shape scores) ≤ length (shape mask))%nat ∨
                    - Z.of_nat (length (shape mask)) - 1 ≤ axis
                      ≤ Z.of_nat (length (shape mask)))) as [Hpad|Hpad].
  - rewrite expand_mask_shape by done. cbn [mbind result_bind].
    unfold tf.broadcast_op. rewrite !shape_map.
    destruct (tf.broadcast_shapes _ _) as [rs|] eqn:Hrs.
    + split; [|intros []; eauto]. split; [eauto|]. intros _. by eexists.
    + split; [|done]. split; [by intros [? ?]|].
      by intros [_ ?%is_Some_None].
  - rewrite expand_mask_raises by (try lia; intros ?; apply Hpad; by right).
    split; [|done]. split; [by intros [? ?]|]. by intros [? _].
Qed.

Lemma masked_scores_returns_iff_witness :
  MaskedSoftmax.masked_scores (R := Z) 5
    (Tensor [1; 2; 2; 3]%nat [1; 2; 3; 4; 5; 6; 7; 8; 9; 10; 11; 12])
    (Some (Tensor [1; 2; 3]%nat [1; 1; 0; 1; 0; 0]))
  = Raise InvalidArgumentError.
Proof.
  apply (masked_scores_returns_iff (R := Z) 5
           (Tensor [1; 2; 2; 3]%nat [1; 2; 3; 4; 5; 6; 7; 8; 9; 10; 11; 12])
           (Tensor [1; 2; 3]%nat [1; 1; 0; 1; 0; 0])).
  cbn. lia.
Defined.

(** ** SelfAttentionMask *)

Lemma broadcast_dim_1_l (b : nat) : tf.broadcast_dim 1 b = Some b.
Proof.
  unfold tf.broadcast_dim. case_bool_decide; [by subst|].
  by rewrite bool_decide_eq_true_2.
Qed.

Lemma broadcast_dim_1_r (a : nat) : tf.broadcast_dim a 1 = Some a.
Proof. unfold tf.broadcast_dim. by repeat case_bool_decide. Qed.

Lemma broadcast_dim_same (a : nat) : tf.broadcast_dim a a = Some a.
Proof. unfold tf.broadcast_dim. by rewrite bool_decide_eq_true_2. Qed.

Lemma broadcast_index_lt (d i : nat) :
  (i < d)%nat → (if bool_decide (d = 1%nat) then 0%nat else i) = i.
Proof. intros Hi. case_bool_decide; lia. Qed.

Lemma get_replicate {A} (d x : A) (s idx : list nat) :
  valid_index s idx → get d (Tensor s (replicate (numel s) x)) idx = x.
Proof.
  intros Hidx. unfold get. cbn [shape data].
  by rewrite lookup_replicate_2 by by apply ravel_lt.
Qed.

Lemma assert_rank_2_3 {A} (t : tensor A) :
  assert_rank t (Ranks [2; 3])
  = if bool_decide (length (shape t) = 2%nat ∨ length (shape t) = 3%nat)
    then mret () else ValueError.
Proof.
  unfold assert_rank. cbn [foldl].
  destruct (decide (length (shape t) = 2%nat)) as [->|H2].
  { rewrite (bool_decide_eq_true_2 (_ ∨ _)) by by left.
    rewrite bool_decide_eq_false_2; [done|].
    by rewrite lookup_insert_ne, lookup_insert_eq. }
  destruct (decide (length (shape t) = 3%nat)) as [->|H3].
  { rewrite (bool_decide_eq_true_2 (_ ∨ _)) by by right.
    rewrite bool_decide_eq_false_2; [done|]. by rewrite lookup_insert_eq. }
  rewrite (bool_decide_eq_false_2 (_ ∨ _)) by lia.
  rewrite bool_decide_eq_true_2; [done|].
  rewrite !lookup_insert_ne by lia. apply lookup_empty.
Qed.

Lemma assert_rank_int {A} (t : tensor A) (r : nat) :
  assert_rank t (Rank (Z.of_nat r))
  = if bool_decide (length (shape t) = r) then mret () else ValueError.
Proof.
  unfold assert_rank.
  destruct (decide (length (shape t) = r)) as [->|Hr].
  - rewrite (bool_decide_eq_true_2 (_ = r)) by done.
    rewrite bool_decide_eq_false_2; [done|]. by rewrite lookup_insert_eq.
  - rewrite (bool_decide_eq_false_2 (_ = r)) by done.
    rewrite bool_decide_eq_true_2; [done|].
    rewrite lookup_insert_ne by lia. apply lookup_empty.
Qed.

(** X15.  For a [from_tensor] of shape [[B, F]] or [[B, F, W]] and a mask
    of shape [[B, T]], [SelfAttentionMask.call] returns a tensor of shape
    [[B, F, T]] whose entry at [[b, f, t]] is the mask's entry at [[b, t]]
    (cast, and multiplied by one, which is taken to leave the cast entries
    of the mask as they are): the values of [from_tensor] are not read,
    and the mask says which positions may be attended to, not from. *)
Theorem self_attention_mask_entries {R : Type} `{Scalar R}
    (from_tensor : tensor R) (to_mask : tensor Z) (B F T : nat)
    (rest : list nat) :
  shape from_tensor = B :: F :: rest → (length rest ≤ 1)%nat →
  shape to_mask = [B; T] → wf_tensor to_mask →
  Forall (λ m, mul (of_Z 1) (of_Z m) = of_Z m) (data to_mask) →
  ∃ mask,
    SelfAttentionMask.call from_tensor to_mask = Done (Ok mask) ∧
    shape mask = [B; F; T] ∧
    ∀ b f t, (b < B)%nat → (f < F)%nat → (t < T)%nat →
      get (of_Z 0) mask [b; f; t] = of_Z (get 0 to_mask [b; t]).
Proof.
  destruct to_mask as [ms md]. unfold wf_tensor. cbn [shape data].
  intros Hfrom Hrest -> Hwf Hone. cbn [numel foldr] in Hwf.
  unfold SelfAttentionMask.call, get_shape_list.
  rewrite assert_rank_2_3, Hfrom.
  rewrite bool_decide_eq_true_2 by (cbn; lia).
  cbn [mbind checked_bind mret checked_ret].
  unfold tf.shape_of. rewrite Hfrom. cbn [fmap list_fmap shape].
  rewrite (getitem_nonneg _ 0 (Z.of_nat B)) by done.
  rewrite (getitem_nonneg _ 1 (Z.of_nat F)) by done.
  cbn [mbind checked_bind].
  rewrite (assert_rank_int _ 2). cbn [shape length].
  rewrite bool_decide_eq_true_2 by done.
  cbn [mbind checked_bind mret checked_ret].
  rewrite (getitem_nonneg _ 1 (Z.of_nat T)) by done.
  cbn [mbind checked_bind].
  change [Z.of_nat B; 1; Z.of_nat T] with (Z.of_nat <$> [B; 1%nat; T]).
  rewrite reshape_known by (cbn [data numel foldr]; lia).
  cbn [fmap result_fmap mbind checked_bind data].
  unfold ones. change [Z.of_nat B; Z.of_nat F; 1]
    with (Z.of_nat <$> [B; F; 1%nat]).
  rewrite to_nat_of_nat.
  set (x := Tensor [B; F; 1%nat] (replicate (numel [B; F; 1%nat]) (of_Z 1))).
  set (y := tf.cast (R := R) (Tensor [B; 1%nat; T] md)).
  assert (Hbs : tf.broadcast_shapes (shape x) (shape y) = Some [B; F; T]).
  { cbn. by rewrite broadcast_dim_1_l, broadcast_dim_1_r, broadcast_dim_same. }
  destruct (broadcast_op_get mul (of_Z 0) (of_Z 0) (of_Z 0) x y _ Hbs)
    as (out & -> & Hshape & _ & Hget).
  exists out. split_and!; [done|done|]. intros b f t Hb Hf Ht.
  rewrite Hget by (repeat constructor; done).
  assert (Hx : tf.broadcast_index (shape x) [b; f; t] = [b; f; 0]%nat).
  { cbn. rewrite (bool_decide_eq_true_2 (1 = 1)%nat) by done.
    by rewrite !broadcast_index_lt. }
  assert (Hy : tf.broadcast_index (shape y) [b; f; t] = [b; 0; t]%nat).
  { cbn. rewrite (bool_decide_eq_true_2 (1 = 1)%nat) by done.
    by rewrite !broadcast_index_lt. }
  rewrite Hx, Hy. unfold x. rewrite get_replicate.
  2: { constructor; [done|]. constructor; [done|].
       constructor; [|constructor]. apply Nat.lt_0_1. }
  unfold y, tf.cast.
  rewrite (get_fmap _ 0).
  2: { unfold wf_tensor. cbn [data shape numel foldr]. rewrite Hwf.
       clear. lia. }
  2: { constructor; [done|]. constructor; [apply Nat.lt_0_1|].
       constructor; [done|constructor]. }
  assert (get 0 (Tensor [B; 1%nat; T] md) [b; 0%nat; t]
          = get 0 (Tensor [B; T] md) [b; t]) as ->.
  { unfold get. cbn. do 2 f_equal. lia. }
  unfold get. cbn [shape data].
  destruct (lookup_lt_is_Some_2 md (ravel [B; T] [b; t])) as [m Hm].
  { rewrite Hwf. apply (ravel_lt [B; T] [b; t]). repeat constructor; done. }
  rewrite Hm. cbn [default]. rewrite Forall_forall in Hone.
  apply Hone. by eapply list_elem_of_lookup_2.
Qed.

Lemma self_attention_mask_entries_witness :
  ∃ mask,
    SelfAttentionMask.call (R := float32)
      (Tensor [2; 2; 1]%nat (of_Z <$> [7; 8; 9; 10]))
      (Tensor [2; 3]%nat [1; 1; 0; 1; 0; 0])
    = Done (Ok mask) ∧
    shape mask = [2; 2; 3]%nat ∧
    ∀ b f t, (b < 2)%nat → (f < 2)%nat → (t < 3)%nat →
      get (of_Z 0) mask [b; f; t]
      = of_Z (get 0 (Tensor [2; 3]%nat [1; 1; 0; 1; 0; 0]) [b; t]).
Proof.
  assert (Hrest : (length [1%nat] ≤ 1)%nat) by (cbn; lia).
  assert (Hone : Forall (λ m, mul (of_Z (R := float32) 1) (of_Z m) = of_Z m)
                   [1; 1; 0; 1; 0; 0])
    by (repeat constructor; vm_compute; reflexivity).
  exact (self_attention_mask_entries (R := float32)
           (Tensor [2; 2; 1]%nat (of_Z <$> [7; 8; 9; 10]))
           (Tensor [2; 3]%nat [1; 1; 0; 1; 0; 0]) 2 2 3 [1%nat]
           eq_refl Hrest eq_refl eq_refl Hone).
Defined.

(** X16.  [SelfAttentionMask.call] raises [ValueError] when [from_tensor]
    has a rank other than 2 or 3 and, failing that, when the mask has a
    rank other than 2; when the ranks are right but the batch sizes differ
    (and the mask has columns), the reshape of the mask raises
    [InvalidArgumentError]. *)
Theorem self_attention_mask_errors {R : Type} `{Scalar R}
    (from_tensor : tensor R) (to_mask : tensor Z) :
  (length (shape from_tensor) ≠ 2%nat →
   length (shape from_tensor) ≠ 3%nat →
   SelfAttentionMask.call from_tensor to_mask = ValueError) ∧
  (length (shape from_tensor) = 2%nat ∨ length (shape from_tensor) = 3%nat →
   length (shape to_mask) ≠ 2%nat →
   SelfAttentionMask.call from_tensor to_mask = ValueError) ∧
  (∀ B F rest B' T,
     shape from_tensor = B :: F :: rest → (length rest ≤ 1)%nat →
     shape to_mask = [B'; T] → wf_tensor to_mask →
     B' ≠ B → T ≠ 0%nat →
     SelfAttentionMask.call from_tensor to_mask
     = Done (Raise InvalidArgumentError)).
Proof.
  unfold SelfAttentionMask.call, get_shape_list. split_and!.
  - intros H2 H3. rewrite assert_rank_2_3.
    by rewrite bool_decide_eq_false_2 by lia.
  - intros Hfrom Hto. rewrite assert_rank_2_3.
    rewrite bool_decide_eq_true_2 by done.
    cbn [mbind checked_bind mret checked_ret].
    destruct (shape from_tensor) as [|B [|F rest]] eqn:Hs;
      [cbn in Hfrom; lia..|].
    unfold tf.shape_of. rewrite Hs. cbn [fmap list_fmap].
    rewrite (getitem_nonneg _ 0 (Z.of_nat B)) by done.
    rewrite (getitem_nonneg _ 1 (Z.of_nat F)) by done.
    cbn [mbind checked_bind].
    rewrite (assert_rank_int _ 2).
    by rewrite bool_decide_eq_false_2 by done.
  - intros B F rest B' T Hfrom Hrest Hto Hwf HB HT.
    rewrite assert_rank_2_3, Hfrom.
    rewrite bool_decide_eq_true_2 by (cbn; lia).
    cbn [mbind checked_bind mret checked_ret].
    unfold tf.shape_of. rewrite Hfrom, Hto. cbn [fmap list_fmap shape].
    rewrite (getitem_nonneg _ 0 (Z.of_nat B)) by done.
    rewrite (getitem_nonneg _ 1 (Z.of_nat F)) by done.
    cbn [mbind checked_bind].
    rewrite (assert_rank_int _ 2), Hto. cbn [length].
    rewrite bool_decide_eq_true_2 by done.
    cbn [mbind checked_bind mret checked_ret].
    rewrite (getitem_nonneg _ 1 (Z.of_nat T)) by done.
    cbn [mbind checked_bind].
    assert (tf.reshape to_mask [Z.of_nat B; 1; Z.of_nat T]
            = Raise InvalidArgumentError) as ->; [|done].
    unfold tf.reshape. cbv zeta.
    change [Z.of_nat B; 1; Z.of_nat T] with (Z.of_nat <$> [B; 1%nat; T]).
    rewrite filter_known_of_nat, prod_of_nat, Nat2Z.id, Nat.sub_diag.
    rewrite bool_decide_eq_true_2.
    2: { apply Forall_fmap, Forall_forall. intros d _. cbn. lia. }
    rewrite (bool_decide_eq_true_2 (0 = 0)%nat) by done.
    rewrite bool_decide_eq_false_2; [done|].
    unfold wf_tensor in Hwf. rewrite Hwf, Hto. cbn [numel foldr]. nia.
Qed.

Lemma self_attention_mask_errors_witness :
  SelfAttentionMask.call (R := Z)
    (Tensor [4]%nat [7; 8; 9; 10]) (Tensor [2; 3]%nat [1; 1; 0; 1; 0; 0])
  = ValueError ∧
  SelfAttentionMask.call (R := Z)
    (Tensor [2; 2]%nat [7; 8; 9; 10]) (Tensor [6]%nat [1; 1; 0; 1; 0; 0])
  = ValueError ∧
  SelfAttentionMask.call (R := Z)
    (Tensor [2; 2]%nat [7; 8; 9; 10]) (Tensor [3; 2]%nat [1; 1; 0; 1; 0; 0])
  = Done (Raise InvalidArgumentError).
Proof.
  split_and!.
  - destruct (self_attention_mask_errors (R := Z)
                (Tensor [4]%nat [7; 8; 9; 10])
                (Tensor [2; 3]%nat [1; 1; 0; 1; 0; 0])) as (Hfrom & _ & _).
    apply Hfrom; cbn; lia.
  - destruct (self_attention_mask_errors (R := Z)
                (Tensor [2; 2]%nat [7; 8; 9; 10])
                (Tensor [6]%nat [1; 1; 0; 1; 0; 0])) as (_ & Hto & _).
    apply Hto; cbn; lia.
  - destruct (self_attention_mask_errors (R := Z)
                (Tensor [2; 2]%nat [7; 8; 9; 10])
                (Tensor [3; 2]%nat [1; 1; 0; 1; 0; 0])) as (_ & _ & Hbatch).
    apply (Hbatch 2%nat 2%nat [] 3%nat 2%nat);
      (reflexivity || cbn; lia).
Defined.

(** ** PositionEmbedding *)

Lemma broadcast_to_get {A} (d : A) (t : tensor A) (s : list nat) :
  tf.broadcast_shapes (shape t) s = Some s →
  ∃ out, broadcast_to d t (Z.of_nat <$> s) = Ok out ∧ shape out = s ∧
         ∀ idx, valid_index s idx →
           get d out idx = get d t (tf.broadcast_index (shape t) idx).
Proof.
  intros Hbs. unfold broadcast_to. cbv zeta. rewrite to_nat_of_nat.
  rewrite bool_decide_eq_true_2.
  2: { split; [|done]. apply Forall_fmap, Forall_forall. intros n _. cbn. lia. }
  eexists. split_and!; [done|done|]. intros idx Hidx.
  unfold get at 1. cbn [shape data].
  rewrite list_lookup_fmap, lookup_seq_lt by by apply ravel_lt.
  cbn. by rewrite unravel_ravel.
Qed.

Lemma broadcast_to_raises {A} (d : A) (t : tensor A) (s : list nat) :
  tf.broadcast_shapes (shape t) s ≠ Some s →
  broadcast_to d t (Z.of_nat <$> s) = Raise InvalidArgumentError.
Proof.
  intros Hbs. unfold broadcast_to. cbv zeta. rewrite to_nat_of_nat.
  rewrite bool_decide_eq_false_2; [done|]. by intros [_ ?].
Qed.

(** X17.  [PositionEmbedding.call] with dynamic slicing on an input of
    shape [[B, S, W]], a [[L, W]] table and [S <= L] returns a tensor of
    the input's shape whose entry at [[b, s, w]] is the table's entry at
    [[s, w]]: position [s] gets row [s] in every batch element.  Only the
    shape of the input is read, never its values. *)
Theorem position_embedding_entries {R : Type} `{Scalar R}
    (table inputs : tensor R) (L W B S : nat) :
  shape table = [L; W] → wf_tensor table →
  shape inputs = [B; S; W] → (S ≤ L)%nat →
  (∃ out,
     PositionEmbedding.call (PositionEmbedding.Layer true table) inputs
     = Done (Ok out) ∧
     shape out = [B; S; W] ∧
     ∀ b s w, (b < B)%nat → (s < S)%nat → (w < W)%nat →
       get (of_Z 0) out [b; s; w] = get (of_Z 0) table [s; w]) ∧
  (∀ inputs' : tensor R,
     shape inputs' = shape inputs →
     PositionEmbedding.call (PositionEmbedding.Layer true table) inputs'
     = PositionEmbedding.call (PositionEmbedding.Layer true table) inputs).
Proof.
  destruct table as [ts td]. unfold wf_tensor. cbn [shape data].
  intros -> Hwf Hin HS. cbn [numel foldr] in Hwf. split.
  - unfold PositionEmbedding.call, get_shape_list.
    rewrite (assert_rank_int _ 3), Hin. cbn [length].
    rewrite bool_decide_eq_true_2 by done.
    cbn [mbind checked_bind mret checked_ret
         PositionEmbedding._use_dynamic_slicing
         PositionEmbedding._position_embeddings].
    unfold tf.shape_of. rewrite Hin. cbn [fmap list_fmap].
    rewrite (getitem_nonneg _ 1 (Z.of_nat S)) by done.
    cbn [mbind checked_bind]. unfold slice_rows. cbn [shape data].
    rewrite Nat2Z.id, Nat.min_l by done. cbn [mbind checked_bind].
    change [Z.of_nat B; Z.of_nat S; Z.of_nat W]
      with (Z.of_nat <$> [B; S; W]).
    set (rows := Tensor [S; W] (take (S * W) td)).
    assert (Hbs : tf.broadcast_shapes (shape rows) [B; S; W]
                  = Some [B; S; W]).
    { cbn. by rewrite !broadcast_dim_same. }
    destruct (broadcast_to_get (of_Z 0) rows _ Hbs) as (out & -> & Hs & Hget).
    exists out. split_and!; [done|done|]. intros b s w Hb Hs' Hw.
    rewrite Hget by (repeat constructor; done).
    assert (tf.broadcast_index (shape rows) [b; s; w] = [s; w]) as ->.
    { cbn. by rewrite !broadcast_index_lt. }
    unfold get, rows. cbn [shape data ravel numel foldr].
    rewrite lookup_take_lt; [done|]. clear -Hs' Hw HS. nia.
  - intros inputs' Hshape.
    unfold PositionEmbedding.call, get_shape_list, assert_rank, tf.shape_of.
    by rewrite Hshape.
Qed.

Lemma position_embedding_entries_witness :
  ∃ out,
    PositionEmbedding.call (R := Z)
      (PositionEmbedding.Layer true
         (Tensor [3; 2]%nat [10; 11; 20; 21; 30; 31]))
      (Tensor [2; 2; 2]%nat [1; 2; 3; 4; 5; 6; 7; 8])
    = Done (Ok out) ∧
    shape out = [2; 2; 2]%nat ∧
    ∀ b s w, (b < 2)%nat → (s < 2)%nat → (w < 2)%nat →
      get (of_Z 0) out [b; s; w]
      = get (of_Z 0) (Tensor [3; 2]%nat [10; 11; 20; 21; 30; 31]) [s; w].
Proof.
  assert (HS : (2 ≤ 3)%nat) by lia.
  exact (proj1 (position_embedding_entries (R := Z)
                  (Tensor [3; 2]%nat [10; 11; 20; 21; 30; 31])
                  (Tensor [2; 2; 2]%nat [1; 2; 3; 4; 5; 6; 7; 8])
                  3 2 2 2 eq_refl eq_refl eq_refl HS)).
Defined.

(** X18.  [PositionEmbedding.call] rejects what it cannot place: an input
    whose rank is not 3 raises [ValueError]; with dynamic slicing, a
    sequence longer than the table (unless the table has exactly one row,
    which is broadcast) or an input width different from the table's
    (unless the table has width one) raises [InvalidArgumentError]. *)
Theorem position_embedding_errors {R : Type} `{Scalar R}
    (table inputs : tensor R) :
  (length (shape inputs) ≠ 3%nat →
   ∀ dyn, PositionEmbedding.call (PositionEmbedding.Layer dyn table) inputs
          = ValueError) ∧
  (∀ L W B S W',
     shape table = [L; W] → shape inputs = [B; S; W'] →
     ((L < S)%nat ∧ L ≠ 1%nat) ∨ (W ≠ W' ∧ W ≠ 1%nat) →
     PositionEmbedding.call (PositionEmbedding.Layer true table) inputs
     = Done (Raise InvalidArgumentError)).
Proof.
  split.
  - intros Hrank dyn. unfold PositionEmbedding.call, get_shape_list.
    rewrite (assert_rank_int _ 3).
    by rewrite bool_decide_eq_false_2 by done.
  - intros L W B S W' Htable Hin Hbad.
    unfold PositionEmbedding.call, get_shape_list.
    rewrite (assert_rank_int _ 3), Hin. cbn [length].
    rewrite bool_decide_eq_true_2 by done.
    cbn [mbind checked_bind mret checked_ret
         PositionEmbedding._use_dynamic_slicing
         PositionEmbedding._position_embeddings].
    unfold tf.shape_of. rewrite Hin. cbn [fmap list_fmap].
    rewrite (getitem_nonneg _ 1 (Z.of_nat S)) by done.
    cbn [mbind checked_bind]. unfold slice_rows. rewrite Htable.
    rewrite Nat2Z.id. cbn [mbind checked_bind].
    change [Z.of_nat B; Z.of_nat S; Z.of_nat W']
      with (Z.of_nat <$> [B; S; W']).
    rewrite broadcast_to_raises; [done|]. cbn [shape].
    unfold tf.broadcast_shapes. cbn [reverse rev_append tf.broadcast_shapes_rev].
    change (reverse [?a; ?b]) with [b; a].
    intros Hbs.
    destruct (tf.broadcast_dim W W') as [w|] eqn:HW; [|done].
    cbn [mbind option_bind] in Hbs.
    destruct (tf.broadcast_dim (S `min` L) S) as [s|] eqn:HSd; [|done].
    cbn in Hbs. injection Hbs as <- <-.
    unfold tf.broadcast_dim in HW, HSd.
    repeat case_bool_decide; simplify_eq; lia.
Qed.

Lemma position_embedding_errors_witness :
  PositionEmbedding.call (R := Z)
    (PositionEmbedding.Layer true
       (Tensor [3; 2]%nat [10; 11; 20; 21; 30; 31]))
    (Tensor [1; 4; 2]%nat [1; 2; 3; 4; 5; 6; 7; 8])
  = Done (Raise InvalidArgumentError).
Proof.
  destruct (position_embedding_errors (R := Z)
              (Tensor [3; 2]%nat [10; 11; 20; 21; 30; 31])
              (Tensor [1; 4; 2]%nat [1; 2; 3; 4; 5; 6; 7; 8])) as [_ Hbad].
  apply (Hbad 3%nat 2%nat 1%nat 4%nat 2%nat); [reflexivity..|].
  left. lia.
Defined.

(** ** The attention equations *)

Lemma for_app {A St} (l1 l2 : list A) (body : A → St → result St) s :
  for_ (l1 ++ l2) body s = s' ← for_ l1 body s; for_ l2 body s'.
Proof.
  revert s. induction l1 as [|x l1 IH]; intros s; [done|].
  cbn [app for_]. destruct (body x s) as [s'|e]; [apply IH|done].
Qed.

Lemma range_succ (k : Z) : 0 ≤ k → range (k + 1) = range k ++ [k].
Proof.
  intros Hk. unfold range.
  replace (Z.to_nat (k + 1)) with (S (Z.to_nat k)) by lia.
  rewrite seq_S, fmap_app. cbn. do 3 f_equal. lia.
Qed.

Lemma range_nonpos (k : Z) : k ≤ 0 → range k = [].
Proof. intros Hk. unfold range. by replace (Z.to_nat k) with 0%nat by lia. Qed.

Lemma length_range (k : Z) : length (range k) = Z.to_nat k.
Proof. unfold range. by rewrite length_fmap, length_seq. Qed.

Lemma delete_from_seq (obj : list Z) (k n : nat) :
  delete_from (Z.of_nat k) obj (Z.of_nat <$> seq k n)
  = filter (λ i, i ∉ obj) (Z.of_nat <$> seq k n).
Proof.
  revert k. induction n as [|n IH]; intros k; [done|].
  cbn [seq fmap list_fmap delete_from].
  replace (Z.of_nat k + 1) with (Z.of_nat (S k)) by lia. rewrite IH.
  rewrite filter_cons. case_bool_decide; by case_decide.
Qed.

Lemma np_delete_range (r : Z) (obj : list Z) :
  Forall (λ i, 0 ≤ i < r) obj →
  np_delete (range r) obj = Ok (filter (λ i, i ∉ obj) (range r)).
Proof.
  intros Hobj. unfold np_delete. rewrite length_range.
  rewrite bool_decide_eq_true_2
    by (eapply Forall_impl; [exact Hobj|]; intros i Hi; cbn in *; lia).
  f_equal.
  replace ((λ i, if bool_decide (i < 0) then _ else i) <$> obj) with obj.
  - apply (delete_from_seq obj 0).
  - symmetry. rewrite <-(list_fmap_id obj) at 2.
    apply Forall_fmap_ext_1. eapply Forall_impl; [exact Hobj|].
    intros i Hi. cbn in *. by rewrite bool_decide_eq_false_2 by lia.
Qed.

Lemma filter_ext_in {A} (P Q : A → Prop) `{∀ x, Decision (P x)}
    `{∀ x, Decision (Q x)} (l : list A) :
  (∀ x, x ∈ l → P x ↔ Q x) → filter P l = filter Q l.
Proof.
  induction l as [|x l IH]; intros HPQ; [done|].
  rewrite !filter_cons. rewrite IH by (intros y Hy; apply HPQ; by right).
  pose proof (HPQ x ltac:(by left)) as Hx.
  repeat case_decide; tauto.
Qed.

Lemma batch_dims_filter (r : Z) (attn : list Z) :
  1 ≤ r → Forall (λ a, 0 ≤ a < r - 1) attn →
  filter (λ i, i ∉ attn ++ [r - 1]) (range r)
  = filter (λ i, i ∉ attn) (range (r - 1)).
Proof.
  intros Hr Hattn. replace r with (r - 1 + 1) at 1 by lia.
  rewrite range_succ by lia. rewrite filter_app.
  rewrite (filter_cons _ (r - 1)), decide_False, filter_nil, app_nil_r
    by (rewrite elem_of_app, list_elem_of_singleton; tauto).
  apply filter_ext_in. intros i Hi%elem_of_range.
  rewrite elem_of_app, list_elem_of_singleton.
  split; [tauto|]. intros ? [?|?]; [done|lia].
Qed.
Lemma axes_below_succ (attn : list Z) (k : Z) :
  0 ≤ k →
  axes_below attn (k + 1)
  = axes_below attn k + (if bool_decide (k ∈ attn) then 1 else 0).
Proof.
  intros Hk. unfold axes_below. rewrite range_succ, filter_app by done.
  rewrite length_app, filter_cons, filter_nil.
  case_decide; case_bool_decide; try done; cbn [length]; lia.
Qed.

Lemma axes_below_mono (attn : list Z) (k k' : Z) :
  0 ≤ k ≤ k' → axes_below attn k ≤ axes_below attn k'.
Proof.
  intros [Hk Hk']. replace k' with (k + Z.of_nat (Z.to_nat (k' - k))) by lia.
  induction (Z.to_nat (k' - k)) as [|n IH].
  - by rewrite Z.add_0_r.
  - replace (k + Z.of_nat (S n)) with (k + Z.of_nat n + 1) by lia.
    rewrite axes_below_succ by lia. case_bool_decide; lia.
Qed.

Lemma axes_below_lt (attn : list Z) (a k : Z) :
  a ∈ attn → 0 ≤ a < k → axes_below attn a < axes_below attn k.
Proof.
  intros Ha Hak.
  pose proof (axes_below_mono attn (a + 1) k ltac:(lia)) as Hle.
  rewrite axes_below_succ, bool_decide_eq_true_2 in Hle by (done || lia).
  lia.
Qed.

Lemma NoDup_range (r : Z) : NoDup (range r).
Proof. apply NoDup_fmap_2; [apply _|apply NoDup_seq]. Qed.

Lemma axes_below_all (attn : list Z) (r : Z) :
  NoDup attn → Forall (λ a, 0 ≤ a < r) attn →
  axes_below attn r = Z.of_nat (length attn).
Proof.
  intros Hnd Hattn. unfold axes_below. f_equal. apply Permutation_length.
  apply NoDup_Permutation; [apply NoDup_filter, NoDup_range|done|].
  intros a. rewrite list_elem_of_filter, elem_of_range.
  rewrite Forall_forall in Hattn.
  split; [by intros [? _]|]. intros Ha. split; [done|by apply Hattn].
Qed.

Lemma length_filter_not {A} (P : A → Prop) `{∀ x, Decision (P x)}
    (l : list A) :
  (length (filter (λ x, ¬ P x) l) + length (filter P l) = length l)%nat.
Proof.
  induction l as [|x l IH]; [done|]. rewrite !filter_cons.
  destruct (decide (P x)).
  - rewrite decide_False by tauto. cbn [length]. lia.
  - rewrite decide_True by done. cbn [length]. lia.
Qed.
Lemma str_getitem_letter (n i : Z) :
  0 ≤ i < n → i < 26 →
  str_getitem (slice_to ascii_lowercase n) i = Ok [letter i].
Proof.
  intros Hi Hlt. unfold str_getitem, slice_to.
  rewrite bool_decide_eq_false_2 by lia.
  rewrite (getitem_nonneg _ i (letter i)); [done|lia|].
  rewrite lookup_take_lt by lia. apply list_lookup_lookup_total_lt.
  change (length ascii_lowercase) with 26%nat. lia.
Qed.

Lemma str_getitem_letter_raises (n i : Z) :
  0 ≤ n → 26 ≤ i → str_getitem (slice_to ascii_lowercase n) i
                   = Raise IndexError.
Proof.
  intros Hn Hi. unfold str_getitem, slice_to.
  rewrite bool_decide_eq_false_2 by lia.
  rewrite getitem_out_of_range; [done|].
  rewrite length_take. change (length ascii_lowercase) with 26%nat. lia.
Qed.

Lemma slice_to_all (i : Z) :
  str_getitem ascii_lowercase i = str_getitem (slice_to ascii_lowercase 26) i.
Proof. done. Qed.

Section source_notation.
Context (r : Z) (attn : list Z).
Hypothesis Hattn : Forall (λ a, 0 ≤ a < r - 1) attn.

Lemma in_batch_dims (i : Z) :
  0 ≤ i < r →
  i ∈ filter (λ i, i ∉ attn) (range (r - 1)) ∨ i = r - 1 ↔ i ∉ attn.
Proof.
  intros Hi. rewrite list_elem_of_filter, elem_of_range.
  rewrite Forall_forall in Hattn. split.
  - intros [[? _]| ->]; [done|]. intros Hin%Hattn. lia.
  - intros Hin. destruct (decide (i = r - 1)); [by right|left].
    split; [done|lia].
Qed.

Lemma source_notation_step_letter (i : Z) (source_notation : list N) :
  0 ≤ i < r →
  source_notation_step r (filter (λ i, i ∉ attn) (range (r - 1)))
    ascii_lowercase (slice_to ascii_lowercase r) i
    (source_notation, r + axes_below attn i)
  = if bool_decide (source_index r attn i < 26) then
      Ok (source_notation ++ [letter (source_index r attn i)],
          r + axes_below attn (i + 1))
    else Raise IndexError.
Proof.
  intros Hi. unfold source_notation_step, source_index.
  rewrite axes_below_succ by lia.
  pose proof (in_batch_dims i Hi) as Hb.
  assert (0 ≤ axes_below attn i) by (unfold axes_below; lia).
  destruct (decide (i ∈ attn)) as [Hin|Hin].
  - rewrite bool_decide_eq_false_2 by tauto.
    rewrite !(bool_decide_eq_true_2 (i ∈ attn)) by done.
    rewrite slice_to_all, Z.add_assoc. case_bool_decide.
    + by rewrite str_getitem_letter by lia.
    + by rewrite str_getitem_letter_raises by lia.
  - rewrite bool_decide_eq_true_2 by tauto.
    rewrite !(bool_decide_eq_false_2 (i ∈ attn)) by done.
    rewrite Z.add_0_r. case_bool_decide.
    + by rewrite str_getitem_letter by lia.
    + by rewrite str_getitem_letter_raises by lia.
Qed.

Lemma source_notation_loop (k : nat) :
  Z.of_nat k ≤ r →
  for_ (range (Z.of_nat k))
    (source_notation_step r (filter (λ i, i ∉ attn) (range (r - 1)))
       ascii_lowercase (slice_to ascii_lowercase r))
    (empty_str, r)
  = if bool_decide
         (Forall (λ i, source_index r attn i < 26) (range (Z.of_nat k)))
    then Ok (letter ∘ source_index r attn <$> range (Z.of_nat k),
             r + axes_below attn (Z.of_nat k))
    else Raise IndexError.
Proof.
  induction k as [|k IH]; intros Hk.
  - cbn. rewrite bool_decide_eq_true_2 by done.
    by rewrite Z.add_0_r.
  - replace (Z.of_nat (S k)) with (Z.of_nat k + 1) by lia.
    rewrite range_succ, for_app, IH by lia. clear IH.
    case_bool_decide as Hpre.
    + cbn [mbind result_bind for_].
      rewrite source_notation_step_letter by lia.
      case_bool_decide as Hk26.
      * rewrite bool_decide_eq_true_2
          by (apply Forall_app; split; [done|by constructor]).
        cbn. by rewrite fmap_app.
      * rewrite bool_decide_eq_false_2; [done|].
        intros [_ Hl%Forall_inv]%Forall_app. done.
    + rewrite bool_decide_eq_false_2; [done|].
      by intros [? _]%Forall_app.
Qed.

End source_notation.
Lemma mapM_str_getitem (s : list N) (f : Z → N) (l : list Z) :
  Forall (λ i, str_getitem s i = Ok [f i]) l →
  mapM (M := result) (str_getitem s) l = Ok (letters (f <$> l)).
Proof.
  induction 1 as [|i l Hi _ IH]; [done|].
  cbn [mapM]. rewrite Hi, IH. done.
Qed.

Lemma join_letters (l : list N) : join empty_str (letters l) = l.
Proof.
  induction l as [|c l IH]; [done|].
  destruct l as [|d l]; [done|].
  change (join empty_str (letters (c :: d :: l)))
    with (c :: join empty_str (letters (d :: l))).
  by rewrite IH.
Qed.

Lemma lookup_range (r i : Z) :
  0 ≤ i < r → range r !! Z.to_nat i = Some i.
Proof.
  intros Hi. unfold range. rewrite list_lookup_fmap, lookup_seq_lt by lia.
  cbn. f_equal. lia.
Qed.

Lemma str_getitem_fmap_range (f : Z → N) (r i : Z) :
  0 ≤ i < r → str_getitem (f <$> range r) i = Ok [f i].
Proof.
  intros Hi. unfold str_getitem.
  rewrite (getitem_nonneg _ i (f i)); [done|lia|].
  by rewrite list_lookup_fmap, lookup_range.
Qed.

Lemma slice_to_letters (r : Z) :
  0 ≤ r ≤ 26 → slice_to ascii_lowercase r = letter <$> range r.
Proof.
  intros Hr. unfold slice_to. rewrite bool_decide_eq_false_2 by lia.
  replace r with (Z.of_nat (Z.to_nat r)) at 2 by lia.
  assert (Z.to_nat r ≤ 26)%nat as Hn by lia. revert Hn.
  induction (Z.to_nat r) as [|n IH]; intros Hn; [done|].
  replace (Z.of_nat (S n)) with (Z.of_nat n + 1) by lia.
  rewrite range_succ, fmap_app, <-IH by lia.
  rewrite (take_S_r _ _ (letter (Z.of_nat n))); [done|].
  unfold letter. rewrite Nat2Z.id. apply list_lookup_lookup_total_lt.
  change (length ascii_lowercase) with 26%nat. lia.
Qed.

Lemma source_index_bound (r : Z) (attn : list Z) (i : Z) :
  NoDup attn → Forall (λ a, 0 ≤ a < r - 1) attn → 0 ≤ i < r →
  0 ≤ source_index r attn i < r + Z.of_nat (length attn).
Proof.
  intros Hnd Hattn Hi. unfold source_index.
  assert (0 ≤ axes_below attn i) by (unfold axes_below; lia).
  case_bool_decide as Hin; [|lia].
  pose proof (axes_below_lt attn i r Hin Hi) as Hlt.
  rewrite (axes_below_all attn r) in Hlt; [lia|done|].
  eapply Forall_impl; [exact Hattn|]. intros a Ha. cbn in *. lia.
Qed.
Lemma _build_attention_equation_loop (r : Z) (attn : list Z) :
  1 ≤ r → Forall (λ a, 0 ≤ a < r - 1) attn →
  _build_attention_equation r attn
  = '(source_notation, letter_offset) ←
      for_ (range r)
        (source_notation_step r (filter (λ i, i ∉ attn) (range (r - 1)))
           ascii_lowercase (slice_to ascii_lowercase r))
        (empty_str, r);
    batch_letters ←
      mapM (M := result) (str_getitem (slice_to ascii_lowercase r))
        (filter (λ i, i ∉ attn) (range (r - 1)));
    target_letters ←
      mapM (M := result) (str_getitem (slice_to ascii_lowercase r)) attn;
    source_letters ←
      mapM (M := result) (str_getitem source_notation) attn;
    let product_notation :=
      join empty_str (batch_letters ++ target_letters ++ source_letters) in
    Ok (format_equation source_notation (slice_to ascii_lowercase r)
          product_notation,
        format_equation product_notation source_notation
          (slice_to ascii_lowercase r),
        Z.of_nat (length product_notation)).
Proof.
  intros Hr Hattn. unfold _build_attention_equation.
  rewrite np_delete_range, batch_dims_filter; [done..|].
  apply Forall_app. split.
  - eapply Forall_impl; [exact Hattn|]. intros a Ha. cbn in *. lia.
  - constructor; [lia|done].
Qed.

Lemma _build_attention_equation_indices (r : Z) (attn : list Z) :
  1 ≤ r → Forall (λ a, 0 ≤ a < r - 1) attn → NoDup attn →
  r + Z.of_nat (length attn) ≤ 26 →
  let source := source_index r attn <$> range r in
  let product :=
    filter (λ i, i ∉ attn) (range (r - 1)) ++ attn
    ++ (source_index r attn <$> attn) in
  _build_attention_equation r attn
  = Ok (format_equation (letter <$> source) (letter <$> range r)
          (letter <$> product),
        format_equation (letter <$> product) (letter <$> source)
          (letter <$> range r),
        Z.of_nat (length product)).
Proof.
  intros Hr Hattn Hnd H26 source product.
  rewrite _build_attention_equation_loop by done.
  pose proof (source_notation_loop r attn Hattn (Z.to_nat r)) as Hloop.
  rewrite Z2Nat.id in Hloop by lia. rewrite Hloop by lia. clear Hloop.
  rewrite bool_decide_eq_true_2; last first.
  { apply Forall_forall. intros i Hi%elem_of_range.
    pose proof (source_index_bound r attn i Hnd Hattn Hi). lia. }
  cbn [mbind result_bind]. rewrite list_fmap_compose. fold source.
  rewrite slice_to_letters by lia.
  rewrite (mapM_str_getitem _ letter (filter _ _)); last first.
  { apply Forall_forall. intros i [_ Hi%elem_of_range]%list_elem_of_filter.
    apply str_getitem_fmap_range. lia. }
  cbn [mbind result_bind].
  rewrite (mapM_str_getitem (letter <$> range r) letter attn); last first.
  { eapply Forall_impl; [exact Hattn|]. intros a Ha.
    apply str_getitem_fmap_range. cbn in Ha. lia. }
  cbn [mbind result_bind].
  rewrite (mapM_str_getitem _ (letter ∘ source_index r attn) attn);
    last first.
  { eapply Forall_impl; [exact Hattn|]. intros a Ha. unfold source.
    rewrite <-list_fmap_compose.
    apply (str_getitem_fmap_range (letter ∘ _)). cbn in Ha. lia. }
  cbn [mbind result_bind]. unfold letters.
  rewrite (list_fmap_compose (source_index r attn) letter attn).
  rewrite <-!fmap_app.
  rewrite (join_letters (_ <$> _)
           : join empty_str ((λ c, [c]) <$> _) = _).
  fold product. by rewrite length_fmap.
Qed.

(** X19.  For a rank of at least 1, distinct attention axes below the last
    axis and [qkv_rank + len(attn_axes) <= 26], [_build_attention_equation]
    returns.  The query has the first [qkv_rank] letters; the key and value
    have the same letter at every axis that is not an attention axis and,
    at the attention axes in increasing order, the letters that follow; the
    scores have the letters of the axes that are neither attention axes nor
    the last one, then the query's and then the key's letters at the
    attention axes, so their rank is [qkv_rank - 1 + len(attn_axes)]. *)
Theorem build_attention_equation_returns (qkv_rank : Z)
    (attn_axes : list Z) :
  1 ≤ qkv_rank →
  Forall (λ a, 0 ≤ a < qkv_rank - 1) attn_axes →
  NoDup attn_axes →
  qkv_rank + Z.of_nat (length attn_axes) ≤ 26 →
  let target := letter <$> range qkv_rank in
  let source := letter ∘ source_index qkv_rank attn_axes <$> range qkv_rank in
  let product :=
    (letter <$> filter (λ i, i ∉ attn_axes) (range (qkv_rank - 1)))
    ++ (letter <$> attn_axes)
    ++ (letter ∘ source_index qkv_rank attn_axes <$> attn_axes) in
  _build_attention_equation qkv_rank attn_axes
  = Ok (format_equation source target product,
        format_equation product source target,
        qkv_rank - 1 + Z.of_nat (length attn_axes)).
Proof.
  intros Hr Hattn Hnd H26 target source product.
  rewrite _build_attention_equation_indices by done. cbn zeta.
  rewrite !fmap_app, <-!list_fmap_compose. fold target source product.
  do 2 f_equal. rewrite !length_app, !length_fmap.
  pose proof (length_filter_not (.∈ attn_axes) (range (qkv_rank - 1))) as Hc.
  rewrite length_range in Hc.
  pose proof (axes_below_all attn_axes (qkv_rank - 1) Hnd Hattn) as Hall.
  unfold axes_below in Hall. lia.
Qed.

Lemma build_attention_equation_returns_witness :
  _build_attention_equation 4 [1]
  = Ok (py "aecd,abcd->acbe", py "acbe,aecd->abcd", 4).
Proof.
  apply (build_attention_equation_returns 4 [1]); [lia| |apply NoDup_singleton|].
  - constructor; [lia|done].
  - cbn. lia.
Defined.
Lemma source_index_all_bound (r : Z) (attn : list Z) (k : nat) :
  r ≤ 26 →
  Forall (λ i, source_index r attn i < 26) (range (Z.of_nat k)) →
  r + axes_below attn (Z.of_nat k) ≤ 26.
Proof.
  intros Hr. induction k as [|k IH]; [intros _; vm_compute (axes_below _ _); lia|].
  replace (Z.of_nat (S k)) with (Z.of_nat k + 1) by lia.
  rewrite range_succ by lia.
  intros [Hpre Hk%Forall_inv]%Forall_app. specialize (IH Hpre).
  rewrite axes_below_succ by lia. unfold source_index in Hk.
  case_bool_decide; lia.
Qed.

Lemma source_index_overflow (r : Z) (attn : list Z) :
  1 ≤ r → Forall (λ a, 0 ≤ a < r - 1) attn → NoDup attn →
  26 < r + Z.of_nat (length attn) →
  ¬ Forall (λ i, source_index r attn i < 26) (range r).
Proof.
  intros Hr Hattn Hnd H26 Hall.
  destruct (decide (r ≤ 26)) as [Hle|Hgt].
  - pose proof (source_index_all_bound r attn (Z.to_nat r) Hle) as Hb.
    rewrite Z2Nat.id in Hb by lia. specialize (Hb Hall).
    rewrite (axes_below_all attn r) in Hb; [lia|done|].
    eapply Forall_impl; [exact Hattn|]. intros a Ha. cbn in Ha. lia.
  - rewrite Forall_forall in Hall.
    specialize (Hall (r - 1)). rewrite elem_of_range in Hall.
    unfold source_index in Hall.
    rewrite bool_decide_eq_false_2 in Hall; [lia|].
    rewrite Forall_forall in Hattn. intros Hin%Hattn. lia.
Qed.

(** X20.  [_build_attention_equation] runs out of letters: for a rank of
    at least 1 and distinct attention axes below the last axis, it raises
    [IndexError] when [qkv_rank + len(attn_axes)] exceeds 26. *)
Theorem build_attention_equation_overflow (qkv_rank : Z)
    (attn_axes : list Z) :
  1 ≤ qkv_rank →
  Forall (λ a, 0 ≤ a < qkv_rank - 1) attn_axes →
  NoDup attn_axes →
  26 < qkv_rank + Z.of_nat (length attn_axes) →
  _build_attention_equation qkv_rank attn_axes = Raise IndexError.
Proof.
  intros Hr Hattn Hnd H26.
  rewrite _build_attention_equation_loop by done.
  pose proof (source_notation_loop qkv_rank attn_axes Hattn
                (Z.to_nat qkv_rank)) as Hloop.
  rewrite Z2Nat.id in Hloop by lia. rewrite Hloop by lia. clear Hloop.
  rewrite bool_decide_eq_false_2; [done|].
  by apply source_index_overflow.
Qed.

Lemma build_attention_equation_overflow_witness :
  _build_attention_equation 15 (range_from 1 13) = Raise IndexError.
Proof.
  apply (build_attention_equation_overflow 15 (range_from 1 13)).
  - lia.
  - apply Forall_fmap, Forall_forall. intros i Hi%elem_of_range. cbn. lia.
  - apply NoDup_fmap_2; [intros ??; lia|apply NoDup_range].
  - vm_compute. reflexivity.
Defined.
Lemma letter_inj (i j : Z) :
  0 ≤ i < 26 → 0 ≤ j < 26 → letter i = letter j → i = j.
Proof.
  intros Hi Hj Heq.
  pose proof (StronglySorted_lt_NoDup _ sorted_ascii_lowercase) as Hnd.
  assert (length ascii_lowercase = 26%nat) as Hlen by done.
  assert (Z.to_nat i = Z.to_nat j); [|lia].
  apply (NoDup_lookup _ _ _ (letter i) Hnd).
  - apply list_lookup_lookup_total_lt. lia.
  - rewrite Heq. apply list_lookup_lookup_total_lt. lia.
Qed.

Lemma NoDup_letters (l : list Z) :
  Forall (λ i, 0 ≤ i < 26) l → NoDup l → NoDup (letter <$> l).
Proof.
  intros Hl Hnd. rewrite Forall_forall in Hl.
  apply NoDup_fmap_2_strong; [|done].
  intros i j Hi%Hl Hj%Hl. by apply letter_inj.
Qed.

Section source_index.
Context (r : Z) (attn : list Z).
Hypothesis Hattn : Forall (λ a, 0 ≤ a < r - 1) attn.

Lemma source_index_attn (a : Z) :
  a ∈ attn → r ≤ source_index r attn a.
Proof.
  intros Ha. unfold source_index. rewrite bool_decide_eq_true_2 by done.
  unfold axes_below. lia.
Qed.

Lemma source_index_inj (i j : Z) :
  0 ≤ i < r → 0 ≤ j < r →
  source_index r attn i = source_index r attn j → i = j.
Proof.
  intros Hi Hj. unfold source_index.
  assert (0 ≤ axes_below attn i ∧ 0 ≤ axes_below attn j) as [??]
    by (unfold axes_below; lia).
  do 2 case_bool_decide; try lia. intros Heq.
  destruct (Z.lt_trichotomy i j) as [Hlt|[?|Hlt]]; [|done|].
  - pose proof (axes_below_lt attn i j ltac:(done) ltac:(lia)). lia.
  - pose proof (axes_below_lt attn j i ltac:(done) ltac:(lia)). lia.
Qed.

Lemma NoDup_source_index (l : list Z) :
  Forall (λ i, 0 ≤ i < r) l → NoDup l →
  NoDup (source_index r attn <$> l).
Proof.
  intros Hl Hnd. rewrite Forall_forall in Hl.
  apply NoDup_fmap_2_strong; [|done].
  intros i j Hi%Hl Hj%Hl. by apply source_index_inj.
Qed.

Lemma attn_in_range : Forall (λ a, 0 ≤ a < r) attn.
Proof. eapply Forall_impl; [exact Hattn|]. intros a Ha. cbn in Ha. lia. Qed.

Lemma NoDup_product_indices :
  NoDup attn →
  NoDup (filter (λ i, i ∉ attn) (range (r - 1)) ++ attn
         ++ (source_index r attn <$> attn)).
Proof.
  intros Hnd. pose proof attn_in_range as Hin.
  rewrite Forall_forall in Hin.
  apply NoDup_app. split_and!.
  - apply NoDup_filter, NoDup_range.
  - intros i [Hi Hr%elem_of_range]%list_elem_of_filter.
    rewrite elem_of_app, list_elem_of_fmap.
    intros [?|(a & -> & Ha)]; [done|].
    pose proof (source_index_attn a Ha). lia.
  - apply NoDup_app. split_and!; [done| |].
    + intros i Hi%Hin. rewrite list_elem_of_fmap.
      intros (a & -> & Ha). pose proof (source_index_attn a Ha). lia.
    + by apply NoDup_source_index; [apply attn_in_range|].
Qed.

End source_index.
Lemma letter_elem_of (l : list Z) (i : Z) :
  Forall (λ i, 0 ≤ i < 26) l → 0 ≤ i < 26 →
  letter i ∈ letter <$> l ↔ i ∈ l.
Proof.
  intros Hl Hi. rewrite Forall_forall in Hl. rewrite list_elem_of_fmap.
  split; [|by exists i]. intros (j & Heq & Hj).
  by rewrite (letter_inj i j Hi (Hl j Hj) Heq).
Qed.

Lemma target_bound (r : Z) : r ≤ 26 → Forall (λ i, 0 ≤ i < 26) (range r).
Proof. intros Hr. apply Forall_forall. intros i Hi%elem_of_range. lia. Qed.

Section attention_letters.
Context (r : Z) (attn : list Z).
Hypothesis Hr : 1 ≤ r.
Hypothesis Hattn : Forall (λ a, 0 ≤ a < r - 1) attn.
Hypothesis Hnd : NoDup attn.
Hypothesis H26 : r + Z.of_nat (length attn) ≤ 26.

#[local] Abbreviation source := (source_index r attn <$> range r).
#[local] Abbreviation key_axes := (source_index r attn <$> attn).
#[local] Abbreviation product :=
  (filter (λ i, i ∉ attn) (range (r - 1)) ++ attn ++ key_axes).

Lemma key_axes_bound (i : Z) :
  i ∈ key_axes → r ≤ i < r + Z.of_nat (length attn) ∧ i ∈ source.
Proof using Hattn Hnd.
  intros (a & -> & Ha)%list_elem_of_fmap.
  pose proof (attn_in_range r attn Hattn) as Hin.
  rewrite Forall_forall in Hin. specialize (Hin a Ha).
  pose proof (source_index_bound r attn a Hnd Hattn Hin).
  pose proof (source_index_attn r attn a Ha).
  split; [lia|]. apply list_elem_of_fmap. exists a.
  by rewrite elem_of_range.
Qed.

Lemma elem_of_source (i : Z) :
  i ∈ source ↔ (0 ≤ i < r ∧ i ∉ attn) ∨ i ∈ key_axes.
Proof using Hattn Hnd.
  split.
  - intros (j & -> & Hj%elem_of_range)%list_elem_of_fmap.
    destruct (decide (j ∈ attn)) as [Hin|Hin].
    + right. apply list_elem_of_fmap. by exists j.
    + left. unfold source_index.
      by rewrite bool_decide_eq_false_2 by done.
  - intros [[Hi Hin]|Hi]; [|by apply key_axes_bound].
    apply list_elem_of_fmap. exists i. rewrite elem_of_range.
    unfold source_index. by rewrite bool_decide_eq_false_2 by done.
Qed.

Lemma elem_of_product (i : Z) :
  i ∈ product ↔ (0 ≤ i < r - 1 ∧ i ∉ attn) ∨ i ∈ attn ∨ i ∈ key_axes.
Proof using Type.
  rewrite !elem_of_app, list_elem_of_filter, elem_of_range. tauto.
Qed.

Lemma source_bound : Forall (λ i, 0 ≤ i < 26) source.
Proof using Hattn Hnd H26.
  apply Forall_fmap, Forall_forall. intros i Hi%elem_of_range.
  pose proof (source_index_bound r attn i Hnd Hattn Hi).
  change (0 ≤ source_index r attn i < 26). lia.
Qed.

Lemma product_bound : Forall (λ i, 0 ≤ i < 26) product.
Proof using Hr Hattn Hnd H26.
  apply Forall_forall. intros i [[??]|[Hi|Hi]]%elem_of_product; [lia| |].
  - pose proof (attn_in_range r attn Hattn) as Hin.
    rewrite Forall_forall in Hin. specialize (Hin i Hi). cbn in Hin. lia.
  - apply key_axes_bound in Hi. lia.
Qed.

End attention_letters.
(** X21.  Under the same conditions both equations are valid einsum
    equations: no operand repeats a letter and every output letter occurs
    in an input.  The dot product sums over the last axis only: its letter
    is the one letter common to the key and the query that the scores
    lack.  The combination sums over the key's attention axes: their
    letters are the letters of the scores and the value that the output
    lacks. *)
Theorem build_attention_equation_einsum (qkv_rank : Z)
    (attn_axes : list Z) :
  1 ≤ qkv_rank →
  Forall (λ a, 0 ≤ a < qkv_rank - 1) attn_axes →
  NoDup attn_axes →
  qkv_rank + Z.of_nat (length attn_axes) ≤ 26 →
  ∃ source target product,
    _build_attention_equation qkv_rank attn_axes
    = Ok (format_equation source target product,
          format_equation product source target,
          Z.of_nat (length product)) ∧
    NoDup source ∧ NoDup target ∧ NoDup product ∧
    (∀ c, c ∈ product → c ∈ source ∨ c ∈ target) ∧
    (∀ c, c ∈ target → c ∈ product ∨ c ∈ source) ∧
    (∀ c, c ∈ source ∧ c ∈ target ∧ c ∉ product ↔ last target = Some c) ∧
    (∀ c, c ∈ product ∧ c ∈ source ∧ c ∉ target
          ↔ ∃ a, a ∈ attn_axes ∧ source !! Z.to_nat a = Some c).
Proof.
  intros Hr Hattn Hnd H26.
  pose proof (source_bound qkv_rank attn_axes Hattn Hnd H26) as Hsb.
  pose proof (target_bound qkv_rank ltac:(lia)) as Htb.
  pose proof (product_bound qkv_rank attn_axes Hr Hattn Hnd H26) as Hpb.
  pose proof (attn_in_range qkv_rank attn_axes Hattn) as Hin.
  rewrite Forall_forall in Hin.
  pose proof (proj1 (Forall_forall _ _) Hattn) as Hin1. cbn in Hin1.
  exists (letter <$> (source_index qkv_rank attn_axes <$> range qkv_rank)),
    (letter <$> range qkv_rank),
    (letter <$> (filter (λ i, i ∉ attn_axes) (range (qkv_rank - 1))
                 ++ attn_axes
                 ++ (source_index qkv_rank attn_axes <$> attn_axes))).
  split.
  { rewrite _build_attention_equation_indices by done. cbn zeta.
    by rewrite length_fmap. }
  assert (Hlast : last (letter <$> range qkv_rank)
                  = Some (letter (qkv_rank - 1))).
  { replace qkv_rank with (qkv_rank - 1 + 1) at 1 by lia.
    rewrite range_succ, fmap_app by lia. apply last_snoc. }
  assert (Hc : ∀ (P : N → Prop) (l : list Z),
            Forall (λ i, 0 ≤ i < 26) l →
            (∀ i, 0 ≤ i < 26 → i ∈ l → P (letter i)) →
            ∀ c, c ∈ letter <$> l → P c).
  { intros P l Hl HP c (i & -> & Hi)%list_elem_of_fmap.
    rewrite Forall_forall in Hl. by apply HP; [apply Hl|]. }
  split_and!.
  - apply NoDup_letters; [done|].
    apply NoDup_source_index, NoDup_range.
    apply Forall_forall. by intros i Hi%elem_of_range.
  - apply NoDup_letters, NoDup_range. done.
  - apply NoDup_letters; [done|]. by apply NoDup_product_indices.
  - apply Hc; [done|]. intros i Hi.
    rewrite !letter_elem_of, elem_of_product, elem_of_source,
      elem_of_range by done.
    intros [[??]|[Ha%Hin|?]]; [right|right|left; by right]; lia.
  - apply Hc; [done|]. intros i Hi.
    rewrite !letter_elem_of, elem_of_product, elem_of_source,
      elem_of_range by done.
    intros Hlt. destruct (decide (i ∈ attn_axes)); [left; tauto|].
    right. left. done.
  - intros c. rewrite Hlast. split.
    + intros (Hs & (i & -> & Hi)%list_elem_of_fmap & Hp). f_equal. f_equal.
      apply elem_of_range in Hi as Hi'.
      rewrite !letter_elem_of in Hs, Hp by (done || lia).
      apply elem_of_source in Hs; [|done..]. rewrite elem_of_product in Hp.
      destruct Hs as [[_ Hn]|Hk].
      * destruct (decide (i = qkv_rank - 1)); [done|].
        destruct Hp. left. split; [lia|done].
      * destruct Hp. by right; right.
    + intros [= <-].
      rewrite !letter_elem_of, elem_of_product, elem_of_source,
        elem_of_range by (done || lia).
      assert (qkv_rank - 1 ∉ attn_axes) as Hn by (intros ?%Hin1; lia).
      split_and!; [left; split; [lia|done]|lia..|].
      intros [[??]|[?|Hk]]; [lia|done|].
      apply (key_axes_bound qkv_rank attn_axes Hattn Hnd) in Hk. lia.
  - intros c. split.
    + intros ((i & -> & Hi)%list_elem_of_fmap & Hs & Ht).
      rewrite Forall_forall in Hpb. specialize (Hpb i Hi).
      rewrite !letter_elem_of in Hs, Ht by done.
      rewrite elem_of_range in Ht.
      apply elem_of_product in Hi as [[??]|[Ha%Hin|Hk]]; [lia|lia|].
      apply list_elem_of_fmap in Hk as (a & -> & Ha). exists a.
      split; [done|]. specialize (Hin a Ha).
      by rewrite !list_lookup_fmap, lookup_range.
    + intros (a & Ha & Hl). specialize (Hin a Ha).
      rewrite !list_lookup_fmap, lookup_range in Hl by done.
      injection Hl as <-.
      assert (source_index qkv_rank attn_axes a
              ∈ source_index qkv_rank attn_axes <$> attn_axes) as Hk
        by (apply list_elem_of_fmap; by exists a).
      pose proof (key_axes_bound qkv_rank attn_axes Hattn Hnd _ Hk)
        as [Hb Hs].
      rewrite !letter_elem_of, elem_of_product, elem_of_range
        by (done || lia).
      split_and!; [by right; right|done|lia].
Qed.

Lemma build_attention_equation_einsum_witness :
  ∃ source target product,
    _build_attention_equation 4 [1]
    = Ok (format_equation source target product,
          format_equation product source target,
          Z.of_nat (length product)) ∧
    NoDup source ∧ NoDup target ∧ NoDup product ∧
    (∀ c, c ∈ product → c ∈ source ∨ c ∈ target) ∧
    (∀ c, c ∈ target → c ∈ product ∨ c ∈ source) ∧
    (∀ c, c ∈ source ∧ c ∈ target ∧ c ∉ product ↔ last target = Some c) ∧
    (∀ c, c ∈ product ∧ c ∈ source ∧ c ∉ target
          ↔ ∃ a, a ∈ [1] ∧ source !! Z.to_nat a = Some c).
Proof.
  apply (build_attention_equation_einsum 4 [1]);
    [lia| |apply NoDup_singleton|].
  - constructor; [lia|done].
  - cbn. lia.
Defined.
Lemma elem_of_range_from (a b i : Z) : i ∈ range_from a b ↔ a ≤ i < b.
Proof.
  unfold range_from. rewrite list_elem_of_fmap. split.
  - intros (j & -> & Hj%elem_of_range). lia.
  - intros Hi. exists (i - a). rewrite elem_of_range. lia.
Qed.

Lemma length_range_from (a b : Z) :
  length (range_from a b) = Z.to_nat (b - a).
Proof. unfold range_from. by rewrite length_fmap, length_range. Qed.

Lemma NoDup_range_from (a b : Z) : NoDup (range_from a b).
Proof. apply NoDup_fmap_2; [intros ??; lia|apply NoDup_range]. Qed.

Lemma range_from_succ (a b : Z) :
  a ≤ b → range_from a (b + 1) = range_from a b ++ [b].
Proof.
  intros Hab. unfold range_from.
  replace (b + 1 - a) with (b - a + 1) by lia.
  rewrite range_succ, fmap_app by lia. cbn. do 3 f_equal. lia.
Qed.

Lemma range_from_cons (a b : Z) :
  a < b → range_from a b = a :: range_from (a + 1) b.
Proof.
  intros Hab. unfold range_from, range.
  replace (Z.to_nat (b - a)) with (S (Z.to_nat (b - (a + 1)))) by lia.
  cbn [seq fmap list_fmap]. f_equal; [lia|].
  rewrite <-fmap_S_seq, <-!list_fmap_compose.
  apply list_fmap_ext. intros _ i _. cbn. lia.
Qed.

Lemma range_range_from (r : Z) : range r = range_from 0 r.
Proof.
  unfold range_from. rewrite Z.sub_0_r.
  by rewrite <-(list_fmap_id (range r)) at 1.
Qed.
Lemma range_from_app (a b c : Z) :
  a ≤ b ≤ c → range_from a c = range_from a b ++ range_from b c.
Proof.
  intros [Hab Hbc]. replace c with (b + Z.of_nat (Z.to_nat (c - b))) by lia.
  induction (Z.to_nat (c - b)) as [|n IH].
  - rewrite Z.add_0_r. unfold range_from at 3.
    by rewrite (range_nonpos (b - b)), app_nil_r by lia.
  - replace (b + Z.of_nat (S n)) with (b + Z.of_nat n + 1) by lia.
    rewrite !range_from_succ, IH by lia. by rewrite app_assoc.
Qed.

Lemma range_from_nil (a b : Z) : b ≤ a → range_from a b = [].
Proof. intros Hab. unfold range_from. by rewrite range_nonpos by lia. Qed.

Section default_axes.
Context (r : Z).
Hypothesis Hr : 3 ≤ r.

#[local] Abbreviation attn := (range_from 1 (r - 2)).

Lemma default_axes_in_range : Forall (λ a, 0 ≤ a < r - 1) attn.
Proof using Type.
  apply Forall_forall. intros a Ha%elem_of_range_from. lia.
Qed.

Lemma axes_below_default (n : nat) :
  1 + Z.of_nat n ≤ r - 2 → axes_below attn (1 + Z.of_nat n) = Z.of_nat n.
Proof using Type.
  induction n as [|n IH]; intros Hn.
  - change (1 + Z.of_nat 0) with (0 + 1).
    rewrite (axes_below_succ attn 0) by lia.
    rewrite bool_decide_eq_false_2; [done|].
    rewrite elem_of_range_from. lia.
  - replace (1 + Z.of_nat (S n)) with (1 + Z.of_nat n + 1) by lia.
    rewrite axes_below_succ, IH by lia.
    rewrite bool_decide_eq_true_2; [lia|].
    rewrite elem_of_range_from. lia.
Qed.

Lemma source_index_default :
  source_index r attn <$> attn = range_from r (2 * r - 3).
Proof using Type.
  unfold range_from at 2 3. rewrite <-list_fmap_compose.
  replace (2 * r - 3 - r) with (r - 2 - 1) by lia.
  apply list_fmap_ext. intros _ j Hj%list_elem_of_lookup_2%elem_of_range.
  cbn. unfold source_index. rewrite bool_decide_eq_true_2
    by (rewrite elem_of_range_from; lia).
  pose proof (axes_below_default (Z.to_nat j)) as Hb.
  rewrite Z2Nat.id in Hb by lia. rewrite Hb; lia.
Qed.

Lemma range_default : range r = [0] ++ attn ++ [r - 2; r - 1].
Proof using Hr.
  rewrite range_range_from, (range_from_cons 0 r) by lia.
  change (0 + 1) with 1.
  rewrite (range_from_app 1 (r - 2) r) by lia.
  rewrite (range_from_cons (r - 2) r), (range_from_cons (r - 2 + 1) r) by lia.
  rewrite (range_from_nil (r - 2 + 1 + 1) r) by lia.
  cbn [app]. do 4 f_equal. lia.
Qed.

Lemma source_default :
  source_index r attn <$> range r
  = [0] ++ range_from r (2 * r - 3) ++ [r - 2; r - 1].
Proof using Hr.
  rewrite range_default, !fmap_app, source_index_default.
  cbn [fmap list_fmap]. unfold source_index.
  by rewrite !bool_decide_eq_false_2 by (rewrite elem_of_range_from; lia).
Qed.

Lemma filter_not_elem_of_self (l : list Z) : filter (λ i, i ∉ l) l = [].
Proof.
  destruct (filter (λ i, i ∉ l) l) as [|i l'] eqn:Heq; [done|].
  assert (i ∈ filter (λ i, i ∉ l) l) as [Hn Hi]%list_elem_of_filter
    by (rewrite Heq; left).
  done.
Qed.

Lemma batch_dims_default :
  filter (λ i, i ∉ attn) (range (r - 1)) = [0; r - 2].
Proof using Hr.
  rewrite range_range_from, (range_from_cons 0 (r - 1)) by lia.
  change (0 + 1) with 1.
  rewrite (range_from_app 1 (r - 2) (r - 1)) by lia.
  rewrite (range_from_cons (r - 2) (r - 1)) by lia.
  rewrite (range_from_nil (r - 2 + 1) (r - 1)) by lia.
  rewrite filter_cons, filter_app, filter_not_elem_of_self.
  cbn [fmap list_fmap]. rewrite filter_cons, filter_nil.
  rewrite !decide_True by (rewrite elem_of_range_from; lia). done.
Qed.

End default_axes.
(** X22.  [_build_attention] with the default attention axes, for a rank
    of at least 3: the attention axes are [1, ..., qkv_rank - 3].  Up to
    rank 14 the call returns; the key has the letters [qkv_rank, ...,
    2 qkv_rank - 4] at the attention axes, the scores have rank
    [2 qkv_rank - 4] with the batch and head letters first, and the softmax
    normalises the last [qkv_rank - 3] axes of the scores, those of the
    key.  From rank 15 on the call raises [IndexError]. *)
Theorem build_attention_default_axes (qkv_rank : Z) :
  3 ≤ qkv_rank →
  let query := letter <$> range qkv_rank in
  let key :=
    letter <$> [0] ++ range_from qkv_rank (2 * qkv_rank - 3)
               ++ [qkv_rank - 2; qkv_rank - 1] in
  let scores :=
    letter <$> [0; qkv_rank - 2] ++ range_from 1 (qkv_rank - 2)
               ++ range_from qkv_rank (2 * qkv_rank - 3) in
  (qkv_rank ≤ 14 →
   MultiHeadAttention._build_attention None qkv_rank
   = Ok (MultiHeadAttention.Attention
           (range_from 1 (qkv_rank - 2))
           (format_equation key query scores)
           (format_equation scores key query)
           (MaskedSoftmax_init [1]
              (range_from (qkv_rank - 1) (2 * qkv_rank - 4))))) ∧
  (15 ≤ qkv_rank →
   MultiHeadAttention._build_attention None qkv_rank = Raise IndexError).
Proof.
  intros Hr query key scores.
  pose proof (default_axes_in_range qkv_rank) as Hattn.
  pose proof (NoDup_range_from 1 (qkv_rank - 2)) as Hnd.
  pose proof (length_range_from 1 (qkv_rank - 2)) as Hlen.
  unfold MultiHeadAttention._build_attention. split; intros Hle.
  - rewrite _build_attention_equation_indices by (done || lia).
    cbn zeta. cbn [mbind result_bind].
    rewrite source_default, batch_dims_default, source_index_default by done.
    fold query key scores. do 3 f_equal.
    rewrite !length_app, !length_range_from. cbn [length].
    f_equal; lia.
  - assert (_build_attention_equation qkv_rank (range_from 1 (qkv_rank - 2))
            = Raise IndexError) as ->; [|done].
    rewrite _build_attention_equation_loop by (done || lia).
    pose proof (source_notation_loop qkv_rank _ Hattn (Z.to_nat qkv_rank))
      as Hloop.
    rewrite Z2Nat.id in Hloop by lia. rewrite Hloop by lia. clear Hloop.
    rewrite bool_decide_eq_false_2; [done|].
    apply source_index_overflow; [lia|done..|]. rewrite Hlen. lia.
Qed.

Lemma build_attention_default_axes_witness :
  MultiHeadAttention._build_attention None 4
  = Ok (MultiHeadAttention.Attention [1]
          (py "aecd,abcd->acbe") (py "acbe,aecd->abcd")
          (MaskedSoftmax_init [1] [3])).
Proof.
  destruct (build_attention_default_axes 4 ltac:(lia)) as [H _].
  apply H. lia.
Defined.

(** ** MultiCategoryEncoding *)

Lemma encoding_layers_loop
    (acc : list (option MultiCategoryEncoding.StringLookup))
    (encoding : list (list N)) :
  foldl (λ encoding_layers encoding,
    if bool_decide (encoding = NONE) then encoding_layers ++ [None]
    else if bool_decide (encoding = INT) then
      encoding_layers ++ [Some MultiCategoryEncoding.StringLookup_init]
    else if bool_decide (encoding = ONE_HOT) then encoding_layers ++ [None]
    else encoding_layers) acc encoding
  = acc ++ ((λ e, if bool_decide (e = INT)
                  then Some MultiCategoryEncoding.StringLookup_init
                  else None)
            <$> filter known_encoding encoding).
Proof.
  revert acc. induction encoding as [|e encoding IH]; intros acc.
  - by rewrite filter_nil, app_nil_r.
  - cbn [foldl]. rewrite IH, filter_cons. unfold known_encoding.
    repeat case_bool_decide; subst; try done.
    + by rewrite decide_True, fmap_cons, <-app_assoc by tauto.
    + rewrite decide_True, fmap_cons, <-app_assoc by tauto.
      by rewrite bool_decide_eq_true_2.
    + by rewrite decide_True, fmap_cons, <-app_assoc by tauto.
    + by rewrite decide_False by tauto.
Qed.

Lemma output_nodes_loop {A B} (numeric : A → B)
    (lookup : MultiCategoryEncoding.StringLookup → A → B) (acc : list B)
    (layers : list (option MultiCategoryEncoding.StringLookup))
    (split_inputs : list A) :
  foldl (λ output_nodes '(input_node, encoding_layer),
    match encoding_layer with
    | None => output_nodes ++ [numeric input_node]
    | Some encoding_layer =>
        output_nodes ++ [lookup encoding_layer input_node]
    end) acc (zip split_inputs layers)
  = acc ++ zip_with (λ input_node encoding_layer,
      match encoding_layer with
      | None => numeric input_node
      | Some encoding_layer => lookup encoding_layer input_node
      end) split_inputs layers.
Proof.
  revert layers acc.
  induction split_inputs as [|x xs IH]; intros layers acc.
  - by rewrite app_nil_r.
  - destruct layers as [|l layers]; [by rewrite app_nil_r|].
    cbn [zip zip_with foldl]. destruct l; rewrite IH, <-app_assoc; done.
Qed.

Lemma length_filter_le {A} (P : A → Prop) `{∀ x, Decision (P x)}
    (l : list A) :
  (length (filter P l) ≤ length l)%nat.
Proof. pose proof (length_filter_not P l). lia. Qed.

Lemma length_filter_lt {A} (P : A → Prop) `{∀ x, Decision (P x)}
    (l : list A) :
  ¬ Forall P l → (length (filter P l) < length l)%nat.
Proof.
  induction l as [|x l IH]; intros Hl; [by destruct Hl|].
  rewrite filter_cons. pose proof (length_filter_le P l).
  case_decide; cbn [length]; [|lia].
  apply Nat.succ_lt_mono in IH; [done|]. intros Hall. apply Hl.
  by constructor.
Qed.

(** X23.  [MultiCategoryEncoding] skips an encoding name that it does not
    know instead of raising: the layers are those of the known names, in
    order, and [call] pairs them with the first columns.  With known names
    only, column [i] is handled as [encoding[i]] says; otherwise fewer
    nodes are produced than there are columns, the last columns being
    dropped. *)
Theorem multi_category_encoding_columns {A B} (numeric : A → B)
    (lookup : MultiCategoryEncoding.StringLookup → A → B)
    (encoding : list (list N)) (split_inputs : list A) :
  let handle (e : list N) (input_node : A) :=
    if bool_decide (e = INT)
    then lookup MultiCategoryEncoding.StringLookup_init input_node
    else numeric input_node in
  let output_nodes :=
    MultiCategoryEncoding.output_nodes numeric lookup
      (MultiCategoryEncoding.init encoding) split_inputs in
  output_nodes = zip_with handle (filter known_encoding encoding) split_inputs
  ∧ (Forall known_encoding encoding →
     output_nodes = zip_with handle encoding split_inputs)
  ∧ (length split_inputs = length encoding →
     ¬ Forall known_encoding encoding →
     (length output_nodes < length split_inputs)%nat).
Proof.
  intros handle output_nodes.
  assert (Hout : output_nodes
                 = zip_with handle (filter known_encoding encoding)
                     split_inputs).
  { unfold output_nodes, MultiCategoryEncoding.output_nodes.
    unfold MultiCategoryEncoding.init.
    cbn [MultiCategoryEncoding.encoding_layers].
    rewrite output_nodes_loop, encoding_layers_loop. cbn [app].
    rewrite zip_with_fmap_r, <-(zip_with_flip handle).
    apply zip_with_ext; [|done..].
    intros x e. unfold flip, handle. by case_bool_decide. }
  split_and!; [done| |].
  - intros Hall. rewrite Hout. f_equal. clear Hout output_nodes.
    induction Hall as [|e l He _ IH]; [done|].
    rewrite filter_cons, decide_True by done. by rewrite IH.
  - intros Hlen Hall. rewrite Hout, length_zip_with.
    pose proof (length_filter_lt known_encoding encoding Hall). lia.
Qed.

(** ** DenseEinsum.build *)

Lemma length_block (alpha : list N) (start len : Z) :
  0 ≤ start → 0 ≤ len → start + len ≤ Z.of_nat (length alpha) →
  length (block alpha start len) = Z.to_nat len.
Proof.
  intros Hs Hl Hle. unfold block. rewrite length_take, length_drop. lia.
Qed.

(** X24.  [DenseEinsum.build] makes the kernel fit the equation: when
    [0 <= num_summed_dimensions <= rank] and [rank + len(output_shape) <= 13]
    it returns; the input operand has one letter per input axis, the kernel
    operand one letter per axis of [_kernel_shape], which is the last
    [num_summed_dimensions] input dimensions followed by [output_shape];
    the kernel's first letters are the input's last ones, and the output
    has the remaining letters of the input, then those of the kernel. *)
Theorem dense_einsum_build_consistent {D} (_output_shape : list D)
    (_num_summed_dimensions : Z) (input_shape : list D) :
  let rank := length input_shape in
  let summed := Z.to_nat _num_summed_dimensions in
  0 ≤ _num_summed_dimensions ≤ Z.of_nat rank →
  (rank + length _output_shape ≤ 13)%nat →
  ∃ input kernel output,
    DenseEinsum_build _output_shape _num_summed_dimensions input_shape
    = Ok (format_equation input kernel output,
          drop (rank - summed) input_shape ++ _output_shape) ∧
    length input = rank ∧
    length kernel = (summed + length _output_shape)%nat ∧
    take summed kernel = drop (rank - summed) input ∧
    output = take (rank - summed) input ++ drop summed kernel.
Proof.
  intros rank summed Hs Hlen. unfold DenseEinsum_build. fold rank.
  rewrite _build_einsum_string_ok by lia. cbn [mbind result_bind].
  set (f := Z.of_nat rank - _num_summed_dimensions).
  set (b := _num_summed_dimensions).
  set (o := Z.of_nat (length _output_shape)).
  assert (length alphabet_m = 13%nat) as Hm by done.
  assert (length (block alphabet_m 0 f) = (rank - summed)%nat) as Hf
    by (rewrite length_block; lia).
  assert (length (block alphabet_m f b) = summed) as Hb
    by (rewrite length_block; lia).
  assert (length (block alphabet_m (f + b) o) = length _output_shape) as Ho
    by (rewrite length_block; lia).
  eexists _, _, _. split_and!.
  - f_equal. f_equal. unfold slice_from.
    rewrite bool_decide_eq_false_2 by lia. do 2 f_equal. lia.
  - rewrite length_app. lia.
  - rewrite length_app. lia.
  - rewrite take_app_length' by done. by rewrite drop_app_length' by done.
  - rewrite take_app_length' by done. by rewrite drop_app_length' by done.
Qed.

Lemma dense_einsum_build_consistent_witness :
  ∃ input kernel output,
    DenseEinsum_build [64%Z] 1 [8%Z; 16%Z; 32%Z]
    = Ok (format_equation input kernel output, [32%Z; 64%Z]) ∧
    length input = 3%nat ∧ length kernel = 2%nat ∧
    take 1 kernel = drop 2 input ∧
    output = take 2 input ++ drop 1 kernel.
Proof.
  apply (dense_einsum_build_consistent [64%Z] 1 [8%Z; 16%Z; 32%Z]).
  - cbn. lia.
  - cbn. lia.
Defined.

(** ** MultiHeadAttention.build *)

Lemma block_letters (start len : Z) :
  0 ≤ start → 0 ≤ len → start + len ≤ 26 →
  block ascii_lowercase start len
  = letter <$> range_from start (start + len).
Proof.
  intros Hs Hl Hle. unfold block.
  replace (start + len) with (start + Z.of_nat (Z.to_nat len)) by lia.
  assert (Z.to_nat start + Z.to_nat len ≤ 26)%nat as Hn by lia. revert Hn.
  induction (Z.to_nat len) as [|n IH]; intros Hn.
  - by rewrite Z.add_0_r, range_from_nil by lia.
  - replace (start + Z.of_nat (S n)) with (start + Z.of_nat n + 1) by lia.
    rewrite range_from_succ, fmap_app, <-IH by lia.
    rewrite (take_S_r _ _ (letter (start + Z.of_nat n))); [done|].
    rewrite lookup_drop. unfold letter.
    replace (Z.to_nat (start + Z.of_nat n)) with (Z.to_nat start + n)%nat
      by lia.
    apply list_lookup_lookup_total_lt.
    change (length ascii_lowercase) with 26%nat. lia.
Qed.

Lemma getitem_last {A} (l : list A) (x : A) :
  last l = Some x → getitem l (-1) = Ok x.
Proof.
  intros Hl. rewrite last_lookup in Hl.
  apply lookup_lt_Some in Hl as Hlt. unfold getitem. cbv zeta.
  rewrite (bool_decide_eq_true_2 (-1 < 0)) by lia.
  rewrite bool_decide_eq_true_2 by lia.
  replace (Z.to_nat (-1 + Z.of_nat (length l))) with (pred (length l))
    by lia.
  by rewrite Hl.
Qed.

Lemma _build_attention_default_returns (r : Z) :
  3 ≤ r ≤ 14 → is_Ok (MultiHeadAttention._build_attention None r).
Proof.
  intros Hr. unfold MultiHeadAttention._build_attention.
  rewrite _build_attention_equation_indices;
    [by eexists|lia|apply default_axes_in_range|apply NoDup_range_from|].
  rewrite length_range_from. lia.
Qed.

Lemma _build_attention_default_raises (r : Z) :
  15 ≤ r → MultiHeadAttention._build_attention None r = Raise IndexError.
Proof.
  intros Hr. unfold MultiHeadAttention._build_attention.
  pose proof (default_axes_in_range r) as Hattn.
  rewrite _build_attention_equation_loop by (done || lia).
  pose proof (source_notation_loop r _ Hattn (Z.to_nat r)) as Hloop.
  rewrite Z2Nat.id in Hloop by lia. rewrite Hloop by lia. clear Hloop.
  rewrite bool_decide_eq_false_2; [done|].
  apply source_index_overflow; [lia|done|apply NoDup_range_from|].
  rewrite length_range_from. lia.
Qed.
(** X25.  [MultiHeadAttention.build] with the default attention axes and
    output shape, on two or three input shapes of one rank [n >= 2].  Up
    to rank 13 it returns: the three projections map the [n] input axes to
    [n + 1] axes, the last two being heads and size; the attention is
    built for rank [n + 1]; and the output projection maps the [n + 1] axes
    back to [n], the last being the width of the query.  From rank 14 on
    it raises [IndexError]. *)
Theorem multi_head_attention_build_rank (self : MultiHeadAttention.t)
    (input_shape : list (list (option Z))) (n : Z) :
  MultiHeadAttention.attention_axes self = None →
  MultiHeadAttention._output_shape self = MultiHeadAttention.NoShape →
  (2 ≤ length input_shape ≤ 3)%nat →
  Forall (λ shape, Z.of_nat (length shape) = n) input_shape →
  2 ≤ n →
  let alpha a b := letter <$> range_from a b in
  let bias (axes : list N) :=
    if MultiHeadAttention._use_bias self then Some axes else None in
  let unknown := replicate (Z.to_nat (n - 2)) None in
  let projection size :=
    EinsumDense
      (format_equation (alpha 0 n) (alpha (n - 1) (n + 2))
         (alpha 0 (n - 1) ++ alpha n (n + 2)))
      (unknown ++ [Some (MultiHeadAttention._num_heads self); Some size])
      (bias (alpha n (n + 2))) in
  (n ≤ 13 →
   ∃ attention width,
     MultiHeadAttention._build_attention None (n + 1) = Ok attention ∧
     head input_shape ≫= last = Some width ∧
     MultiHeadAttention.build self input_shape
     = Done (Ok (MultiHeadAttention.Built
         (projection (MultiHeadAttention._key_size self))
         (projection (MultiHeadAttention._key_size self))
         (projection (MultiHeadAttention._value_size self))
         attention
         (EinsumDense
            (format_equation (alpha 0 (n + 1)) (alpha (n - 1) (n + 2))
               (alpha 0 (n - 1) ++ alpha (n + 1) (n + 2)))
            (unknown ++ [width])
            (bias (alpha (n + 1) (n + 2))))))) ∧
  (14 ≤ n →
   MultiHeadAttention.build self input_shape = Done (Raise IndexError)).
Proof.
  intros Haxes Hshape Hlen Hrank Hn alpha bias unknown projection.
  assert (∃ query_shape value_shape key_shape,
    Z.of_nat (length query_shape) = n ∧ Z.of_nat (length value_shape) = n ∧
    Z.of_nat (length key_shape) = n ∧ head input_shape = Some query_shape ∧
    getitem input_shape 0 = Ok query_shape ∧
    getitem input_shape 1 = Ok value_shape ∧
    (if bool_decide (Z.of_nat (length input_shape) = 3)
     then getitem input_shape 2 else Ok value_shape) = Ok key_shape)
    as (query_shape & value_shape & key_shape & Hq & Hv & Hk & Hhead
        & Hget0 & Hget1 & Hget2).
  { destruct input_shape as [|q [|v [|k [|]]]]; cbn in Hlen; try lia.
    - apply Forall_cons in Hrank as [Hq [Hv _]%Forall_cons].
      by exists q, v, v.
    - apply Forall_cons in Hrank as [Hq [Hv [Hk _]%Forall_cons]%Forall_cons].
      by exists q, v, k. }
  assert (∃ width, last query_shape = Some width) as [width Hwidth].
  { destruct query_shape as [|d query_shape _] using rev_ind;
      [cbn in Hq; lia|]. exists d. by rewrite last_snoc. }
  assert (Hproj : n ≤ 13 → ∀ size,
    EinsumDense
      (format_equation
         (block ascii_lowercase 0 (n - 1) ++ block ascii_lowercase (n - 1) 1)
         (block ascii_lowercase (n - 1) 1
          ++ block ascii_lowercase (n - 1 + 1) 2)
         (block ascii_lowercase 0 (n - 1)
          ++ block ascii_lowercase (n - 1 + 1) 2))
      (_get_output_shape (n - 1 + 2 - 1)
         [Some (MultiHeadAttention._num_heads self); Some size])
      (if MultiHeadAttention._use_bias self
       then Some (block ascii_lowercase (n - 1 + 1) 2) else None)
    = projection size).
  { intros Hle size. unfold projection, bias, alpha, _get_output_shape, unknown.
    cbn [length]. rewrite !block_letters by lia.
    replace (0 + (n - 1)) with (n - 1) by lia.
    replace (n - 1 + 1 + 2) with (n + 2) by lia.
    replace (n - 1 + 1) with n by lia.
    rewrite <-(fmap_app letter (range_from 0 (n - 1))).
    rewrite <-(range_from_app 0 (n - 1) n) by lia.
    rewrite <-(fmap_app letter (range_from (n - 1) n)).
    rewrite <-(range_from_app (n - 1) n (n + 2)) by lia.
    by replace (n - 1 + 2 - 1 - Z.of_nat 2) with (n - 2) by lia. }
  unfold MultiHeadAttention.build.
  rewrite bool_decide_eq_false_2 by lia.
  rewrite Hget0. cbn [mbind result_bind].
  rewrite Hget1. cbn [mbind result_bind].
  rewrite Hget2. cbn [mbind result_bind].
  rewrite Haxes, Hshape, Hq, Hv, Hk. split; intros Hle.
  - destruct (_build_attention_default_returns (n + 1) ltac:(lia))
      as [attention Hattention].
    exists attention, width. split; [done|]. split.
    { by rewrite Hhead. }
    rewrite !_build_proj_equation_ok by lia. cbn [mbind result_bind].
    rewrite !Hproj by done. replace (n - 1 + 2) with (n + 1) by lia.
    rewrite Hattention. cbn [mbind result_bind].
    rewrite (getitem_last _ _ Hwidth). cbn [mbind result_bind length].
    rewrite _build_proj_equation_ok by lia. cbn [mbind result_bind].
    do 3 f_equal. unfold bias, alpha, _get_output_shape, unknown.
    cbn [length]. rewrite !block_letters by lia.
    change (Z.of_nat 1) with 1.
    replace (0 + (n - 1)) with (n - 1) by lia.
    replace (n - 1 + 2 + 1) with (n + 2) by lia.
    replace (n - 1 + 2) with (n + 1) by lia.
    rewrite <-(fmap_app letter (range_from 0 (n - 1))
                 (range_from (n - 1) (n + 1))).
    rewrite <-(range_from_app 0 (n - 1) (n + 1)) by lia.
    rewrite <-(fmap_app letter (range_from (n - 1) (n + 1))).
    rewrite <-(range_from_app (n - 1) (n + 1) (n + 2)) by lia.
    by replace (n - 1 + 1 - 1 - 1) with (n - 2) by lia.
  - f_equal. destruct (decide (n ≤ 24)) as [H24|H24].
    + rewrite !_build_proj_equation_ok by lia. cbn [mbind result_bind].
      replace (n - 1 + 2) with (n + 1) by lia.
      by rewrite _build_attention_default_raises by lia.
    + by rewrite _build_proj_equation_raise by lia.
Qed.

Lemma multi_head_attention_build_rank_witness :
  let self :=
    MultiHeadAttention.Build 12 64 64 true MultiHeadAttention.NoShape None in
  let shape := [None; Some 128; Some 768] in
  ∃ attention width,
    MultiHeadAttention._build_attention None 4 = Ok attention ∧
    head [shape; shape] ≫= last = Some width ∧
    MultiHeadAttention.build self [shape; shape]
    = Done (Ok (MultiHeadAttention.Built
        (EinsumDense (py "abc,cde->abde") [None; Some 12; Some 64]
           (Some (py "de")))
        (EinsumDense (py "abc,cde->abde") [None; Some 12; Some 64]
           (Some (py "de")))
        (EinsumDense (py "abc,cde->abde") [None; Some 12; Some 64]
           (Some (py "de")))
        attention
        (EinsumDense (py "abcd,cde->abe") [None; width] (Some (py "e"))))).
Proof.
  intros self shape.
  destruct (multi_head_attention_build_rank self [shape; shape] 3)
    as [H _]; [done|done|cbn; lia| |lia|].
  - by repeat constructor.
  - apply H. lia.
Defined.
